(** * NAV tracker: trading-day resolution, series maintenance, moving
      averages, signals and gap repair

    A shallow embedding of [nav-tracker.js] (the daily pipeline
    [getNAVAndAnalyze]), [holidays.gs] ([getMarketHolidays],
    [isWeekendOrHoliday]) and [fill-na-data.js] ([fillNAData]).

    Modelling conventions.
    - A JavaScript number is [NaN] or a rational: a finite double is read as
      the rational it denotes.  The sum and the quotient of a moving average
      are rounded as doubles are ([round64]), since there the rounding can
      decide a stored digit; elsewhere arithmetic is exact.  The two
      infinities (hence the literal [Infinity], a result beyond the largest
      double and a division by a zero average) and the sign of zero are
      outside the model.
    - A [Date] is a day number (days since 1970-01-01) in the +05:30 zone the
      scripts format in; the script's own zone is taken to be the same.
    - The spreadsheet is a header row and a list of data rows, the sheet
      named "Nav" being there (both scripts return at once without it); cell
      formatting, column sizing and the logger are not modelled.  What the
      scripts do to the outside world (provider queries, row appends and
      deletions, dialogs, mail) is recorded in an event log. *)

From Stdlib Require Import ZArith QArith Qround Qabs Qminmax Qpower Bool List String Ascii Lia Lqa.
Import ListNotations.
Local Open Scope string_scope.
Local Open Scope nat_scope.
Local Open Scope list_scope.

(* ===================================================================== *)
(** ** JavaScript values and the built-ins the scripts call *)
(* ===================================================================== *)

Module JS.

(** A number: [NaN] or a finite value. *)
Inductive num : Type :=
| NaN : num
| Num : Q -> num.

Definition isNaN (n : num) : bool :=
  match n with NaN => true | Num _ => false end.

(** Truthiness of a number: [NaN] and zero are falsy. *)
Definition truthy (n : num) : bool :=
  match n with
  | NaN => false
  | Num q => negb (Qeq_bool q 0%Q)
  end.

(** [a || b] on numbers. *)
Definition jor (a b : num) : num := if truthy a then a else b.

Definition Qlt_bool (a b : Q) : bool := negb (Qle_bool b a).

(** *** Strings *)

Fixpoint startsWithL (p s : list ascii) : bool :=
  match p, s with
  | [], _ => true
  | _ :: _, [] => false
  | a :: p', b :: s' => Ascii.eqb a b && startsWithL p' s'
  end.

Fixpoint includesL (p s : list ascii) : bool :=
  startsWithL p s ||
  match s with
  | [] => false
  | _ :: s' => includesL p s'
  end.

(** [s.startsWith(p)] *)
Definition startsWith (p s : string) : bool :=
  startsWithL (list_ascii_of_string p) (list_ascii_of_string s).

(** [s.includes(p)] *)
Definition includes (p s : string) : bool :=
  includesL (list_ascii_of_string p) (list_ascii_of_string s).

(** [s.split(sep)] for a one-character separator: always at least one piece. *)
Fixpoint splitL (sep : ascii) (cur : list ascii) (s : list ascii) : list string :=
  match s with
  | [] => [string_of_list_ascii (rev cur)]
  | c :: s' =>
      if Ascii.eqb c sep
      then string_of_list_ascii (rev cur) :: splitL sep [] s'
      else splitL sep (c :: cur) s'
  end.

Definition split (sep : ascii) (s : string) : list string :=
  splitL sep [] (list_ascii_of_string s).

(** A string used as a condition: the empty string is falsy. *)
Definition nonEmpty (s : string) : bool :=
  match s with EmptyString => false | String _ _ => true end.

(** *** parseFloat *)

Definition isDigit (c : ascii) : bool :=
  let n := nat_of_ascii c in (48 <=? n) && (n <=? 57).

Definition digitVal (c : ascii) : Z := Z.of_nat (nat_of_ascii c) - 48.

Definition isWhiteSpace (c : ascii) : bool :=
  let n := nat_of_ascii c in
  (n =? 32) || ((9 <=? n) && (n <=? 13)).

Fixpoint dropWhile {A} (f : A -> bool) (l : list A) : list A :=
  match l with
  | [] => []
  | a :: l' => if f a then dropWhile f l' else l
  end.

Fixpoint spanDigits (l : list ascii) : list ascii * list ascii :=
  match l with
  | [] => ([], [])
  | c :: l' =>
      if isDigit c
      then let '(ds, rest) := spanDigits l' in (c :: ds, rest)
      else ([], l)
  end.

Definition digitsValue (ds : list ascii) : Z :=
  fold_left (fun acc c => 10 * acc + digitVal c)%Z ds 0%Z.

Definition takeSign (l : list ascii) : bool * list ascii :=
  match l with
  | "-"%char :: r => (true, r)
  | "+"%char :: r => (false, r)
  | _ => (false, l)
  end.

(** The exponent part [e±ddd], when it is complete; otherwise none is read. *)
Definition exponentPart (l : list ascii) : Z :=
  match l with
  | c :: r =>
      if Ascii.eqb c "e" || Ascii.eqb c "E"
      then let '(neg, r1) := takeSign r in
           let '(ds, _) := spanDigits r1 in
           match ds with
           | [] => 0%Z
           | _ => if neg then (- digitsValue ds)%Z else digitsValue ds
           end
      else 0%Z
  | [] => 0%Z
  end.

(** [parseFloat(s)]: leading white space is skipped and the longest prefix
    that is a decimal literal is read; [NaN] when there is none. *)
Definition parseFloat (s : string) : num :=
  let l := dropWhile isWhiteSpace (list_ascii_of_string s) in
  let '(neg, l1) := takeSign l in
  let '(ip, l2) := spanDigits l1 in
  let '(fp, l3) :=
    match l2 with
    | "."%char :: r => spanDigits r
    | _ => ([], l2)
    end in
  match ip ++ fp with
  | [] => NaN
  | ds =>
      let mant := (inject_Z (digitsValue ds) / inject_Z (10 ^ Z.of_nat (List.length fp)))%Q in
      let v := (mant * Qpower (10 # 1) (exponentPart l3))%Q in
      Num (if neg then Qopp v else v)
  end.

(** [parseFloat(parts[k])]: a missing element reads as [undefined], hence [NaN]. *)
Definition parseFloatAt (parts : list string) (k : nat) : num :=
  match nth_error parts k with
  | Some s => parseFloat s
  | None => NaN
  end.

(** *** toFixed *)

(** [parseFloat(x.toFixed(digits))]: the nearest multiple of [10^-digits],
    a tie going away from zero; from [10^21] on, [toFixed] prints the number
    itself. *)
Definition toFixed (digits : Z) (x : Q) : Q :=
  if Qle_bool (inject_Z (10 ^ 21)) (Qabs x) then x
  else
    let scale := inject_Z (10 ^ digits) in
    let n := Qfloor (Qabs x * scale + (1 # 2))%Q in
    let r := (inject_Z n / scale)%Q in
    if Qlt_bool x 0%Q then Qopp r else r.

(** *** Doubles *)

Definition pow2 (k : Z) : Q := Qpower 2 k.

(** For a positive [x], the exponent [k] of its binade: [2^k <= x < 2^(k+1)]. *)
Definition ilog2 (x : Q) : Z :=
  let k := (Z.log2 (Qnum x) - Z.log2 (Zpos (Qden x)))%Z in
  if Qle_bool (pow2 k) x then k else (k - 1)%Z.

(** The integer nearest to [y], a tie going to the even one. *)
Definition roundHalfEven (y : Q) : Z :=
  let f := Qfloor y in
  let d := (y - inject_Z f)%Q in
  if Qlt_bool d (1 # 2) then f
  else if Qlt_bool (1 # 2) d then (f + 1)%Z
  else if Z.even f then f else (f + 1)%Z.

(** The double nearest to [x], as IEEE 754 binary64 rounds to nearest with
    ties to even: a significand of 53 bits, the exponent not below that of
    the subnormal numbers.  The result of every arithmetic operation on
    numbers, and of reading a decimal, is the exact result rounded so. *)
Definition round64 (x : Q) : Q :=
  if Qeq_bool x 0 then 0%Q
  else
    let e := Z.max (ilog2 (Qabs x) - 52) (-1074) in
    let r := Qred (inject_Z (roundHalfEven (Qabs x / pow2 e)) * pow2 e) in
    if Qlt_bool x 0 then Qopp r else r.

(** A number that was read, as the double it is. *)
Definition toDouble (a : num) : num :=
  match a with
  | NaN => NaN
  | Num x => Num (round64 x)
  end.

End JS.

(* ===================================================================== *)
(** ** Calendar ([holidays.gs]) *)
(* ===================================================================== *)

Module Calendar.

(** A date, to the day: days since 1970-01-01. *)
Definition date : Type := Z.

(** Year, month and day of a day number (proleptic Gregorian calendar). *)
Definition civilFromDays (z : Z) : Z * Z * Z :=
  let z := (z + 719468)%Z in
  let era := (z / 146097)%Z in
  let doe := (z - era * 146097)%Z in
  let yoe := ((doe - doe / 1460 + doe / 36524 - doe / 146096) / 365)%Z in
  let doy := (doe - (365 * yoe + yoe / 4 - yoe / 100))%Z in
  let mp := ((5 * doy + 2) / 153)%Z in
  let d := (doy - (153 * mp + 2) / 5 + 1)%Z in
  let m := (if mp <? 10 then mp + 3 else mp - 9)%Z in
  let y := (yoe + era * 400 + (if m <=? 2 then 1 else 0))%Z in
  (y, m, d).

(** The day number of a calendar day: how the examples name their dates. *)
Definition daysFromCivil (y m d : Z) : date :=
  let y := (if m <=? 2 then y - 1 else y)%Z in
  let era := (y / 400)%Z in
  let yoe := (y - era * 400)%Z in
  let mp := (if m <=? 2 then m + 9 else m - 3)%Z in
  let doy := ((153 * mp + 2) / 5 + d - 1)%Z in
  let doe := (yoe * 365 + yoe / 4 - yoe / 100 + doy)%Z in
  (era * 146097 + doe - 719468)%Z.

(** [date.getDay()]: 0 is Sunday, 6 is Saturday. *)
Definition getDay (d : date) : Z := ((d + 4) mod 7)%Z.

Definition digitChar (n : Z) : ascii := ascii_of_nat (48 + Z.to_nat (n mod 10)).

Definition pad2 (n : Z) : string :=
  String (digitChar (n / 10)) (String (digitChar n) EmptyString).

Definition pad4 (n : Z) : string :=
  String (digitChar (n / 1000)) (String (digitChar (n / 100)) (pad2 n)).

(** [Utilities.formatDate(d, "GMT+5:30", "yyyy-MM-dd")] *)
Definition formatDate (d : date) : string :=
  let '(y, m, dd) := civilFromDays d in
  (pad4 y ++ "-" ++ pad2 m ++ "-" ++ pad2 dd)%string.

Definition getMarketHolidays : list string :=
  [ (* 2025 *)
    "2025-01-26"; "2025-03-29"; "2025-04-14"; "2025-05-01";
    "2025-08-15"; "2025-10-02"; "2025-10-24"; "2025-12-25";
    (* 2026 *)
    "2026-01-26"; "2026-03-03"; "2026-03-26"; "2026-03-31";
    "2026-04-03"; "2026-04-14"; "2026-05-01"; "2026-05-28";
    "2026-06-26"; "2026-09-14"; "2026-10-02"; "2026-10-20";
    "2026-11-10"; "2026-11-24"; "2026-12-25" ].

(** [arr.includes(s)] on an array of strings. *)
Definition arrayIncludes (arr : list string) (s : string) : bool :=
  existsb (String.eqb s) arr.

Definition isWeekendOrHoliday (d : date) : bool :=
  let day := getDay d in
  let dateStr := formatDate d in
  let holidays := getMarketHolidays in
  (day =? 0)%Z || (day =? 6)%Z || arrayIncludes holidays dateStr.

End Calendar.

(* ===================================================================== *)
(** ** The spreadsheet *)
(* ===================================================================== *)

Module Sheet.
Import JS Calendar.

(** A fired alert.  The three dip tiers carry the score and the dip as the
    message prints them ([toFixed(1)]). *)
Inductive alert : Type :=
| ExceptionalBuy (score dip : Q)
| StrongBuy (score dip : Q)
| ModerateBuy (score dip : Q)
| GoldenCross
| DeathCross
| LongTermDowntrend.

(** What a cell holds.  [CAlerts l] stands for the text [alerts.join("\n")]
    of a non-empty alert list: it starts with a symbol or a letter, so it is
    neither a number nor the marker ["N/A"]. *)
Inductive cell : Type :=
| CDate (d : date)
| CNum (q : Q)
| CStr (s : string)
| CAlerts (l : list alert).

(** A data row: the date of column 1, then the cells of columns 2, 3, ... *)
Record row : Type := Row { rdate : date; rcells : list cell }.

(** [row[k]], [k] counted from 0 as in the script: [None] is [undefined]. *)
Definition rowGet (r : row) (k : nat) : option cell :=
  match k with
  | O => Some (CDate (rdate r))
  | S k' => nth_error (rcells r) k'
  end.

(** [parseFloat(c)] on a cell value. *)
Definition parseFloatCell (c : option cell) : num :=
  match c with
  | Some (CNum q) => Num q
  | Some (CStr s) => parseFloat s
  | Some (CDate _) => NaN
  | Some (CAlerts _) => NaN
  | None => NaN
  end.

(** [c === "N/A"] *)
Definition isNA (c : option cell) : bool :=
  match c with
  | Some (CStr s) => String.eqb s "N/A"
  | _ => false
  end.

Record sheet : Type := MkSheet { header : list string; rows : list row }.

(** [sheet.getLastRow()]: the header is row 1. *)
Definition getLastRow (s : sheet) : nat := S (List.length (rows s)).

Definition appendRow (r : row) (s : sheet) : sheet :=
  {| header := header s; rows := rows s ++ [r] |}.

Fixpoint removeNth {A} (k : nat) (l : list A) : list A :=
  match k, l with
  | _, [] => []
  | O, _ :: t => t
  | S k', a :: t => a :: removeNth k' t
  end.

(** [sheet.deleteRow(n)] on a data row, rows counted from 1.  Row 1 is the
    header: the scripts never delete it, and that case is left as it is. *)
Definition deleteRow (n : nat) (s : sheet) : sheet :=
  match n with
  | S (S k) => {| header := header s; rows := removeNth k (rows s) |}
  | _ => s
  end.

(** Writing one cell of a grid: the cells in between exist and are empty. *)
Fixpoint setCell (k : nat) (v : cell) (cells : list cell) : list cell :=
  match k, cells with
  | O, [] => [v]
  | O, _ :: t => v :: t
  | S k', [] => CStr "" :: setCell k' v []
  | S k', c :: t => c :: setCell k' v t
  end.

Fixpoint setCells (k : nat) (vs : list cell) (cells : list cell) : list cell :=
  match vs with
  | [] => cells
  | v :: vs' => setCells (S k) vs' (setCell k v cells)
  end.

Fixpoint updateNth {A} (k : nat) (f : A -> A) (l : list A) : list A :=
  match k, l with
  | _, [] => []
  | O, a :: t => f a :: t
  | S k', a :: t => a :: updateNth k' f t
  end.

(** [sheet.getRange(n, col, 1, len).setValues([vs])] on a data row
    ([n >= 2]) from a column after the date ([col >= 2]). *)
Definition setValues (n col : nat) (vs : list cell) (s : sheet) : sheet :=
  {| header := header s;
     rows := updateNth (n - 2)
               (fun r => {| rdate := rdate r; rcells := setCells (col - 2) vs (rcells r) |})
               (rows s) |}.

End Sheet.

(* ===================================================================== *)
(** ** The outside world *)
(* ===================================================================== *)

Module World.
Import Calendar Sheet.

(** [UrlFetchApp.fetch] on the report of one date: it throws, or answers
    with a status code and a body. *)
Inductive response : Type :=
| FetchThrows
| Response (code : Z) (content : string).

Inductive exn : Type :=
| ReferenceError (name : string)
| TypeError (msg : string)
| ServiceError (msg : string).

Inductive event : Type :=
| Fetch (d : date)
| AppendRow (r : row)
| DeleteRow (n : nat)
| UiAlert (msg : string)
| Caught (e : exn)
| SendEmail.

(** How a script run ends. *)
Inductive completion : Type :=
| Returned
| Thrown (e : exn).

Record world : Type := MkWorld { sheet : Sheet.sheet; log : list event }.

Definition emit (e : event) (w : world) : world :=
  {| sheet := sheet w; log := log w ++ [e] |}.

Definition onSheet (f : Sheet.sheet -> Sheet.sheet) (w : world) : world :=
  {| sheet := f (sheet w); log := log w |}.

(** The offsets [a, a+1, ..., b] of a counting [for] loop. *)
Definition fromTo (a b : Z) : list Z :=
  map (fun k => (a + Z.of_nat k)%Z) (seq 0 (Z.to_nat (b - a + 1))).

(** The response test shared by every provider query: status 200, a
    non-empty body, and no "No data found" in it. *)
Definition validResponse (r : response) : option string :=
  match r with
  | FetchThrows => None
  | Response code content =>
      if (code =? 200)%Z && JS.nonEmpty content
         && negb (JS.includes "No data found" content)
      then Some content
      else None
  end.

Definition newline : ascii := ascii_of_nat 10.

Definition fundsToTrack : list (string * string) :=
  [ ("ICICI Pru BA", "120377");
    ("HDFC Mid-Cap", "118989");
    ("Nippon Small Cap", "118778");
    ("UTI Nifty 50", "120716");
    ("PPFAS Flexi Cap", "122639") ].

End World.

(* ===================================================================== *)
(** ** The daily pipeline ([nav-tracker.js]) *)
(* ===================================================================== *)

Module Daily.
Import JS Calendar Sheet World.

(** *** Configuration *)

Definition STRONG_BUY : Q := 7.
Definition GOOD_BUY : Q := 5.
Definition MODERATE_BUY : Q := 3.

Definition PRICE_DIP : Q := 4 # 10.
Definition TREND_STRENGTH : Q := 3 # 10.
Definition MA_ALIGNMENT : Q := 3 # 10.

Definition fundNames : list string := map fst fundsToTrack.

Definition maPeriods : list nat := [30; 50; 200].

Definition navHeaders : list string := map (fun f => (f ++ " NAV")%string) fundNames.
Definition maHeaders : list string :=
  flat_map (fun f => [(f ++ " 30D-MA")%string; (f ++ " 50D-MA")%string; (f ++ " 200D-MA")%string])
           fundNames.
Definition alertHeaders : list string := map (fun f => (f ++ " Analysis")%string) fundNames.
Definition headerRow : list string := "Date" :: navHeaders ++ maHeaders ++ alertHeaders.

Definition numMACols : nat := List.length fundNames * List.length maPeriods.
Definition numAlertCols : nat := List.length fundNames.
Definition navStartIdx : nat := 1.
Definition maStartIdx : nat := navStartIdx + List.length fundNames.
Definition alertStartIdx : nat := maStartIdx + numMACols.

(** *** Moving averages (lines 311-322) *)

(** [a + b] and [a / n] on doubles. *)
Definition jadd (a b : num) : num :=
  match a, b with
  | Num x, Num y => Num (round64 (x + y))
  | _, _ => NaN
  end.

Definition jdivn (a : num) (n : nat) : num :=
  match a with
  | Num x => Num (round64 (x / inject_Z (Z.of_nat n)))
  | NaN => NaN
  end.

(** [arr.slice(-n)] *)
Definition sliceLast {A} (n : nat) (l : list A) : list A :=
  match n with
  | O => l
  | S _ => skipn (List.length l - n) l
  end.

(** The valid readings of one column over the last [period] rows, each the
    double [parseFloat] returns. *)
Definition navsForMA (dataRange : list row) (navColIdx period : nat) : list num :=
  filter (fun v => negb (isNaN v))
         (map (fun r => toDouble (parseFloatCell (rowGet r navColIdx)))
              (sliceLast period dataRange)).

(** The value of [ma] after the body of the loop over the periods: the
    marker ["N/A"], or the mean printed with four decimals. *)
Definition computeMA (dataRange : list row) (navColIdx period : nat) : cell :=
  if period <=? List.length dataRange then
    let navs := navsForMA dataRange navColIdx period in
    if List.length navs =? period then
      match jdivn (fold_left jadd navs (Num 0)) period with
      | Num mean => CNum (toFixed 4 mean)
      | NaN => CStr "NaN"
      end
    else CStr "N/A"
  else CStr "N/A".

Definition indexOf (period : nat) (l : list nat) : option nat :=
  (fix go (l : list nat) (k : nat) : option nat :=
     match l with
     | [] => None
     | p :: l' => if p =? period then Some k else go l' (S k)
     end) l 0.

(** [currentFundMAs]: the averages of the fund in column [navColIdx], an
    object keyed by period (a missing key reads [undefined], hence [NaN]). *)
Definition currentFundMAs (dataRange : list row) (navColIdx : nat) : nat -> num :=
  fun period =>
    if existsb (Nat.eqb period) maPeriods
    then parseFloatCell (Some (computeMA dataRange navColIdx period))
    else NaN.

(** [previousFundMAs] (lines 325-332): read back from the row before the
    last, where an earlier run stored them. *)
Definition previousFundMAs (dataRange : list row) (i : nat) : nat -> num :=
  fun period =>
    if 1 <? List.length dataRange then
      match nth_error dataRange (List.length dataRange - 2), indexOf period maPeriods with
      | Some prevRowData, Some pIdx =>
          parseFloatCell (rowGet prevRowData (maStartIdx + i * List.length maPeriods + pIdx))
      | _, _ => NaN
      end
    else NaN.

(** *** Signals (lines 334-409) *)

(** One round of the loop over the periods at lines 344-359. *)
Definition dipStep (latestNav : Q) (cur : nat -> num) (acc : Q * Z) (period : nat) : Q * Z :=
  let '(maxDipPercentage, maAlignmentScore) := acc in
  match cur period with
  | NaN => acc
  | Num ma =>
      let diff := toFixed 2 ((latestNav - ma) / ma * 100)%Q in
      let diffValue := Qabs diff in
      let maxDipPercentage :=
        if Qlt_bool latestNav ma && Qlt_bool maxDipPercentage diffValue
        then diffValue else maxDipPercentage in
      let above := Qlt_bool ma latestNav in
      let maAlignmentScore :=
        if (period =? 30) && above then (maAlignmentScore + 1)%Z else maAlignmentScore in
      let maAlignmentScore :=
        if (period =? 50) && above then (maAlignmentScore + 1)%Z else maAlignmentScore in
      let maAlignmentScore :=
        if (period =? 200) && above then (maAlignmentScore + 1)%Z else maAlignmentScore in
      (maxDipPercentage, maAlignmentScore)
  end.

Definition dipAndAlignment (latestNav : Q) (cur : nat -> num) : Q * Z :=
  fold_left (dipStep latestNav cur) maPeriods (0%Q, 0%Z).

Definition maxDipPercentage (latestNav : Q) (cur : nat -> num) : Q :=
  fst (dipAndAlignment latestNav cur).

Definition maAlignmentScore (latestNav : Q) (cur : nat -> num) : Z :=
  snd (dipAndAlignment latestNav cur).

Definition trendScore (cur : nat -> num) : Q :=
  match cur 30, cur 50 with
  | Num ma30, Num ma50 => Qmin (Qabs ((ma30 - ma50) / ma50 * 100) / 5) 1
  | _, _ => 0
  end.

(** Lines 366-370. *)
Definition opportunityScoreOf (maxDip trend : Q) (align : Z) : Q :=
  ((maxDip / 10) * PRICE_DIP + trend * TREND_STRENGTH
   + (inject_Z align / 3) * MA_ALIGNMENT) * 100.

Definition opportunityScore (latestNav : Q) (cur : nat -> num) : Q :=
  opportunityScoreOf (maxDipPercentage latestNav cur) (trendScore cur)
                     (maAlignmentScore latestNav cur).

(** Lines 373-388. *)
Definition dipAlert (score maxDip : Q) (bg : string) : list alert * string :=
  if Qlt_bool STRONG_BUY maxDip
  then ([ExceptionalBuy (toFixed 1 score) (toFixed 1 maxDip)], "#ff9999")
  else if Qlt_bool GOOD_BUY maxDip
  then ([StrongBuy (toFixed 1 score) (toFixed 1 maxDip)], "#ffcccc")
  else if Qlt_bool MODERATE_BUY maxDip
  then ([ModerateBuy (toFixed 1 score) (toFixed 1 maxDip)], "#ffeecc")
  else ([], bg).

Definition orIfWhite (bg : string) : string :=
  if String.eqb bg "#ffffff" then "#ffeecc" else bg.

(** Lines 391-399. *)
Definition crossAlert (cur prev : nat -> num) (bg : string) : list alert * string :=
  match cur 30, cur 50, prev 30, prev 50 with
  | Num c30, Num c50, Num p30, Num p50 =>
      if Qlt_bool c50 c30 && Qle_bool p30 p50 then ([GoldenCross], bg)
      else if Qlt_bool c30 c50 && Qle_bool p50 p30 then ([DeathCross], orIfWhite bg)
      else ([], bg)
  | _, _, _, _ => ([], bg)
  end.

(** Lines 402-405. *)
Definition longTermAlert (latestNav : Q) (cur : nat -> num) (bg : string) : list alert * string :=
  match cur 200 with
  | Num ma200 =>
      if Qlt_bool latestNav ma200 then ([LongTermDowntrend], orIfWhite bg) else ([], bg)
  | NaN => ([], bg)
  end.

(** The alerts and the background of one fund (lines 334-406). *)
Definition signals (latestNav : num) (cur prev : nat -> num) : list alert * string :=
  let bg := "#ffffff" in
  match latestNav with
  | NaN => ([], bg)
  | Num nav =>
      let score := opportunityScore nav cur in
      let '(a1, bg) := dipAlert score (maxDipPercentage nav cur) bg in
      let '(a2, bg) := crossAlert cur prev bg in
      let '(a3, bg) := longTermAlert nav cur bg in
      (a1 ++ a2 ++ a3, bg)
  end.

(** *** Building a row from a report *)

Definition navCell (nav : num) : cell :=
  match nav with
  | NaN => CStr "N/A"
  | Num q => CNum q
  end.

(** Line 178: the fifth field, else the sixth, else the last one. *)
Definition navOfLine (line : string) : num :=
  let parts := split ";" line in
  jor (jor (parseFloatAt parts 4) (parseFloatAt parts 5)) (parseFloat (last parts "")).

(** Lines 171-179. *)
Definition firstNav (rawNavData : list string) (code : string) : num :=
  match find (startsWith (code ++ ";")%string) rawNavData with
  | Some line => navOfLine line
  | None => NaN
  end.

(** The scan [for (let j = 2; j < Math.min(parts.length, 10); j++)] for the
    first field that reads as a positive number (lines 237-243, 686-693). *)
Fixpoint scanPositive (parts : list string) (js : list nat) : num :=
  match js with
  | [] => NaN
  | j :: js' =>
      match parseFloatAt parts j with
      | Num candidate =>
          if Qlt_bool 0 candidate then Num candidate else scanPositive parts js'
      | NaN => scanPositive parts js'
      end
  end.

Definition scanRange (parts : list string) : list nat :=
  seq 2 (Nat.min (List.length parts) 10 - 2).

(** Lines 231-247. *)
Definition retryNav (rawNavData : list string) (code : string) : num :=
  match find (includes (code ++ ";")%string) rawNavData with
  | Some line =>
      let parts := split ";" line in
      match scanPositive parts (scanRange parts) with
      | NaN => parseFloat (last parts "")
      | nav => nav
      end
  | None => NaN
  end.

Definition placeholders : list cell := repeat (CStr "") (numMACols + numAlertCols).

(** Lines 167-186. *)
Definition buildRow (fetchedDate : date) (rawNavData : list string) : row :=
  {| rdate := fetchedDate;
     rcells := map (fun f => navCell (firstNav rawNavData (snd f))) fundsToTrack
               ++ placeholders |}.

(** Lines 195-201. *)
Definition hasNAValues (newNavRow : row) : bool :=
  existsb (fun i => isNA (rowGet newNavRow (navStartIdx + i)))
          (seq 0 (List.length fundNames)).

(** *** Analysis and write-back (lines 283-533) *)

Definition analyzeFund (dataRange : list row) (newNavRow : row) (i : nat)
  : list cell * (list alert * string) :=
  let navColIdx := navStartIdx + i in
  let latestNav := parseFloatCell (rowGet newNavRow navColIdx) in
  (map (computeMA dataRange navColIdx) maPeriods,
   signals latestNav (currentFundMAs dataRange navColIdx) (previousFundMAs dataRange i)).

(** [alerts.join("\n")] *)
Definition alertCell (alerts : list alert) : cell :=
  match alerts with
  | [] => CStr ""
  | _ => CAlerts alerts
  end.

Definition hasAlerts (alerts : list alert) : bool :=
  match alerts with [] => false | _ => true end.

Definition failedToFetch : string :=
  "Failed to fetch NAV data for the last 5 trading days. Please try again later.".

(** Lines 76: the header cells are written on every run. *)
Definition setHeader (s : Sheet.sheet) : Sheet.sheet :=
  {| header := headerRow ++ skipn (List.length headerRow) (header s); rows := rows s |}.

Section Pipeline.

(** The provider, the day of the run, and what the identifier [i] resolves
    to at line 209.  Both [let i] of lines 117 and 196 are scoped to their
    own loop, so there [i] is looked up in the function and global scopes:
    [None] when neither binds it. *)
Variable fetch : date -> response.
Variable today : date.
Variable outer_i : option Z.

(** Lines 117-141: the walk over the offsets [i]. *)
Fixpoint firstPass (offsets : list Z) (w : world) : option (date * list string) * world :=
  match offsets with
  | [] => (None, w)
  | i :: rest =>
      let dateToFetch := (today - i)%Z in
      if isWeekendOrHoliday dateToFetch then firstPass rest w
      else
        let w := emit (Fetch dateToFetch) w in
        match validResponse (fetch dateToFetch) with
        | Some content => (Some (dateToFetch, split newline content), w)
        | None => firstPass rest w
        end
  end.

(** Lines 209-280: the walk over the offsets [retryI].  A complete row of a
    new date is appended at line 266; line 267 then assigns to the constant
    [newNavRow], which throws inside the [try], so the [break] of line 269
    is not reached and the loop goes on. *)
Fixpoint retryLoop (offsets : list Z) (w : world) : world :=
  match offsets with
  | [] => w
  | retryI :: rest =>
      let dateToRetry := (today - retryI)%Z in
      if isWeekendOrHoliday dateToRetry then retryLoop rest w
      else
        let w := emit (Fetch dateToRetry) w in
        match validResponse (fetch dateToRetry) with
        | None => retryLoop rest w
        | Some retryContent =>
            let rawNavData := split newline retryContent in
            let navs := map (fun f => retryNav rawNavData (snd f)) fundsToTrack in
            let completeData := forallb (fun nav => negb (isNaN nav)) navs in
            if completeData then
              let existingDates2 := map (fun r => formatDate (rdate r)) (rows (sheet w)) in
              if negb (arrayIncludes existingDates2 (formatDate dateToRetry)) then
                let retryNavRow :=
                  {| rdate := dateToRetry; rcells := map navCell navs ++ placeholders |} in
                let w := emit (AppendRow retryNavRow) (onSheet (appendRow retryNavRow) w) in
                let w := emit (Caught (TypeError "Assignment to constant variable.")) w in
                retryLoop rest w
              else retryLoop rest w
            else retryLoop rest w
        end
  end.

(** Lines 283-533.  Reading the data range of a sheet without data rows is
    refused by the spreadsheet service. *)
Definition analysis (newNavRow : row) (w : world) : world * completion :=
  match rows (sheet w) with
  | [] => (w, Thrown (ServiceError "The number of rows in the range must be at least 1."))
  | _ :: _ =>
      let dataRange := rows (sheet w) in
      let results := map (analyzeFund dataRange newNavRow) (seq 0 (List.length fundNames)) in
      let currentDayMAsForSheet := flat_map fst results in
      let alertMsgs := map (fun r => alertCell (fst (snd r))) results in
      let currentRow := getLastRow (sheet w) in
      let w := onSheet (setValues currentRow (maStartIdx + 1) currentDayMAsForSheet) w in
      let w := onSheet (setValues currentRow (alertStartIdx + 1) alertMsgs) w in
      let w := if existsb (fun r => hasAlerts (fst (snd r))) results
               then emit SendEmail w else w in
      (w, Returned)
  end.

Definition getNAVAndAnalyzeIn (w : world) : world * completion :=
  let w := onSheet setHeader w in
  let '(found, w) := firstPass (fromTo 1 5) w in
  match found with
  | None => (emit (UiAlert failedToFetch) w, Returned)
  | Some (fetchedDate, rawNavData) =>
      let currentFormattedDate := formatDate fetchedDate in
      let dataRange := rows (sheet w) in
      let existingDates := map (fun r => formatDate (rdate r)) dataRange in
      if arrayIncludes existingDates currentFormattedDate then (w, Returned)
      else
        let newNavRow := buildRow fetchedDate rawNavData in
        let w := emit (AppendRow newNavRow) (onSheet (appendRow newNavRow) w) in
        if hasNAValues newNavRow then
          let n := getLastRow (sheet w) in
          let w := emit (DeleteRow n) (onSheet (deleteRow n) w) in
          match outer_i with
          | None => (w, Thrown (ReferenceError "i"))
          | Some i => analysis newNavRow (retryLoop (fromTo (i + 1) 10) w)
          end
        else analysis newNavRow w
  end.

End Pipeline.

(** The script as it stands: nothing binds [i] outside the two loops. *)
Definition getNAVAndAnalyze (fetch : date -> response) (today : date) (w : world)
  : world * completion :=
  getNAVAndAnalyzeIn fetch today None w.

End Daily.

(* ===================================================================== *)
(** ** Gap repair ([fill-na-data.js]) *)
(* ===================================================================== *)

Module Repair.
Import JS Calendar Sheet World.

(** One entry of [updates]: sheet row, sheet column (both from 1), value. *)
Record update : Type := MkUpdate { urow : nat; ucol : nat; uvalue : Q }.

(** What a completed run counted. *)
Record report : Type :=
  MkReport { fundUpdates : list (string * nat); totalUpdates : nat }.

(** [foundNav] is [null] until a field is read. *)
Definition truthyOpt (foundNav : option num) : bool :=
  match foundNav with
  | Some n => truthy n
  | None => false
  end.

Fixpoint findIndex {A} (f : A -> bool) (l : list A) : option nat :=
  match l with
  | [] => None
  | a :: l' => if f a then Some 0 else option_map S (findIndex f l')
  end.

(** Lines 624-637: sheet column (from 1) and provider code of each fund
    whose NAV header is present. *)
Definition fundColumns (headers : list string) : list (string * (nat * string)) :=
  flat_map
    (fun f =>
       match findIndex (fun h => includes (fst f) h && includes "NAV" h) headers with
       | Some k => [(fst f, (S k, snd f))]
       | None => []
       end)
    fundsToTrack.

Fixpoint natToStringAux (fuel n : nat) (acc : string) : string :=
  match fuel with
  | O => acc
  | S fuel' =>
      let acc' := String (digitChar (Z.of_nat n)) acc in
      if n / 10 =? 0 then acc' else natToStringAux fuel' (n / 10) acc'
  end.

Definition natToString (n : nat) : string := natToStringAux (S n) n "".

(** Lines 749-753: the closing dialog (its leading check mark left out). *)
Definition closingMessage (totalUpdates : nat) : string :=
  if 0 <? totalUpdates
  then ("Successfully updated " ++ natToString totalUpdates
        ++ " N/A entries across all funds!")%string
  else "No N/A entries found. All data is complete!".

(** Lines 682-701: what one valid report does to [foundNav]. *)
Definition readReport (code : string) (content : string) (foundNav : option num)
  : option num :=
  let lines := split newline content in
  match find (includes (code ++ ";")%string) lines with
  | Some navLine =>
      let parts := split ";" navLine in
      let foundNav :=
        match Daily.scanPositive parts (Daily.scanRange parts) with
        | Num candidate => Some (Num candidate)
        | NaN => foundNav
        end in
      if negb (truthyOpt foundNav) then Some (parseFloat (last parts "")) else foundNav
  | None => foundNav
  end.

(** Lines 727: [sheet.getRange(row, col).setValue(value)] for each update. *)
Definition applyUpdates (updates : list update) (w : world) : world :=
  fold_left
    (fun w u => onSheet (setValues (urow u) (ucol u) [CNum (uvalue u)]) w)
    updates w.

Section Repair.

Variable fetch : date -> response.

(** Lines 665-708: the walk over [dayOffset] for one missing cell. *)
Fixpoint searchNav (rowDate : date) (code : string) (offsets : list Z)
  (foundNav : option num) (w : world) : option num * world :=
  match offsets with
  | [] => (foundNav, w)
  | dayOffset :: rest =>
      let fetchDate := (rowDate - dayOffset)%Z in
      if isWeekendOrHoliday fetchDate then searchNav rowDate code rest foundNav w
      else
        let w := emit (Fetch fetchDate) w in
        match validResponse (fetch fetchDate) with
        | Some content =>
            let foundNav := readReport code content foundNav in
            if truthyOpt foundNav then (foundNav, w)
            else searchNav rowDate code rest foundNav w
        | None => searchNav rowDate code rest foundNav w
        end
  end.

(** Lines 653-721: the rows of the snapshot [data], from row index [i] on,
    for the fund in sheet column [index]. *)
Fixpoint scanColumn (index : nat) (code : string) (data : list row) (i : nat)
  (w : world) : list update * world :=
  match data with
  | [] => ([], w)
  | r :: data' =>
      let cellValue := rowGet r (index - 1) in
      if isNA cellValue then
        let '(foundNav, w) := searchNav (rdate r) code (fromTo 0 5) None w in
        let '(updates, w) := scanColumn index code data' (S i) w in
        match foundNav with
        | Some (Num v) =>
            if truthy (Num v)
            then ({| urow := i + 2; ucol := index; uvalue := v |} :: updates, w)
            else (updates, w)
        | _ => (updates, w)
        end
      else scanColumn index code data' (S i) w
  end.

(** Lines 648-735: one fund after the other, each against the snapshot. *)
Fixpoint repairFunds (cols : list (string * (nat * string))) (data : list row)
  (w : world) (counts : list (string * nat)) (total : nat)
  : world * list (string * nat) * nat :=
  match cols with
  | [] => (w, counts, total)
  | (fundName, (index, code)) :: cols' =>
      let '(updates, w) := scanColumn index code data 0 w in
      if 0 <? List.length updates then
        let w := applyUpdates updates w in
        repairFunds cols' data w (counts ++ [(fundName, List.length updates)])
                    (total + List.length updates)
      else repairFunds cols' data w counts total
  end.

(** Reading the data range of a sheet without data rows is refused by the
    spreadsheet service (line 641), before anything is counted. *)
Definition fillNAData (w : world) : world * completion * option report :=
  match rows (sheet w) with
  | [] =>
      (w, Thrown (ServiceError "The number of rows in the range must be at least 1."), None)
  | _ :: _ =>
      let headers := header (sheet w) in
      let data := rows (sheet w) in
      let '(w, counts, total) := repairFunds (fundColumns headers) data w [] 0 in
      let w := emit (UiAlert (closingMessage total)) w in
      (w, Returned, Some {| fundUpdates := counts; totalUpdates := total |})
  end.

End Repair.

End Repair.

(* ===================================================================== *)
(** ** The notification (getNAVAndAnalyze, lines 373-405 and 438-533) *)
(* ===================================================================== *)

Module Notify.
Import JS Calendar Sheet World Daily Repair.

Definition nl : string := String newline EmptyString.

(** The last [k] decimal digits of [n], in front of [acc]. *)
Fixpoint lowDigits (k : nat) (n : Z) (acc : string) : string :=
  match k with
  | O => acc
  | S k' => lowDigits k' (n / 10) (String (digitChar n) acc)
  end.

(** [x.toFixed(digits)], the text, for [x] below [10^21]. *)
Definition printFixed (digits : nat) (x : Q) : string :=
  let n := Qfloor (Qabs x * inject_Z (10 ^ Z.of_nat digits) + (1 # 2)) in
  ((if Qlt_bool x 0 then "-" else "")
   ++ natToString (Z.to_nat (n / 10 ^ Z.of_nat digits))
   ++ match digits with
      | O => ""
      | S _ => "." ++ lowDigits digits n ""
      end)%string.

(** The text of an alert (lines 374-376, 379-381, 384-386, 394, 396, 403).
    The score and the dip an alert carries are never negative. *)
Definition alertText (a : alert) : string :=
  match a with
  | ExceptionalBuy score dip =>
      "🎯 EXCEPTIONAL BUYING OPPORTUNITY (Score: " ++ printFixed 1 score ++ ")" ++ nl
      ++ "• " ++ printFixed 1 dip ++ "% below MA - Significant value opportunity" ++ nl
      ++ "• Recommended: Consider larger lump sum alongside SIP"
  | StrongBuy score dip =>
      "🚀 STRONG BUYING OPPORTUNITY (Score: " ++ printFixed 1 score ++ ")" ++ nl
      ++ "• " ++ printFixed 1 dip ++ "% below MA - Good value entry point" ++ nl
      ++ "• Recommended: Consider moderate lump sum with SIP"
  | ModerateBuy score dip =>
      "📊 MODERATE BUYING OPPORTUNITY (Score: " ++ printFixed 1 score ++ ")" ++ nl
      ++ "• " ++ printFixed 1 dip ++ "% below MA - Potential value entry" ++ nl
      ++ "• Recommended: Consider small lump sum with SIP"
  | GoldenCross => "Golden Cross: 30-day MA crossed above 50-day MA 📈"
  | DeathCross => "Death Cross: 30-day MA crossed below 50-day MA 📉"
  | LongTermDowntrend => "Price below 200-day MA - Long-term downtrend ⚠️"
  end%string.

(** Line 408: [alerts.join("\n")], the text the cell [CAlerts alerts] stands
    for. *)
Definition alertMsg (alerts : list alert) : string :=
  String.concat nl (map alertText alerts).

(** Lines 486-494. *)
Inductive severity : Type := Critical | Warning | Other.

Definition severityOf (alertMsg : string) : option severity :=
  if nonEmpty alertMsg then
    Some (if includes "🚨" alertMsg then Critical
          else if includes "⚠️" alertMsg then Warning
          else Other)
  else None.

Record buckets : Type :=
  Buckets { criticalAlerts : list string;
            warningAlerts : list string;
            otherAlerts : list string }.

Definition categorizeOne (b : buckets) (entry : string * string) : buckets :=
  let '(fund, alertMsg) := entry in
  let line := (fund ++ ":" ++ nl ++ alertMsg)%string in
  match severityOf alertMsg with
  | Some Critical =>
      {| criticalAlerts := criticalAlerts b ++ [line];
         warningAlerts := warningAlerts b; otherAlerts := otherAlerts b |}
  | Some Warning =>
      {| criticalAlerts := criticalAlerts b;
         warningAlerts := warningAlerts b ++ [line]; otherAlerts := otherAlerts b |}
  | Some Other =>
      {| criticalAlerts := criticalAlerts b;
         warningAlerts := warningAlerts b; otherAlerts := otherAlerts b ++ [line] |}
  | None => b
  end.

(** Lines 444-495, the three lists after the loop over the funds. *)
Definition categorize (funds : list string) (alertMsgs : list string) : buckets :=
  fold_left categorizeOne (combine funds alertMsgs)
            {| criticalAlerts := []; warningAlerts := []; otherAlerts := [] |}.

(** Line 497: whether mail is sent. *)
Definition sendsMail (b : buckets) : bool :=
  (0 <? List.length (criticalAlerts b)) || (0 <? List.length (warningAlerts b))
  || (0 <? List.length (otherAlerts b)).

(** Lines 502-504: the line under the title of the mail. *)
Definition headline (b : buckets) : string :=
  if (0 <? List.length (criticalAlerts b)) || (0 <? List.length (warningAlerts b))
  then ("Alerts: " ++ natToString (List.length (criticalAlerts b)) ++ " Critical 🚨, "
        ++ natToString (List.length (warningAlerts b)) ++ " Warning ⚠️")%string
  else "No significant alerts".

(** Line 527: what follows the date in the subject. *)
Definition subjectMark (b : buckets) : string :=
  if 0 <? List.length (criticalAlerts b) then " 🚨"
  else if 0 <? List.length (warningAlerts b) then " ⚠️"
  else "".

(** Lines 452-453.  [dataRange] is the range read at line 285, after the
    new row was appended. *)
Definition prevNav (dataRange : list row) (i : nat) : num :=
  match dataRange with
  | [] => NaN
  | _ :: _ =>
      match nth_error dataRange (List.length dataRange - 1) with
      | Some r => parseFloatCell (rowGet r (navStartIdx + i))
      | None => NaN
      end
  end.

(** Lines 445 and 456-457, before [toFixed].  [navVal] is a number or the
    marker "N/A" (line 180); with a previous value of zero the quotient is
    not a number of the model. *)
Definition navChange (dataRange : list row) (newNavRow : row) (i : nat) : option Q :=
  match prevNav dataRange i, rowGet newNavRow (navStartIdx + i) with
  | Num p, Some (CNum navVal) => Some ((navVal - p) / p * 100)%Q
  | _, _ => None
  end.

(** Lines 457 and 460-461. *)
Definition navChangeStr (navChange : option Q) : string :=
  match navChange with
  | Some change =>
      (" (" ++ printFixed 2 change ++ "% "
       ++ (if Qlt_bool 0 (toFixed 2 change) then "↑" else "↓") ++ " 1d)")%string
  | None => ""
  end.

End Notify.

(* ===================================================================== *)
(** ** Vocabulary of the properties *)
(* ===================================================================== *)

Import JS Calendar Sheet World Daily Repair Notify.

(** The tier of a dip alert; the other alerts have none. *)
Inductive tier : Type := Exceptional | Strong | Moderate.

Definition tierOf (a : alert) : list tier :=
  match a with
  | ExceptionalBuy _ _ => [Exceptional]
  | StrongBuy _ _ => [Strong]
  | ModerateBuy _ _ => [Moderate]
  | _ => []
  end.

Definition dipTiers (alerts : list alert) : list tier := flat_map tierOf alerts.

(** Averages with only the 30-day one available. *)
Definition only30 (ma30 : Q) : nat -> num :=
  fun period => if period =? 30 then Num ma30 else NaN.

(** All three averages available. *)
Definition allMAs (ma30 ma50 ma200 : Q) : nat -> num :=
  fun period =>
    if period =? 30 then Num ma30
    else if period =? 50 then Num ma50
    else if period =? 200 then Num ma200
    else NaN.

Definition isCross (a : alert) : bool :=
  match a with
  | GoldenCross | DeathCross => true
  | _ => false
  end.

(** The trailing window of a series: its most recent [period] rows in
    chronological order, fewer when the history is shorter. *)
Definition trailingWindow (period : nat) (series : list row) : list row :=
  rev (firstn period (rev series)).

(** The valid numeric entries of one column of a window. *)
Definition validValues (navColIdx : nat) (window : list row) : list Q :=
  flat_map
    (fun r =>
       match parseFloatCell (rowGet r navColIdx) with
       | Num q => [q]
       | NaN => []
       end)
    window.

(** The arithmetic mean of [period] values. *)
Definition meanOf (values : list Q) (period : nat) : Q :=
  (fold_left Qplus values 0 / inject_Z (Z.of_nat period))%Q.

(** The sum of a list of numbers. *)
Fixpoint sumQ (l : list Q) : Q :=
  match l with
  | [] => 0
  | q :: l' => q + sumQ l'
  end.

(** A number of at most four decimals. *)
Definition fourDecimals (x : Q) : Prop := exists n : Z, (x == inject_Z n / 10000)%Q.

(** The numbers halfway between two neighbouring numbers of four decimals. *)
Definition fifthDecimalTie (n : Z) : Q := ((inject_Z n + (1 # 2)) / 10000)%Q.

(** How far the mean that doubles give can be from the exact mean of
    readings whose magnitudes average [meanAbs]: the relative error of at
    most 202 roundings and of the reading of each decimal. *)
Definition doubleTolerance (meanAbs : Q) : Q := ((meanAbs + 1) * pow2 (-44))%Q.

(** The relative rounding error of a double, and the least normal double. *)
Definition u64 : Q := pow2 (-53).
Definition tiny : Q := pow2 (-1022).

(** [(1 + u64)^k] *)
Fixpoint growth (k : nat) : Q :=
  match k with
  | O => 1
  | S k' => growth k' * (1 + u64)
  end.

(** The sum of the loop of line 317 over the readings as written, from the
    accumulator [s]: each reading is the double nearest to it, each sum is
    rounded. *)
Definition doubleSum (values : list Q) (s : Q) : Q :=
  fold_left (fun acc q => round64 (acc + round64 q)) values s.

(** Twenty-nine rows at 10 and one at 10.0015: the exact mean is the tie
    10.00005, the mean of the doubles is below it. *)
Definition tieSeries : list row :=
  repeat {| rdate := 0%Z; rcells := [CNum 10] |} 29
  ++ [{| rdate := 0%Z; rcells := [CNum 10.0015] |}].

(** A row in which no tracked fund is marked ["N/A"]. *)
Definition complete (r : row) : Prop := hasNAValues r = false.

(** The resolved date is already in the date column. *)
Definition duplicateDate (d : date) (w : world) : bool :=
  arrayIncludes (map (fun r => formatDate (rdate r)) (rows (sheet w))) (formatDate d).

(** The cell of data row [i] (from 0) in column [k] (from 0, the date). *)
Definition cellAt (s : Sheet.sheet) (i k : nat) : option cell :=
  match nth_error (rows s) i with
  | Some r => rowGet r k
  | None => None
  end.

Definition numericAt (s : Sheet.sheet) (i k : nat) : Prop :=
  exists v, cellAt s i k = Some (CNum v).

(** [fills s s']: [s'] is [s] with some cells that held "N/A" now holding a
    number, and nothing else changed. *)
Definition fills (s s' : Sheet.sheet) : Prop :=
  header s' = header s
  /\ List.length (rows s') = List.length (rows s)
  /\ forall i k,
      cellAt s' i k = cellAt s i k
      \/ (isNA (cellAt s i k) = true /\ numericAt s' i k).

Definition reportOf (lines : list string) : string :=
  String.concat (String newline EmptyString) lines.

(** A report with a line for each of the five funds. *)
Definition completeReport : string :=
  reportOf
    [ "Scheme Code;Scheme Name;ISIN Div Payout/ISIN Growth;ISIN Div Reinvestment;Net Asset Value;Repurchase Price;Sale Price;Date";
      "120377;ICICI Prudential Balanced Advantage Fund;INF109K01Z48;;65.43;;;10-Jun-2025";
      "118989;HDFC Mid-Cap Opportunities Fund;INF179K01XQ0;;180.5;;;10-Jun-2025";
      "118778;Nippon India Small Cap Fund;INF204K01K15;;170.25;;;10-Jun-2025";
      "120716;UTI Nifty 50 Index Fund;INF789F01XA0;;160;;;10-Jun-2025";
      "122639;Parag Parikh Flexi Cap Fund;INF879O01027;;80.1234;;;10-Jun-2025" ].

(** A report that lacks three of the funds. *)
Definition partialReport : string :=
  reportOf
    [ "120377;ICICI Prudential Balanced Advantage Fund;INF109K01Z48;;65.43;;;11-Jun-2025";
      "118989;HDFC Mid-Cap Opportunities Fund;INF179K01XQ0;;180.5;;;11-Jun-2025" ].

(** Thursday 12 June 2025: the two days before it are trading days. *)
Definition thursday : date := daysFromCivil 2025 6 12.

Definition emptyWorld : world :=
  {| sheet := {| header := []; rows := [] |}; log := [] |}.

(** A provider whose report of the day before [thursday] is partial and
    whose older reports are complete. *)
Definition partialThenComplete (d : date) : response :=
  if (d =? thursday - 1)%Z then Response 200 partialReport else Response 200 completeReport.

Definition alwaysComplete (d : date) : response := Response 200 completeReport.

(** A series that already holds the day before [thursday]. *)
Definition worldWithWednesday : world :=
  {| sheet := {| header := headerRow;
                 rows := [buildRow (thursday - 1)%Z (split newline completeReport)] |};
     log := [] |}.

Definition series30 : list row :=
  repeat {| rdate := 0%Z; rcells := [CNum 10] |} 30.

(** A series with three cells marked "N/A". *)
Definition gapWorld : world :=
  {| sheet :=
       {| header := headerRow;
          rows := [ {| rdate := (thursday - 2)%Z;
                       rcells := [CNum 65; CStr "N/A"; CNum 170; CNum 160; CNum 80] |};
                    {| rdate := (thursday - 1)%Z;
                       rcells := [CStr "N/A"; CNum 180; CNum 170; CNum 160; CStr "N/A"] |} ] |};
     log := [] |}.

(** A series of 199 rows in which every fund stands at 100. *)
Definition flatRow (d : date) : row :=
  {| rdate := d;
     rcells := [CNum 100; CNum 100; CNum 100; CNum 100; CNum 100] ++ placeholders |}.

Definition longSeries : list row :=
  map (fun k => flatRow (thursday - 300 + Z.of_nat k)%Z) (seq 0 199).

Definition flatWorld : world :=
  {| sheet := {| header := headerRow; rows := longSeries |}; log := [] |}.

(** A report in which every fund stands at 70. *)
Definition fallReport : string :=
  reportOf
    [ "120377;ICICI Prudential Balanced Advantage Fund;INF109K01Z48;;70;;;11-Jun-2025";
      "118989;HDFC Mid-Cap Opportunities Fund;INF179K01XQ0;;70;;;11-Jun-2025";
      "118778;Nippon India Small Cap Fund;INF204K01K15;;70;;;11-Jun-2025";
      "120716;UTI Nifty 50 Index Fund;INF789F01XA0;;70;;;11-Jun-2025";
      "122639;Parag Parikh Flexi Cap Fund;INF879O01027;;70;;;11-Jun-2025" ].

Definition fallProvider (d : date) : response := Response 200 fallReport.

(** The score a stored analysis cell prints in its dip alert. *)
Definition printedScore (c : option cell) : option Q :=
  match c with
  | Some (CAlerts (ExceptionalBuy score _ :: _))
  | Some (CAlerts (StrongBuy score _ :: _))
  | Some (CAlerts (ModerateBuy score _ :: _)) => Some score
  | _ => None
  end.

(** The kinds of alerts, in the order the script raises them. *)
Definition isDip (a : alert) : bool :=
  match tierOf a with [] => false | _ :: _ => true end.

Definition isLongTerm (a : alert) : bool :=
  match a with LongTermDowntrend => true | _ => false end.

(** The background a list of fired alerts calls for: the two strongest dip
    tiers have their own, a moderate dip, a death cross or a long-term
    downtrend give the medium one, and a golden cross gives none. *)
Definition highlightOf (alerts : list alert) : string :=
  match dipTiers alerts with
  | Exceptional :: _ => "#ff9999"
  | Strong :: _ => "#ffcccc"
  | Moderate :: _ => "#ffeecc"
  | [] =>
      if existsb (fun a => match a with
                           | DeathCross | LongTermDowntrend => true
                           | _ => false
                           end) alerts
      then "#ffeecc" else "#ffffff"
  end.

(** Every available average is a non-zero number. *)
Definition nonZeroAverages (cur : nat -> num) : Prop :=
  forall period m, cur period = Num m -> ~ (m == 0)%Q.

(** The value the last update aimed at data row [i], column [k] carries. *)
Fixpoint lastWrite (updates : list update) (i k : nat) : option Q :=
  match updates with
  | [] => None
  | u :: updates' =>
      match lastWrite updates' i k with
      | Some v => Some v
      | None => if (urow u =? i + 2) && (ucol u =? k + 1) then Some (uvalue u) else None
      end
  end.

(** The five NAV cells a report gives. *)
Definition navCells (raw : list string) : list cell :=
  map (fun f => navCell (firstNav raw (snd f))) fundsToTrack.

(** What the analysis of a run computes for the five funds, over the series
    with the new row at its end. *)
Definition analysisResults (series : list row) (d : date) (raw : list string)
  : list (list cell * (list alert * string)) :=
  map (analyzeFund (series ++ [buildRow d raw]) (buildRow d raw))
      (seq 0 (List.length fundNames)).

(** The row a completed run leaves at the end of the series: the date, the
    five values, the fifteen averages, the five analyses. *)
Definition persistedRow (series : list row) (d : date) (raw : list string) : row :=
  {| rdate := d;
     rcells := navCells raw
               ++ flat_map fst (analysisResults series d raw)
               ++ map (fun res => alertCell (fst (snd res))) (analysisResults series d raw) |}.


(** The character [c] occurs in the text [s]. *)
Definition hasChar (c : ascii) (s : string) : bool :=
  existsb (Ascii.eqb c) (list_ascii_of_string s).

(** The long-term downtrend is among the alerts of a fund. *)
Definition inDowntrend (alerts : list alert) : bool := existsb isLongTerm alerts.

(** The first value of a list of attempts. *)
Fixpoint firstSome {A} (l : list (option A)) : option A :=
  match l with
  | [] => None
  | Some a :: _ => Some a
  | None :: l' => firstSome l'
  end.

(** The columns of the five funds under the header the daily run writes. *)
Definition navColumns : list (string * (nat * string)) :=
  [ ("ICICI Pru BA", (2, "120377"));
    ("HDFC Mid-Cap", (3, "118989"));
    ("Nippon Small Cap", (4, "118778"));
    ("UTI Nifty 50", (5, "120716"));
    ("PPFAS Flexi Cap", (6, "122639")) ].



Definition isNumber (c : option cell) : bool :=
  match c with Some (CNum _) => true | _ => false end.

(** The cells of the tracked funds marked "N/A" in [s0] that hold a number
    in [s1], counted per fund column. *)
Definition repairedCells (cols : list (string * (nat * string))) (s0 s1 : Sheet.sheet) : nat :=
  list_sum
    (map (fun c =>
            List.length
              (filter (fun j => isNA (cellAt s0 j (fst (snd c) - 1))
                                && isNumber (cellAt s1 j (fst (snd c) - 1)))
                      (seq 0 (List.length (rows s0)))))
         cols).

(** No two funds share a column. *)
Definition distinctColumns (cols : list (string * (nat * string))) : Prop :=
  NoDup (map (fun c => fst (snd c)) cols).

Section Observables.

Variable fetch : date -> response.
Variable today : date.

(** The dates the walk of lines 117-141 queries, in order. *)
Fixpoint queried (offsets : list Z) : list date :=
  match offsets with
  | [] => []
  | i :: rest =>
      let d := (today - i)%Z in
      if isWeekendOrHoliday d then queried rest
      else d :: match validResponse (fetch d) with
                | Some _ => []
                | None => queried rest
                end
  end.

(** A date that gives the walk nothing: not a trading day, or no valid
    response. *)
Definition rejected (d : date) : Prop :=
  isWeekendOrHoliday d = true \/ validResponse (fetch d) = None.

(** The date and the report lines the walk over the offsets 1 to 5 accepts. *)
Definition firstAccepted : option (date * list string) :=
  fst (firstPass fetch today (fromTo 1 5)
         {| sheet := {| header := []; rows := [] |}; log := [] |}).

(** The world once the header is written and the walk is over. *)
Definition afterWalk (w : world) : world :=
  {| sheet := setHeader (sheet w);
     log := log w ++ map Fetch (queried (fromTo 1 5)) |}.

(** The world once the row built from the accepted report is appended. *)
Definition afterAppend (newNavRow : row) (w : world) : world :=
  emit (AppendRow newNavRow) (onSheet (appendRow newNavRow) (afterWalk w)).

(** The world once that row is deleted again. *)
Definition afterDelete (newNavRow : row) (w : world) : world :=
  let w2 := afterAppend newNavRow w in
  emit (DeleteRow (getLastRow (sheet w2))) (onSheet (deleteRow (getLastRow (sheet w2))) w2).

(** The value the search of lines 663-710 finds for a row date and a fund,
    if any. *)
Definition hit (rowDate : date) (code : string) : option Q :=
  match fst (searchNav fetch rowDate code (fromTo 0 5) None emptyWorld) with
  | Some (Num v) => if truthy (Num v) then Some v else None
  | _ => None
  end.

(** The updates one fund collects over the snapshot. *)
Fixpoint updatesOf (index : nat) (code : string) (data : list row) (i : nat)
  : list update :=
  match data with
  | [] => []
  | r :: data' =>
      if isNA (rowGet r (index - 1)) then
        match hit (rdate r) code with
        | Some v => {| urow := i + 2; ucol := index; uvalue := v |}
                    :: updatesOf index code data' (S i)
        | None => updatesOf index code data' (S i)
        end
      else updatesOf index code data' (S i)
  end.

(** What the report of one day alone gives for a fund: nothing on a day
    without trading or without a valid response, else what the line of the
    fund reads, if that counts as a value. *)
Definition dayValue (d : date) (code : string) : option Q :=
  if isWeekendOrHoliday d then None
  else match validResponse (fetch d) with
       | Some content =>
           match readReport code content None with
           | Some (Num v) => if truthy (Num v) then Some v else None
           | _ => None
           end
       | None => None
       end.

(** What the search finds for a row of the snapshot, when the cell of the
    fund there is marked "N/A". *)
Definition found (index : nat) (code : string) (data : list row) (j : nat) : option Q :=
  match nth_error data j with
  | Some r => if isNA (rowGet r (index - 1)) then hit (rdate r) code else None
  | None => None
  end.




End Observables.

(* ===================================================================== *)
(** ** The built-ins on the fields of a report *)
(* ===================================================================== *)

Example parseFloat_nav : parseFloat "65.4321" = Num 65.4321.
Proof. reflexivity. Qed.

Example parseFloat_isin : parseFloat "INF109K01Z48" = NaN.
Proof. reflexivity. Qed.

Example parseFloat_empty : parseFloat "" = NaN.
Proof. reflexivity. Qed.

Example parseFloat_date : parseFloat "11-Jun-2025" = Num 11.
Proof. reflexivity. Qed.

Example parseFloat_marker : parseFloat "N/A" = NaN.
Proof. reflexivity. Qed.

Example split_fields :
  split ";" "120377;Fund;INF109K01Z48;;65.43;;;11-Jun-2025"
  = ["120377"; "Fund"; "INF109K01Z48"; ""; "65.43"; ""; ""; "11-Jun-2025"].
Proof. reflexivity. Qed.

Example navOfLine_fifth_field :
  navOfLine "120377;Fund;INF109K01Z48;;65.43;;;11-Jun-2025" = Num 65.43.
Proof. reflexivity. Qed.

Example round64_tenth :
  round64 (1 # 10) = 3602879701896397 # 36028797018963968.
Proof. reflexivity. Qed.

Example round64_tie_to_even :
  round64 9007199254740993 = 9007199254740992%Q
  /\ round64 9007199254740995 = 9007199254740996%Q.
Proof. split; reflexivity. Qed.

Example toFixed_half_away : (toFixed 2 (-5 # 1000) == -1 # 100)%Q.
Proof. reflexivity. Qed.

Example toFixed_four : (toFixed 4 (2980 # 30) == 993333 # 10000)%Q.
Proof. reflexivity. Qed.

Example formatDate_thursday : formatDate thursday = "2025-06-12".
Proof. reflexivity. Qed.

Example independence_day_is_a_friday :
  getDay (daysFromCivil 2025 8 15) = 5%Z
  /\ isWeekendOrHoliday (daysFromCivil 2025 8 15) = true.
Proof. split; reflexivity. Qed.

Example weekend_before_thursday :
  map (fun i => isWeekendOrHoliday (thursday - i)%Z) (fromTo 1 5)
  = [false; false; false; true; true].
Proof. reflexivity. Qed.

(* ===================================================================== *)
(** ** Properties of the signal engine *)
(* ===================================================================== *)

Lemma Qlt_bool_iff (a b : Q) : Qlt_bool a b = true <-> (a < b)%Q.
Proof.
  unfold Qlt_bool. rewrite negb_true_iff. split.
  - intros H. apply Qnot_le_lt. intros Hle.
    apply Qle_bool_iff in Hle. congruence.
  - intros H. destruct (Qle_bool b a) eqn:E; [|reflexivity].
    apply Qle_bool_iff in E. exfalso. exact (Qlt_not_le _ _ H E).
Qed.

Lemma Qlt_bool_false_iff (a b : Q) : Qlt_bool a b = false <-> (b <= a)%Q.
Proof.
  unfold Qlt_bool. rewrite negb_false_iff. apply Qle_bool_iff.
Qed.

Lemma dipAlert_cases (score m : Q) (bg : string) :
  ((STRONG_BUY < m)%Q /\ dipTiers (fst (dipAlert score m bg)) = [Exceptional])
  \/ ((m <= STRONG_BUY)%Q /\ (GOOD_BUY < m)%Q
      /\ dipTiers (fst (dipAlert score m bg)) = [Strong])
  \/ ((m <= GOOD_BUY)%Q /\ (MODERATE_BUY < m)%Q
      /\ dipTiers (fst (dipAlert score m bg)) = [Moderate])
  \/ ((m <= MODERATE_BUY)%Q /\ dipTiers (fst (dipAlert score m bg)) = []).
Proof.
  unfold dipAlert.
  destruct (Qlt_bool STRONG_BUY m) eqn:E7.
  { left. apply Qlt_bool_iff in E7. auto. }
  apply Qlt_bool_false_iff in E7.
  destruct (Qlt_bool GOOD_BUY m) eqn:E5.
  { right; left. apply Qlt_bool_iff in E5. auto. }
  apply Qlt_bool_false_iff in E5.
  destruct (Qlt_bool MODERATE_BUY m) eqn:E3.
  { right; right; left. apply Qlt_bool_iff in E3. auto. }
  apply Qlt_bool_false_iff in E3. right; right; right. auto.
Qed.

Lemma dipTiers_app (a b : list alert) : dipTiers (a ++ b) = dipTiers a ++ dipTiers b.
Proof. unfold dipTiers. apply flat_map_app. Qed.

Lemma crossAlert_cases (cur prev : nat -> num) (bg : string) :
  fst (crossAlert cur prev bg) = []
  \/ fst (crossAlert cur prev bg) = [GoldenCross]
  \/ fst (crossAlert cur prev bg) = [DeathCross].
Proof.
  unfold crossAlert.
  destruct (cur 30), (cur 50), (prev 30), (prev 50); auto.
  destruct (_ && _); auto. destruct (_ && _); auto.
Qed.

Lemma longTermAlert_cases (nav : Q) (cur : nat -> num) (bg : string) :
  fst (longTermAlert nav cur bg) = [] \/ fst (longTermAlert nav cur bg) = [LongTermDowntrend].
Proof.
  unfold longTermAlert. destruct (cur 200); auto. destruct (Qlt_bool _ _); auto.
Qed.

(** The alert list of a fund with a numeric latest value: dip tier, then
    crossover, then long-term trend. *)
Lemma signals_alerts (nav : Q) (cur prev : nat -> num) :
  exists bg1 bg2,
    fst (signals (Num nav) cur prev)
    = fst (dipAlert (opportunityScore nav cur) (maxDipPercentage nav cur) "#ffffff")
      ++ fst (crossAlert cur prev bg1) ++ fst (longTermAlert nav cur bg2).
Proof.
  unfold signals.
  destruct (dipAlert _ _ _) as [a1 bg1] eqn:E1.
  destruct (crossAlert cur prev bg1) as [a2 bg2] eqn:E2.
  destruct (longTermAlert nav cur bg2) as [a3 bg3] eqn:E3.
  exists bg1, bg2. rewrite E2, E3. reflexivity.
Qed.

Lemma signals_dipTiers (nav : Q) (cur prev : nat -> num) :
  dipTiers (fst (signals (Num nav) cur prev))
  = dipTiers (fst (dipAlert (opportunityScore nav cur) (maxDipPercentage nav cur) "#ffffff")).
Proof.
  destruct (signals_alerts nav cur prev) as (bg1 & bg2 & ->).
  rewrite !dipTiers_app.
  destruct (crossAlert_cases cur prev bg1) as [-> | [-> | ->]];
    destruct (longTermAlert_cases nav cur bg2) as [-> | ->];
    cbn; rewrite ?app_nil_r; reflexivity.
Qed.

(** C6.  The dip tier of a fund is decided by [maxDipPercentage] alone, by
    strict comparisons tried from the strongest tier down, and at most one
    tier fires: above 7 it is the exceptional tier, else above 5 the strong
    one, else above 3 the moderate one, else none.  A latest value of 95
    against a 30-day average of 100 is a dip of exactly 5: it is not strong,
    it is moderate. *)
Theorem dip_tier_strict_thresholds (nav : Q) (cur prev : nat -> num) :
  let m := maxDipPercentage nav cur in
  let tiers := dipTiers (fst (signals (Num nav) cur prev)) in
  ((7 < m)%Q -> tiers = [Exceptional])
  /\ ((m <= 7)%Q -> (5 < m)%Q -> tiers = [Strong])
  /\ ((m <= 5)%Q -> (3 < m)%Q -> tiers = [Moderate])
  /\ ((m <= 3)%Q -> tiers = [])
  /\ (List.length tiers <= 1)
  /\ (maxDipPercentage 95 (only30 100) == 5)%Q
  /\ dipTiers (fst (signals (Num 95) (only30 100) prev)) = [Moderate].
Proof.
  intros m tiers. subst tiers. rewrite signals_dipTiers. fold m.
  pose proof (dipAlert_cases (opportunityScore nav cur) m "#ffffff") as H.
  unfold STRONG_BUY, GOOD_BUY, MODERATE_BUY in H.
  repeat match goal with |- _ /\ _ => split end.
  - intros H7. destruct H as [[_ ->] | [(Hc & _) | [(Hc & _) | [Hc _]]]]; [reflexivity | lra ..].
  - intros H7 H5.
    destruct H as [[Hc _] | [(_ & _ & ->) | [(Hc & _) | [Hc _]]]]; [lra | reflexivity | lra ..].
  - intros H5 H3.
    destruct H as [[Hc _] | [(_ & Hc & _) | [(_ & _ & ->) | [Hc _]]]];
      [lra | lra | reflexivity | lra].
  - intros H3.
    destruct H as [[Hc _] | [(_ & Hc & _) | [(_ & Hc & _) | [_ ->]]]];
      [lra | lra | lra | reflexivity].
  - destruct H as [[_ ->] | [(_ & _ & ->) | [(_ & _ & ->) | [_ ->]]]]; cbn; lia.
  - vm_compute. reflexivity.
  - vm_compute. reflexivity.
Qed.

Lemma dipAlert_not_cross (score m : Q) (bg : string) (a : alert) :
  In a (fst (dipAlert score m bg)) -> isCross a = false.
Proof.
  unfold dipAlert.
  destruct (Qlt_bool STRONG_BUY m); [|destruct (Qlt_bool GOOD_BUY m);
    [|destruct (Qlt_bool MODERATE_BUY m)]]; cbn; intros H;
    repeat (destruct H as [<- | H]; [reflexivity|]); contradiction.
Qed.

Lemma longTermAlert_not_cross (nav : Q) (cur : nat -> num) (bg : string) (a : alert) :
  In a (fst (longTermAlert nav cur bg)) -> isCross a = false.
Proof.
  destruct (longTermAlert_cases nav cur bg) as [-> | ->]; cbn; [tauto|].
  intros [<- | []]; reflexivity.
Qed.

(** A crossover alert of a fund is one the crossover check raised. *)
Lemma signals_cross (nav : Q) (cur prev : nat -> num) (a : alert) :
  isCross a = true ->
  (In a (fst (signals (Num nav) cur prev))
   <-> exists bg, In a (fst (crossAlert cur prev bg))).
Proof.
  intros Ha. destruct (signals_alerts nav cur prev) as (bg1 & bg2 & ->).
  rewrite !in_app_iff. split.
  - intros [H | [H | H]].
    + apply dipAlert_not_cross in H. congruence.
    + eauto.
    + apply longTermAlert_not_cross in H. congruence.
  - intros [bg H]. right; left.
    unfold crossAlert in *.
    destruct (cur 30), (cur 50), (prev 30), (prev 50); try exact H.
    destruct (_ && _); [exact H|]. destruct (_ && _); exact H.
Qed.

Lemma Qle_bool_false_lt (a b : Q) : Qle_bool a b = false -> (b < a)%Q.
Proof.
  intros H. apply Qnot_le_lt. rewrite <- Qle_bool_iff. congruence.
Qed.

Ltac qprop :=
  repeat match goal with
    | H : Qlt_bool _ _ = true |- _ => apply Qlt_bool_iff in H
    | H : Qlt_bool _ _ = false |- _ => apply Qlt_bool_false_iff in H
    | H : Qle_bool _ _ = true |- _ => apply Qle_bool_iff in H
    | H : Qle_bool _ _ = false |- _ => apply Qle_bool_false_lt in H
    end.

Ltac cross_case :=
  cbn [In fst andb]; split;
  [ intros H;
    first [ contradiction
          | destruct H as [H | []]; discriminate H
          | clear H; split; lra ]
  | intros [H H'];
    first [ left; reflexivity | exfalso; lra ] ].

Lemma crossAlert_golden (cur prev : nat -> num) (bg : string) (c30 c50 p30 p50 : Q) :
  cur 30 = Num c30 -> cur 50 = Num c50 -> prev 30 = Num p30 -> prev 50 = Num p50 ->
  (In GoldenCross (fst (crossAlert cur prev bg)) <-> (c50 < c30)%Q /\ (p30 <= p50)%Q).
Proof.
  intros H1 H2 H3 H4. unfold crossAlert. rewrite H1, H2, H3, H4. clear H1 H2 H3 H4.
  destruct (Qlt_bool c50 c30) eqn:E1, (Qle_bool p30 p50) eqn:E2,
           (Qlt_bool c30 c50) eqn:E3, (Qle_bool p50 p30) eqn:E4;
    qprop; cross_case.
Qed.

Lemma crossAlert_death (cur prev : nat -> num) (bg : string) (c30 c50 p30 p50 : Q) :
  cur 30 = Num c30 -> cur 50 = Num c50 -> prev 30 = Num p30 -> prev 50 = Num p50 ->
  (In DeathCross (fst (crossAlert cur prev bg)) <-> (c30 < c50)%Q /\ (p50 <= p30)%Q).
Proof.
  intros H1 H2 H3 H4. unfold crossAlert. rewrite H1, H2, H3, H4. clear H1 H2 H3 H4.
  destruct (Qlt_bool c50 c30) eqn:E1, (Qle_bool p30 p50) eqn:E2,
           (Qlt_bool c30 c50) eqn:E3, (Qle_bool p50 p30) eqn:E4;
    qprop; cross_case.
Qed.

Lemma crossAlert_unavailable (cur prev : nat -> num) (bg : string) :
  isNaN (cur 30) || isNaN (cur 50) || isNaN (prev 30) || isNaN (prev 50) = true ->
  fst (crossAlert cur prev bg) = [].
Proof.
  unfold crossAlert.
  destruct (cur 30), (cur 50), (prev 30), (prev 50); cbn; intros H;
    try reflexivity; discriminate.
Qed.

(** C5.  For a fund with a numeric latest value.  When the current and the
    prior 30- and 50-day averages are all available, the golden-cross alert
    is among the alerts exactly when the current 30-day average is above
    the current 50-day one and the prior 30-day average was at most the
    prior 50-day one; the death-cross alert exactly when the current one is
    below and the prior one was at least.  When one of the four averages is
    unavailable, neither alert is raised. *)
Theorem crossover_alert_iff (nav : Q) (cur prev : nat -> num) :
  (forall c30 c50 p30 p50 : Q,
      cur 30 = Num c30 -> cur 50 = Num c50 ->
      prev 30 = Num p30 -> prev 50 = Num p50 ->
      (In GoldenCross (fst (signals (Num nav) cur prev))
       <-> (c30 > c50)%Q /\ (p30 <= p50)%Q)
      /\ (In DeathCross (fst (signals (Num nav) cur prev))
          <-> (c30 < c50)%Q /\ (p30 >= p50)%Q))
  /\ (isNaN (cur 30) || isNaN (cur 50) || isNaN (prev 30) || isNaN (prev 50) = true ->
      ~ In GoldenCross (fst (signals (Num nav) cur prev))
      /\ ~ In DeathCross (fst (signals (Num nav) cur prev))).
Proof.
  split.
  - intros c30 c50 p30 p50 H1 H2 H3 H4. split.
    + rewrite signals_cross by reflexivity. split.
      * intros [bg H]. eapply crossAlert_golden; eauto.
      * intros H. exists "#ffffff". eapply crossAlert_golden; eauto.
    + rewrite signals_cross by reflexivity. split.
      * intros [bg H]. eapply crossAlert_death; eauto.
      * intros H. exists "#ffffff". eapply crossAlert_death; eauto.
  - intros H. split; rewrite signals_cross by reflexivity; intros [bg Hin];
      rewrite (crossAlert_unavailable _ _ _ H) in Hin; exact Hin.
Qed.

(** A tie of the prior averages followed by a 30-day average above the
    50-day one is a golden cross. *)
Lemma crossover_alert_iff_witness :
  In GoldenCross (fst (signals (Num 95) (allMAs 101 100 90) (allMAs 100 100 90))).
Proof.
  pose proof (proj1 (crossover_alert_iff 95 (allMAs 101 100 90) (allMAs 100 100 90))
                101%Q 100%Q 100%Q 100%Q eq_refl eq_refl eq_refl eq_refl) as [Hg _].
  apply (proj2 Hg). split; [reflexivity | discriminate].
Defined.

(** *** The opportunity score *)

(** The score does not decrease when the dip grows, the other two factors
    being fixed. *)
Lemma opportunityScoreOf_monotone (d1 d2 trend : Q) (align : Z) :
  (d1 <= d2)%Q ->
  (opportunityScoreOf d1 trend align <= opportunityScoreOf d2 trend align)%Q.
Proof.
  intros H. unfold opportunityScoreOf, PRICE_DIP, TREND_STRENGTH, MA_ALIGNMENT.
  set (a := inject_Z align). unfold Qdiv.
  change (/ 10)%Q with (1 # 10)%Q. change (/ 3)%Q with (1 # 3)%Q. lra.
Qed.

(** With a dip of at most 10 the score stays within 0 and 100. *)
Lemma opportunityScoreOf_bounded (d trend : Q) (align : Z) :
  (0 <= d <= 10)%Q -> (0 <= trend <= 1)%Q -> (0 <= align <= 3)%Z ->
  (0 <= opportunityScoreOf d trend align <= 100)%Q.
Proof.
  intros Hd Ht [Ha0 Ha3].
  rewrite Zle_Qle in Ha0, Ha3.
  unfold opportunityScoreOf, PRICE_DIP, TREND_STRENGTH, MA_ALIGNMENT.
  change (inject_Z 0) with 0%Q in Ha0. change (inject_Z 3) with 3%Q in Ha3.
  set (a := inject_Z align) in *. unfold Qdiv.
  change (/ 10)%Q with (1 # 10)%Q. change (/ 3)%Q with (1 # 3)%Q.
  split; lra.
Qed.

(** C2.  A latest value of 80 under averages of 90, 95 and 100 is a dip of
    20 per cent with a trend strength of 1: the dip term is not capped and
    the score is 110.  A run that appends a value of 70 to a series of 199
    rows at 100 stores an analysis whose printed score is above 100. *)
Theorem opportunity_score_exceeds_100 :
  (maxDipPercentage 80 (allMAs 90 95 100) == 20)%Q
  /\ (trendScore (allMAs 90 95 100) == 1)%Q
  /\ maAlignmentScore 80 (allMAs 90 95 100) = 0%Z
  /\ (opportunityScore 80 (allMAs 90 95 100) == 110)%Q
  /\ Qle_bool (opportunityScore 80 (allMAs 90 95 100)) 100 = false
  /\ snd (getNAVAndAnalyze fallProvider thursday flatWorld) = Returned
  /\ option_map (Qlt_bool 100)
       (printedScore
          (cellAt (sheet (fst (getNAVAndAnalyze fallProvider thursday flatWorld)))
                  199 (alertStartIdx + 0)))
     = Some true.
Proof.
  repeat match goal with |- _ /\ _ => split end; vm_compute; reflexivity.
Qed.

(* ===================================================================== *)
(** ** Doubles: how far rounding goes *)
(* ===================================================================== *)

Lemma pow2_pos (k : Z) : (0 < pow2 k)%Q.
Proof. apply Qpower_0_lt. reflexivity. Qed.

Lemma pow2_plus (a b : Z) : (pow2 (a + b) == pow2 a * pow2 b)%Q.
Proof. apply Qpower_plus. discriminate. Qed.

Lemma pow2_Z (n : Z) : (0 <= n)%Z -> (pow2 n == inject_Z (2 ^ n))%Q.
Proof.
  intros H. unfold pow2. rewrite Zpower_Qpower by exact H. reflexivity.
Qed.

(** [2 ^ ilog2 x <= x] for a positive [x]. *)
Lemma ilog2_le (x : Q) : (0 < x)%Q -> (pow2 (ilog2 x) <= x)%Q.
Proof.
  intros Hx. unfold ilog2. cbv zeta.
  destruct (Qle_bool _ x) eqn:E; [apply Qle_bool_iff; exact E|].
  destruct x as [p q]. cbn [Qnum Qden] in *.
  assert (Hp : (0 < p)%Z) by (unfold Qlt in Hx; cbn in Hx; lia).
  pose proof (Z.log2_spec p Hp) as [Hlp _].
  pose proof (Z.log2_spec (Zpos q) (Pos2Z.is_pos q)) as [_ Hlq].
  pose proof (Z.log2_nonneg p) as Hnp.
  pose proof (Z.log2_nonneg (Zpos q)) as Hnq.
  set (lp := Z.log2 p) in *. set (lq := Z.log2 (Zpos q)) in *.
  replace (lp - lq - 1)%Z with (lp + - (lq + 1))%Z by lia.
  rewrite pow2_plus. unfold pow2 at 2. rewrite Qpower_opp.
  fold (pow2 (lq + 1)). rewrite !pow2_Z by lia.
  replace (Z.succ lq) with (lq + 1)%Z in Hlq by lia.
  assert (Hb : (0 < 2 ^ (lq + 1))%Z) by (apply Z.pow_pos_nonneg; lia).
  assert (Ha : (0 <= 2 ^ lp)%Z) by (apply Z.pow_nonneg; lia).
  set (a := (2 ^ lp)%Z) in *. set (b := (2 ^ (lq + 1))%Z) in *.
  destruct b as [|b|b]; try lia.
  change (inject_Z a * / inject_Z (Z.pos b))%Q with (inject_Z a / inject_Z (Z.pos b))%Q.
  rewrite <- Qmake_Qdiv. unfold Qle. cbn [Qnum Qden]. nia.
Qed.

Lemma roundHalfEven_error (y : Q) :
  (Qabs (inject_Z (roundHalfEven y) - y) <= 1 # 2)%Q.
Proof.
  unfold roundHalfEven. cbv zeta.
  pose proof (Qfloor_le y) as Hlo. pose proof (Qlt_floor y) as Hhi.
  rewrite inject_Z_plus in Hhi. change (inject_Z 1) with 1%Q in Hhi.
  set (f := inject_Z (Qfloor y)) in *.
  apply Qabs_Qle_condition.
  destruct (Qlt_bool (y - f) (1 # 2)) eqn:E1.
  - apply Qlt_bool_iff in E1. fold f. split; lra.
  - apply Qlt_bool_false_iff in E1.
    destruct (Qlt_bool (1 # 2) (y - f)) eqn:E2.
    + rewrite inject_Z_plus. change (inject_Z 1) with 1%Q. fold f. split; lra.
    + apply Qlt_bool_false_iff in E2.
      destruct (Z.even (Qfloor y)).
      * fold f. split; lra.
      * rewrite inject_Z_plus. change (inject_Z 1) with 1%Q. fold f. split; lra.
Qed.

(** The rounding error of a double: relative [2^-53], or half the
    spacing of the subnormals. *)
Lemma round64_error (x : Q) :
  (Qabs (round64 x - x) <= (Qabs x + pow2 (-1022)) * pow2 (-53))%Q.
Proof.
  unfold round64.
  pose proof (pow2_pos (-1022)) as Ht. pose proof (pow2_pos (-53)) as Hu.
  destruct (Qeq_bool x 0) eqn:E0.
  - apply Qeq_bool_iff in E0.
    assert (H : (0 - x == 0)%Q) by (rewrite E0; reflexivity).
    rewrite H. cbn [Qabs Z.abs Qnum Qden].
    pose proof (Qabs_nonneg x). apply Qmult_le_0_compat; lra.
  - apply Qeq_bool_neq in E0. cbv zeta.
    set (a := Qabs x).
    assert (Ha : (0 < a)%Q).
    { destruct (Qlt_le_dec 0 a) as [H | H]; [exact H|].
      exfalso. apply E0. unfold a in H. apply Qabs_Qle_condition in H. lra. }
    set (e := Z.max (ilog2 a - 52) (-1074)).
    set (m := inject_Z (roundHalfEven (a / pow2 e))).
    pose proof (pow2_pos e) as He.
    pose proof (roundHalfEven_error (a / pow2 e)) as Hm. fold m in Hm.
    assert (Hr : (Qabs (m * pow2 e - a) <= pow2 e * (1 # 2))%Q).
    { assert (Heq : (m * pow2 e - a == (m - a / pow2 e) * pow2 e)%Q)
        by (field; lra).
      rewrite Heq, Qabs_Qmult, (Qabs_pos (pow2 e)) by lra.
      rewrite (Qmult_comm (pow2 e)). apply Qmult_le_compat_r; lra. }
    assert (Hhalf : (pow2 e * (1 # 2) <= (a + pow2 (-1022)) * pow2 (-53))%Q).
    { unfold e. destruct (Z.max_spec (ilog2 a - 52) (-1074)) as [[_ ->] | [_ ->]].
      - change (pow2 (-1074) * (1 # 2))%Q with (pow2 (-1074) * pow2 (-1))%Q.
        rewrite <- pow2_plus. change (-1074 + -1)%Z with (-1022 + -53)%Z.
        rewrite pow2_plus.
        apply Qmult_le_compat_r; lra.
      - change (1 # 2)%Q with (pow2 (-1)).
        rewrite <- pow2_plus.
        replace (ilog2 a - 52 + -1)%Z with (ilog2 a + -53)%Z by lia.
        rewrite pow2_plus. apply Qmult_le_compat_r; [|lra].
        pose proof (ilog2_le a Ha). lra. }
    assert (Hsign : (Qabs ((if Qlt_bool x 0 then - Qred (m * pow2 e) else Qred (m * pow2 e)) - x)
                     == Qabs (m * pow2 e - a))%Q).
    { unfold a.
      destruct (Qlt_bool x 0) eqn:Es; rewrite Qred_correct.
      - apply Qlt_bool_iff in Es. rewrite (Qabs_neg x) by lra.
        assert (Heq : (- (m * pow2 e) - x == - (m * pow2 e - - x))%Q) by ring.
        rewrite Heq, Qabs_opp. reflexivity.
      - apply Qlt_bool_false_iff in Es. rewrite (Qabs_pos x) by lra. reflexivity. }
    rewrite Hsign. lra.
Qed.

Lemma toFixed_decimals (x : Q) :
  (Qabs x < inject_Z (10 ^ 21))%Q ->
  fourDecimals (toFixed 4 x) /\ (Qabs (toFixed 4 x - x) <= 1 # 20000)%Q.
Proof.
  intros Hx. unfold toFixed.
  replace (Qle_bool (inject_Z (10 ^ 21)) (Qabs x)) with false
    by (symmetry; apply Qlt_bool_iff in Hx; unfold Qlt_bool in Hx;
        apply negb_true_iff in Hx; exact Hx).
  cbv zeta. change (inject_Z (10 ^ 4)) with 10000%Q.
  set (n := Qfloor (Qabs x * 10000 + (1 # 2))).
  pose proof (Qfloor_le (Qabs x * 10000 + (1 # 2))) as Hlo.
  pose proof (Qlt_floor (Qabs x * 10000 + (1 # 2))) as Hhi.
  rewrite inject_Z_plus in Hhi. change (inject_Z 1) with 1%Q in Hhi.
  fold n in Hlo, Hhi.
  assert (Hr : (inject_Z n / 10000 == inject_Z n * (1 # 10000))%Q) by (field).
  destruct (Qlt_bool x 0) eqn:Es.
  - apply Qlt_bool_iff in Es. rewrite (Qabs_neg x) in Hlo, Hhi by lra. split.
    + exists (- n)%Z. rewrite inject_Z_opp. field.
    + apply Qabs_Qle_condition. rewrite Hr. split; lra.
  - apply Qlt_bool_false_iff in Es. rewrite (Qabs_pos x) in Hlo, Hhi by lra. split.
    + exists n. reflexivity.
    + apply Qabs_Qle_condition. rewrite Hr. split; lra.
Qed.

(** One more reading added to a rounded sum. *)
Lemma step_bound (u t G A a s X d q s' : Q) :
  (0 < u)%Q -> (0 < t)%Q -> (1 + u <= G)%Q ->
  (Qabs q <= a)%Q ->
  (Qabs X <= A)%Q ->
  (Qabs (s - X) <= A * (G - 1))%Q ->
  (Qabs (d - q) <= (Qabs q + t) * u)%Q ->
  (Qabs (s' - (s + d)) <= (Qabs (s + d) + t) * u)%Q ->
  (Qabs (X + q) <= A + a + 2 * t)%Q
  /\ (Qabs (s' - (X + q)) <= (A + a + 2 * t) * (G * (1 + u) - 1))%Q.
Proof.
  intros Hu Ht HG Ha HX Hs Hd Hs'.
  assert (Ha0 : (0 <= a)%Q) by (pose proof (Qabs_nonneg q); lra).
  assert (HA0 : (0 <= A)%Q) by (pose proof (Qabs_nonneg X); lra).
  assert (Hqa : ((Qabs q + t) * u <= (a + t) * u)%Q)
    by (apply Qmult_le_compat_r; lra).
  apply Qabs_Qle_condition in Ha, HX, Hs, Hd.
  assert (HM : (Qabs (s + d) <= A * G + a + (a + t) * u)%Q).
  { apply Qabs_Qle_condition. split; lra. }
  assert (HMu : ((Qabs (s + d) + t) * u <= (A * G + a + (a + t) * u + t) * u)%Q)
    by (apply Qmult_le_compat_r; lra).
  apply Qabs_Qle_condition in Hs'.
  assert (P1 : (0 <= u * t)%Q) by (apply Qmult_le_0_compat; lra).
  assert (P2 : (0 <= u * (u * t))%Q) by (apply Qmult_le_0_compat; lra).
  assert (P3 : (0 <= (a + 2 * t) * ((G - 1 - u) * (1 + u)))%Q).
  { apply Qmult_le_0_compat; [lra|]. apply Qmult_le_0_compat; lra. }
  split; apply Qabs_Qle_condition; split; lra.
Qed.

Lemma u64_pos : (0 < u64)%Q.
Proof. apply pow2_pos. Qed.

Lemma tiny_pos : (0 < tiny)%Q.
Proof. apply pow2_pos. Qed.

Lemma growth_ge_1 (k : nat) : (1 <= growth k)%Q.
Proof.
  pose proof u64_pos as Hu.
  induction k as [|k IH]; cbn [growth]; [lra|].
  assert (H : (0 <= (growth k - 1) * u64)%Q) by (apply Qmult_le_0_compat; lra).
  lra.
Qed.

Lemma growth_S_ge (k : nat) : (1 + u64 <= growth (S k))%Q.
Proof.
  pose proof u64_pos as Hu. pose proof (growth_ge_1 k) as H1. cbn [growth].
  assert (H : (0 <= (growth k - 1) * (1 + u64))%Q) by (apply Qmult_le_0_compat; lra).
  lra.
Qed.

Lemma inject_nat_S (n : nat) :
  (inject_Z (Z.of_nat (S n)) == inject_Z (Z.of_nat n) + 1)%Q.
Proof. rewrite Nat2Z.inj_succ. unfold Z.succ. rewrite inject_Z_plus. reflexivity. Qed.

Lemma inject_nat_nonneg (n : nat) : (0 <= inject_Z (Z.of_nat n))%Q.
Proof. change 0%Q with (inject_Z 0). rewrite <- Zle_Qle. lia. Qed.

Lemma growth_bound (k : nat) :
  (2 * inject_Z (Z.of_nat k) * u64 <= 1)%Q ->
  (growth k <= 1 + 2 * inject_Z (Z.of_nat k) * u64)%Q.
Proof.
  pose proof u64_pos as Hu.
  induction k as [|k IH]; intros Hk; cbn [growth].
  - change (inject_Z (Z.of_nat 0)) with 0%Q. lra.
  - rewrite inject_nat_S in Hk |- *.
    pose proof (inject_nat_nonneg k) as HK. set (K := inject_Z (Z.of_nat k)) in *.
    assert (HKu : (0 <= K * u64)%Q) by (apply Qmult_le_0_compat; lra).
    assert (IH' : (growth k <= 1 + 2 * K * u64)%Q) by (apply IH; lra).
    assert (H1 : (growth k * (1 + u64) <= (1 + 2 * K * u64) * (1 + u64))%Q)
      by (apply Qmult_le_compat_r; lra).
    assert (H2 : (2 * K * u64 * u64 <= 1 * u64)%Q)
      by (apply Qmult_le_compat_r; lra).
    lra.
Qed.

Lemma fold_Qplus_sumQ (l : list Q) (acc : Q) :
  (fold_left Qplus l acc == acc + sumQ l)%Q.
Proof.
  revert acc. induction l as [|q l IH]; intros acc; cbn [fold_left sumQ]; [ring|].
  rewrite IH. ring.
Qed.

Lemma sumQ_abs (l : list Q) : (Qabs (sumQ l) <= sumQ (map Qabs l))%Q.
Proof.
  induction l as [|q l IH]; cbn [sumQ map]; [apply Qle_refl|].
  pose proof (Qabs_triangle q (sumQ l)). lra.
Qed.

(** The rounded sum of the doubles against the exact sum of the readings. *)
Lemma doubleSum_error (values : list Q) :
  forall (k : nat) (s X A : Q),
    (Qabs X <= A)%Q ->
    (Qabs (s - X) <= A * (growth (S k) - 1))%Q ->
    let n := inject_Z (Z.of_nat (List.length values)) in
    let A' := (A + sumQ (map Qabs values) + 2 * tiny * n)%Q in
    (Qabs (X + sumQ values) <= A')%Q
    /\ (Qabs (doubleSum values s - (X + sumQ values))
        <= A' * (growth (S (k + List.length values)) - 1))%Q.
Proof.
  induction values as [|q values IH]; intros k s X A HX Hs; cbv zeta.
  - cbn [List.length sumQ map doubleSum fold_left]. rewrite Nat.add_0_r.
    change (inject_Z (Z.of_nat 0)) with 0%Q.
    assert (E1 : (X + 0 == X)%Q) by ring.
    assert (E2 : (A + 0 + 2 * tiny * 0 == A)%Q) by ring.
    rewrite E1, E2. split; assumption.
  - cbn [List.length sumQ map]. unfold doubleSum. cbn [fold_left].
    fold (doubleSum values (round64 (s + round64 q))).
    destruct (step_bound u64 tiny (growth (S k)) A (Qabs q) s X
                (round64 q) q (round64 (s + round64 q))
                u64_pos tiny_pos (growth_S_ge k) (Qle_refl _) HX Hs
                (round64_error q) (round64_error (s + round64 q))) as [H1 H2].
    change (growth (S k) * (1 + u64))%Q with (growth (S (S k))) in H2.
    destruct (IH (S k) _ _ _ H1 H2) as [I1 I2]. cbv zeta in I1, I2.
    rewrite inject_nat_S.
    replace (k + S (List.length values)) with (S k + List.length values) by lia.
    set (n := inject_Z (Z.of_nat (List.length values))) in *.
    assert (E1 : (X + (q + sumQ values) == X + q + sumQ values)%Q) by ring.
    assert (E2 : (A + (Qabs q + sumQ (map Qabs values)) + 2 * tiny * (n + 1)
                  == A + Qabs q + 2 * tiny + sumQ (map Qabs values) + 2 * tiny * n)%Q) by ring.
    rewrite E1, E2. split; assumption.
Qed.

(** The mean the doubles give against the exact mean. *)
Lemma doubleMean_error (values : list Q) (period : nat) :
  List.length values = period -> 0 < period <= 200 ->
  let N := inject_Z (Z.of_nat period) in
  (Qabs (round64 (doubleSum values 0 / N) - sumQ values / N)
   <= (sumQ (map Qabs values) / N + 1) * pow2 (-44))%Q.
Proof.
  intros Hlen Hp. cbv zeta.
  destruct (doubleSum_error values 0 0 0 0) as [H1 H2].
  { cbn. discriminate. }
  { assert (E : (0 - 0 == 0)%Q) by ring. rewrite E.
    assert (E' : (0 * (growth 1 - 1) == 0)%Q) by ring. rewrite E'. cbn. discriminate. }
  cbv zeta in H1, H2. rewrite Hlen in H1, H2. cbn [Nat.add] in H2.
  set (N := inject_Z (Z.of_nat period)) in *.
  assert (HN : (1 <= N)%Q).
  { unfold N. change 1%Q with (inject_Z 1). rewrite <- Zle_Qle. lia. }
  assert (HN200 : (N <= 200)%Q).
  { unfold N. change 200%Q with (inject_Z 200). rewrite <- Zle_Qle. lia. }
  set (sa := sumQ (map Qabs values)) in *. set (sx := sumQ values) in *.
  set (s := doubleSum values 0) in *.
  assert (Hsa : (0 <= sa)%Q).
  { unfold sa. pose proof (sumQ_abs values). pose proof (Qabs_nonneg (sumQ values)). lra. }
  assert (E1 : (0 + sx == sx)%Q) by ring. rewrite E1 in H1, H2. clear E1.
  assert (E2 : (0 + sa + 2 * tiny * N == sa + 2 * tiny * N)%Q) by ring.
  rewrite E2 in H1, H2. clear E2.
  pose proof u64_pos as Hu. pose proof tiny_pos as Ht.
  set (G := growth (S period)) in *.
  assert (HG : (G <= 1 + 2 * (N + 1) * u64)%Q).
  { unfold G, N. rewrite <- inject_nat_S. apply growth_bound. rewrite inject_nat_S. fold N.
    assert (Hc : (2 * 201 * u64 <= 1)%Q) by (vm_compute; discriminate).
    assert (Hm : ((N + 1) * u64 <= 201 * u64)%Q) by (apply Qmult_le_compat_r; lra).
    lra. }
  assert (HG1 : (1 <= G)%Q) by apply growth_ge_1.
  (* everything per reading *)
  set (i := (/ N)%Q).
  assert (Hi : (0 < i)%Q) by (apply Qinv_lt_0_compat; lra).
  assert (HiN : (i * N == 1)%Q) by (unfold i; field; lra).
  assert (Hi1 : (i <= 1)%Q).
  { assert (H : (i * 1 <= i * N)%Q) by (apply Qmult_le_l; lra). lra. }
  set (B := (sa * i + 2 * tiny)%Q).
  assert (HB : ((sa + 2 * tiny * N) * i == B)%Q).
  { unfold B. assert (E : ((sa + 2 * tiny * N) * i == sa * i + 2 * tiny * (i * N))%Q) by ring.
    rewrite E, HiN. ring. }
  assert (HB0 : (0 <= sa * i)%Q) by (apply Qmult_le_0_compat; lra).
  (* the rounded sum per reading *)
  assert (Hs : (Qabs (s * i - sx * i) <= B * (G - 1))%Q).
  { assert (E : (s * i - sx * i == (s - sx) * i)%Q) by ring.
    rewrite E, Qabs_Qmult, (Qabs_pos i) by lra.
    assert (H : (Qabs (s - sx) * i <= (sa + 2 * tiny * N) * (G - 1) * i)%Q)
      by (apply Qmult_le_compat_r; lra).
    assert (E' : ((sa + 2 * tiny * N) * (G - 1) * i == (sa + 2 * tiny * N) * i * (G - 1))%Q)
      by ring.
    rewrite E', HB in H. exact H. }
  assert (Hsx : (Qabs (sx * i) <= B)%Q).
  { rewrite Qabs_Qmult, (Qabs_pos i) by lra.
    assert (H : (Qabs sx * i <= (sa + 2 * tiny * N) * i)%Q)
      by (apply Qmult_le_compat_r; lra).
    rewrite HB in H. exact H. }
  pose proof (round64_error (s / N)) as Hm.
  fold tiny in Hm. fold u64 in Hm.
  change (s / N)%Q with (s * i)%Q in Hm |- *. change (sx / N)%Q with (sx * i)%Q.
  change (sa / N)%Q with (sa * i)%Q.
  assert (Hsi : (Qabs (s * i) <= B * G)%Q).
  { apply Qabs_Qle_condition in Hs, Hsx. apply Qabs_Qle_condition. split; lra. }
  assert (Hmu : ((Qabs (s * i) + tiny) * u64 <= (B * G + tiny) * u64)%Q)
    by (apply Qmult_le_compat_r; lra).
  assert (HB' : (0 <= B)%Q) by (unfold B; lra).
  assert (HBG : (B * (G - 1) <= B * (2 * (N + 1) * u64))%Q).
  { rewrite !(Qmult_comm B). apply Qmult_le_compat_r; lra. }
  assert (HBN : (B * u64 * N <= B * u64 * 200)%Q).
  { rewrite !(Qmult_comm (B * u64)). apply Qmult_le_compat_r; [lra|].
    apply Qmult_le_0_compat; lra. }
  assert (HBu : (0 <= B * u64)%Q) by (apply Qmult_le_0_compat; lra).
  assert (HBGu : (B * (G - 1) * u64 <= B * 1 * u64)%Q).
  { apply Qmult_le_compat_r; [|lra]. rewrite !(Qmult_comm B).
    apply Qmult_le_compat_r; [|lra].
    assert (Hc : (2 * 201 * u64 <= 1)%Q) by (vm_compute; discriminate).
    assert (Hm' : ((N + 1) * u64 <= 201 * u64)%Q) by (apply Qmult_le_compat_r; lra).
    lra. }
  assert (Htu : (tiny * u64 <= 1 * u64)%Q).
  { apply Qmult_le_compat_r; [|lra]. vm_compute. discriminate. }
  assert (Hsau : (0 <= sa * i * u64)%Q) by (apply Qmult_le_0_compat; lra).
  assert (Hc : (pow2 (-44) == 512 * u64)%Q) by reflexivity.
  assert (Ht1 : (2 * tiny <= 1 # 1000)%Q) by (vm_compute; discriminate).
  assert (Htu2 : (2 * tiny * u64 <= (1 # 1000) * u64)%Q)
    by (apply Qmult_le_compat_r; lra).
  rewrite Hc.
  apply Qabs_Qle_condition in Hs, Hm. apply Qabs_Qle_condition.
  unfold B in *. split; lra.
Qed.

(* ===================================================================== *)
(** ** Properties of the moving-average engine *)
(* ===================================================================== *)

Lemma sliceLast_trailingWindow (period : nat) (series : list row) :
  0 < period -> sliceLast period series = trailingWindow period series.
Proof.
  intros H. unfold sliceLast, trailingWindow.
  destruct period as [|p]; [lia|].
  rewrite firstn_rev, rev_involutive. reflexivity.
Qed.

Lemma filter_valid (navColIdx : nat) (window : list row) :
  filter (fun v => negb (isNaN v))
         (map (fun r => toDouble (parseFloatCell (rowGet r navColIdx))) window)
  = map (fun q => Num (round64 q)) (validValues navColIdx window).
Proof.
  induction window as [|r window IH]; [reflexivity|].
  cbn [map filter validValues flat_map].
  destruct (parseFloatCell (rowGet r navColIdx)); cbn; rewrite IH; reflexivity.
Qed.

Lemma fold_jadd (values : list Q) (acc : Q) :
  fold_left jadd (map (fun q => Num (round64 q)) values) (Num acc)
  = Num (doubleSum values acc).
Proof.
  revert acc. induction values as [|v values IH]; intros acc; [reflexivity|].
  cbn [map fold_left jadd]. rewrite IH. reflexivity.
Qed.

Lemma validValues_length (navColIdx : nat) (window : list row) :
  List.length (validValues navColIdx window) <= List.length window.
Proof.
  induction window as [|r window IH]; [cbn; lia|].
  cbn [validValues flat_map]. rewrite length_app. fold (validValues navColIdx window).
  destruct (parseFloatCell (rowGet r navColIdx)); cbn; lia.
Qed.

Lemma trailingWindow_length (period : nat) (series : list row) :
  List.length (trailingWindow period series) = Nat.min period (List.length series).
Proof.
  unfold trailingWindow. rewrite length_rev, length_firstn, length_rev. reflexivity.
Qed.

(** What the loop body at lines 312-319 leaves in [ma]. *)
Lemma computeMA_window (dataRange : list row) (navColIdx period : nat) :
  0 < period ->
  computeMA dataRange navColIdx period
  = let valid := validValues navColIdx (trailingWindow period dataRange) in
    if List.length valid =? period
    then CNum (toFixed 4 (round64 (doubleSum valid 0 / inject_Z (Z.of_nat period))))
    else CStr "N/A".
Proof.
  intros Hp. cbv zeta. unfold computeMA, navsForMA.
  rewrite sliceLast_trailingWindow by exact Hp. rewrite filter_valid, length_map.
  pose proof (validValues_length navColIdx (trailingWindow period dataRange)) as Hlen.
  rewrite trailingWindow_length in Hlen.
  destruct (period <=? List.length dataRange) eqn:E.
  - destruct (_ =? period); [|reflexivity].
    rewrite fold_jadd. reflexivity.
  - apply Nat.leb_gt in E.
    destruct (_ =? period) eqn:E'; [|reflexivity].
    apply Nat.eqb_eq in E'. lia.
Qed.

Lemma maPeriods_positive (period : nat) :
  In period maPeriods -> 0 < period /\ existsb (Nat.eqb period) maPeriods = true.
Proof.
  cbn. intros [<- | [<- | [<- | []]]]; split; (lia || reflexivity).
Qed.

Lemma meanOf_sumQ (values : list Q) (period : nat) :
  (meanOf values period == sumQ values / inject_Z (Z.of_nat period))%Q.
Proof.
  unfold meanOf. rewrite fold_Qplus_sumQ.
  assert (E : (0 + sumQ values == sumQ values)%Q) by ring.
  rewrite E. reflexivity.
Qed.

Lemma sumQ_abs_bound (values : list Q) (M : Q) :
  Forall (fun q => (Qabs q <= M)%Q) values ->
  (sumQ (map Qabs values) <= M * inject_Z (Z.of_nat (List.length values)))%Q.
Proof.
  induction 1 as [|q values Hq _ IH]; cbn [sumQ map List.length].
  - change (inject_Z (Z.of_nat 0)) with 0%Q. lra.
  - rewrite inject_nat_S. lra.
Qed.

(** The stored average of readings of ordinary size: a number of four
    decimals next to the exact mean. *)
Lemma stored_average_close (valid : list Q) (period : nat) :
  List.length valid = period -> 0 < period <= 200 ->
  Forall (fun q => (Qabs q <= inject_Z (10 ^ 15))%Q) valid ->
  let x := toFixed 4 (round64 (doubleSum valid 0 / inject_Z (Z.of_nat period))) in
  (Qabs (meanOf valid period) <= inject_Z (10 ^ 15))%Q
  /\ fourDecimals x
  /\ (Qabs (x - meanOf valid period)
      <= (1 # 20000) + doubleTolerance (meanOf (map Qabs valid) period))%Q.
Proof.
  intros Hlen Hp Hall. cbv zeta.
  pose proof (doubleMean_error valid period Hlen Hp) as Hm. cbv zeta in Hm.
  pose proof (sumQ_abs_bound valid _ Hall) as Hsa. rewrite Hlen in Hsa.
  pose proof (sumQ_abs valid) as Hsx.
  unfold doubleTolerance. rewrite !meanOf_sumQ.
  set (N := inject_Z (Z.of_nat period)) in *.
  assert (HN : (1 <= N)%Q).
  { unfold N. change 1%Q with (inject_Z 1). rewrite <- Zle_Qle. lia. }
  set (i := (/ N)%Q).
  assert (Hi : (0 < i)%Q) by (apply Qinv_lt_0_compat; lra).
  assert (HiN : (N * i == 1)%Q) by (unfold i; field; lra).
  change (sumQ valid / N)%Q with (sumQ valid * i)%Q in *.
  change (sumQ (map Qabs valid) / N)%Q with (sumQ (map Qabs valid) * i)%Q in *.
  change (doubleSum valid 0 / N)%Q with (doubleSum valid 0 * i)%Q in *.
  set (sa := sumQ (map Qabs valid)) in *. set (sx := sumQ valid) in *.
  set (m := round64 (doubleSum valid 0 * i)) in *.
  set (M := inject_Z (10 ^ 15)) in *.
  assert (HM : (M == 1000000000000000)%Q) by reflexivity.
  assert (Hsai : (sa * i <= M)%Q).
  { assert (H : (sa * i <= M * N * i)%Q) by (apply Qmult_le_compat_r; lra).
    assert (E : (M * N * i == M * (N * i))%Q) by ring.
    rewrite E, HiN in H. lra. }
  assert (Hsa0 : (0 <= sa * i)%Q).
  { apply Qmult_le_0_compat; [|lra]. pose proof (Qabs_nonneg sx). lra. }
  assert (Hsxi : (Qabs (sx * i) <= sa * i)%Q).
  { rewrite Qabs_Qmult, (Qabs_pos i) by lra. apply Qmult_le_compat_r; lra. }
  assert (Hp44 : (pow2 (-44) == 1 # 17592186044416)%Q) by reflexivity.
  rewrite Hp44 in Hm |- *.
  assert (Hmabs : (Qabs m < inject_Z (10 ^ 21))%Q).
  { change (inject_Z (10 ^ 21)) with 1000000000000000000000%Q.
    apply Qabs_Qle_condition in Hm, Hsxi.
    apply Qabs_case; intros _; lra. }
  destruct (toFixed_decimals m Hmabs) as [H4 Hx].
  split; [lra|]. split; [exact H4|].
  apply Qabs_Qle_condition in Hm, Hx. apply Qabs_Qle_condition. split; lra.
Qed.

(** A number of four decimals next to a mean that is off every tie is the
    mean rounded to four decimals. *)
Lemma rounding_off_ties (x mean tol : Q) :
  fourDecimals x ->
  (Qabs (x - mean) <= (1 # 20000) + tol)%Q ->
  (Qabs mean < inject_Z (10 ^ 21))%Q ->
  (forall n : Z, (tol < Qabs (mean - fifthDecimalTie n))%Q) ->
  (x == toFixed 4 mean)%Q.
Proof.
  intros [k Hk] Hx Hmean Hoff.
  destruct (toFixed_decimals mean Hmean) as [[k' Hk'] Hy].
  rewrite Hk, Hk'. rewrite Hk in Hx. rewrite Hk' in Hy.
  assert (Ek : forall z, (inject_Z z / 10000 == inject_Z z * (1 # 10000))%Q)
    by (intros z; field).
  assert (Et : forall n, (fifthDecimalTie n == (inject_Z n + (1 # 2)) * (1 # 10000))%Q)
    by (intros n; unfold fifthDecimalTie; field).
  rewrite !Ek in Hx, Hy. apply Qabs_Qle_condition in Hx, Hy.
  destruct (Z.lt_trichotomy k k') as [Hlt | [-> | Hgt]]; [exfalso | reflexivity | exfalso].
  - specialize (Hoff (k' - 1)%Z). rewrite Et in Hoff.
    assert (Hz : (inject_Z k <= inject_Z (k' - 1))%Q) by (rewrite <- Zle_Qle; lia).
    assert (Ez : (inject_Z (k' - 1) == inject_Z k' - 1)%Q).
    { unfold Z.sub. rewrite inject_Z_plus, inject_Z_opp. reflexivity. }
    rewrite Ez in Hoff, Hz.
    apply Qlt_not_le in Hoff. apply Hoff.
    apply Qabs_Qle_condition. split; lra.
  - specialize (Hoff k'). rewrite Et in Hoff.
    assert (Hz : (inject_Z k' + 1 <= inject_Z k)%Q).
    { change 1%Q with (inject_Z 1). rewrite <- inject_Z_plus, <- Zle_Qle. lia. }
    apply Qlt_not_le in Hoff. apply Hoff.
    apply Qabs_Qle_condition. split; lra.
Qed.

(** C1.  For a period of 30, 50 or 200 and any stored series, the moving
    average of a column is a number exactly when the trailing window (the
    last [period] rows) holds exactly [period] valid numeric entries; with
    one valid entry less, or with fewer rows than the period, it is
    unavailable.  The number stored is the mean of the window rounded to
    four decimals, as doubles give it: for readings up to 10^15 in
    magnitude it has four decimals and lies within half a unit of the
    fourth decimal, plus the rounding of the doubles, of the exact mean; it
    is the exact mean rounded to four decimals whenever that mean is
    farther than the rounding of the doubles from every tie of the fifth
    decimal.  The number the signals use is the stored one read back, the
    double next to it. *)
Theorem moving_average_exact_window (dataRange : list row) (navColIdx period : nat) :
  In period maPeriods ->
  let valid := validValues navColIdx (trailingWindow period dataRange) in
  let tolerance := doubleTolerance (meanOf (map Qabs valid) period) in
  (isNaN (currentFundMAs dataRange navColIdx period) = false
   <-> List.length valid = period)
  /\ (List.length valid = period ->
      exists x y,
        computeMA dataRange navColIdx period = CNum x
        /\ currentFundMAs dataRange navColIdx period = Num y
        /\ (Qabs (y - x) <= Qabs x * pow2 (-53))%Q
        /\ (Forall (fun q => (Qabs q <= inject_Z (10 ^ 15))%Q) valid ->
            fourDecimals x
            /\ (Qabs (x - meanOf valid period) <= (1 # 20000) + tolerance)%Q
            /\ ((forall n : Z,
                    (tolerance < Qabs (meanOf valid period - fifthDecimalTie n))%Q) ->
                (x == toFixed 4 (meanOf valid period))%Q)))
  /\ (List.length valid <> period ->
      computeMA dataRange navColIdx period = CStr "N/A"
      /\ currentFundMAs dataRange navColIdx period = NaN)
  /\ (List.length valid = period - 1 ->
      currentFundMAs dataRange navColIdx period = NaN)
  /\ (List.length dataRange < period ->
      currentFundMAs dataRange navColIdx period = NaN).
Proof.
  intros Hin valid tolerance. destruct (maPeriods_positive _ Hin) as [Hp Hex].
  assert (Hp200 : 0 < period <= 200).
  { cbn in Hin. destruct Hin as [<- | [<- | [<- | []]]]; lia. }
  pose proof (computeMA_window dataRange navColIdx period Hp) as HMA.
  cbv zeta in HMA. fold valid in HMA.
  unfold currentFundMAs. rewrite Hex, HMA.
  assert (Hlen : List.length valid <= Nat.min period (List.length dataRange)).
  { unfold valid. rewrite <- trailingWindow_length. apply validValues_length. }
  destruct (List.length valid =? period) eqn:E.
  - apply Nat.eqb_eq in E. cbn [parseFloatCell isNaN].
    repeat match goal with |- _ /\ _ => split end; auto; intros; try lia.
    eexists. eexists. split; [reflexivity|]. split; [reflexivity|]. split.
    { match goal with |- (Qabs (?a - ?a) <= _)%Q =>
        assert (E0 : (a - a == 0)%Q) by ring; rewrite E0
      end.
      apply Qmult_le_0_compat; [apply Qabs_nonneg | apply Qlt_le_weak, pow2_pos]. }
    intros Hall.
    destruct (stored_average_close valid period E Hp200 Hall) as (Hmean & H4 & Hclose).
    cbv zeta in H4, Hclose. fold tolerance in Hclose.
    split; [exact H4|]. split; [exact Hclose|].
    intros Hoff. apply (rounding_off_ties _ _ tolerance H4 Hclose); [|exact Hoff].
    change (inject_Z (10 ^ 21)) with 1000000000000000000000%Q.
    change (inject_Z (10 ^ 15)) with 1000000000000000%Q in Hmean. lra.
  - apply Nat.eqb_neq in E.
    change (parseFloatCell (Some (CStr "N/A"))) with NaN. cbn [isNaN].
    repeat match goal with |- _ /\ _ => split end; auto; intros; try lia; try discriminate.
Qed.

(** Thirty rows at 10: the average is 10. *)
Lemma moving_average_exact_window_witness :
  In 30 maPeriods
  /\ exists x,
       currentFundMAs series30 1 30 = Num x
       /\ fourDecimals x
       /\ (x == toFixed 4 (meanOf (validValues 1 (trailingWindow 30 series30)) 30))%Q.
Proof.
  assert (H30 : In 30 maPeriods) by (cbn; auto).
  split; [exact H30|].
  pose proof (moving_average_exact_window series30 1 30 H30) as (_ & H & _).
  destruct (H eq_refl) as (x & y & Hc & Hy & _ & Hnum).
  assert (Exy : y = x).
  { unfold currentFundMAs in Hy. cbn [existsb maPeriods Nat.eqb orb] in Hy.
    rewrite Hc in Hy. cbn [parseFloatCell] in Hy. congruence. }
  subst y. exists x. split; [exact Hy|].
  destruct Hnum as (H4 & _ & Hoff).
  { repeat constructor; discriminate. }
  split; [exact H4|]. apply Hoff. intros n.
  assert (Hmean : (meanOf (validValues 1 (trailingWindow 30 series30)) 30 == 10)%Q)
    by (vm_compute; reflexivity).
  assert (Htol : (doubleTolerance
                    (meanOf (map Qabs (validValues 1 (trailingWindow 30 series30))) 30)
                  < 1 # 20000)%Q) by (vm_compute; reflexivity).
  rewrite Hmean. unfold fifthDecimalTie.
  assert (E : ((inject_Z n + (1 # 2)) / 10000 == (inject_Z n + (1 # 2)) * (1 # 10000))%Q)
    by field.
  rewrite E.
  destruct (Z_le_gt_dec n 99999) as [Hn | Hn].
  - assert (Hq : (inject_Z n <= 99999)%Q)
      by (change 99999%Q with (inject_Z 99999); rewrite <- Zle_Qle; exact Hn).
    apply Qabs_case; intros Hv; lra.
  - assert (Hq : (100000 <= inject_Z n)%Q)
      by (change 100000%Q with (inject_Z 100000); rewrite <- Zle_Qle; lia).
    apply Qabs_case; intros Hv; lra.
Defined.

(** At a tie of the fifth decimal the doubles decide: the exact mean of
    [tieSeries] is 10.00005, which rounds to 10.0001, and the mean of the
    doubles is below it, so that 10.0000 is stored. *)
Example moving_average_at_a_tie :
  (meanOf (validValues 1 (trailingWindow 30 tieSeries)) 30 == 10.00005)%Q
  /\ (toFixed 4 (meanOf (validValues 1 (trailingWindow 30 tieSeries)) 30) == 10.0001)%Q
  /\ exists x, computeMA tieSeries 1 30 = CNum x /\ (x == 10)%Q.
Proof.
  split; [vm_compute; reflexivity|]. split; [vm_compute; reflexivity|].
  eexists. split; [vm_compute; reflexivity | vm_compute; reflexivity].
Qed.

(* ===================================================================== *)
(** ** Properties of the trading-day walk *)
(* ===================================================================== *)

Section Walk.

Variable fetch : date -> response.
Variable today : date.

Lemma firstPass_world (offsets : list Z) (w : world) :
  snd (firstPass fetch today offsets w)
  = {| sheet := sheet w; log := log w ++ map Fetch (queried fetch today offsets) |}.
Proof.
  revert w. induction offsets as [|i rest IH]; intros w.
  - cbn. rewrite app_nil_r. destruct w; reflexivity.
  - cbn [firstPass queried].
    destruct (isWeekendOrHoliday (today - i)%Z); [apply IH|].
    destruct (validResponse (fetch (today - i)%Z)).
    + cbn. reflexivity.
    + rewrite IH. cbn. rewrite <- app_assoc. reflexivity.
Qed.

Lemma firstPass_found_indep (offsets : list Z) (w w' : world) :
  fst (firstPass fetch today offsets w) = fst (firstPass fetch today offsets w').
Proof.
  revert w w'. induction offsets as [|i rest IH]; intros w w'; [reflexivity|].
  cbn [firstPass].
  destruct (isWeekendOrHoliday (today - i)%Z); [apply IH|].
  destruct (validResponse (fetch (today - i)%Z)); [reflexivity | apply IH].
Qed.

Lemma queried_trading (offsets : list Z) (d : date) :
  In d (queried fetch today offsets) ->
  exists i, In i offsets /\ d = (today - i)%Z /\ isWeekendOrHoliday d = false.
Proof.
  induction offsets as [|i rest IH]; cbn [queried]; [intros []|].
  destruct (isWeekendOrHoliday (today - i)%Z) eqn:E.
  - intros H. destruct (IH H) as (j & Hj & Hd). exists j. cbn. auto.
  - intros [<- | H].
    + exists i. cbn. auto.
    + destruct (validResponse (fetch (today - i)%Z)); [destruct H|].
      destruct (IH H) as (j & Hj & Hd). exists j. cbn. auto.
Qed.

(** What the walk returns: the first offset, in the order walked, whose
    date is a trading day with a valid response. *)
Lemma firstPass_found (offsets : list Z) (w : world) :
  match fst (firstPass fetch today offsets w) with
  | Some (d, raw) =>
      exists pre i post content,
        offsets = pre ++ i :: post /\ d = (today - i)%Z
        /\ isWeekendOrHoliday d = false
        /\ validResponse (fetch d) = Some content
        /\ raw = split newline content
        /\ forall j, In j pre -> rejected fetch (today - j)%Z
  | None => forall j, In j offsets -> rejected fetch (today - j)%Z
  end.
Proof.
  revert w. induction offsets as [|i rest IH]; intros w; [intros j []|].
  cbn [firstPass].
  destruct (isWeekendOrHoliday (today - i)%Z) eqn:E.
  - specialize (IH w). destruct (fst (firstPass fetch today rest w)) as [[d raw]|].
    + destruct IH as (pre & k & post & content & -> & H).
      exists (i :: pre), k, post, content. split; [reflexivity|].
      destruct H as (? & ? & ? & ? & Hpre). repeat split; auto.
      intros j [<- | Hj]; [left; exact E | auto].
    + intros j [<- | Hj]; [left; exact E | auto].
  - destruct (validResponse (fetch (today - i)%Z)) as [content|] eqn:V.
    + cbn. exists [], i, rest, content. repeat split; auto. intros j [].
    + specialize (IH (emit (Fetch (today - i)%Z) w)).
      destruct (fst (firstPass fetch today rest _)) as [[d raw]|].
      * destruct IH as (pre & k & post & content & -> & H).
        exists (i :: pre), k, post, content. split; [reflexivity|].
        destruct H as (? & ? & ? & ? & Hpre). repeat split; auto.
        intros j [<- | Hj]; [right; exact V | auto].
      * intros j [<- | Hj]; [right; exact V | auto].
Qed.

End Walk.

(** The offsets 1 to 5, in that order, and what comes before one of them. *)
Lemma fromTo_1_5_split (pre post : list Z) (i j : Z) :
  fromTo 1 5 = pre ++ i :: post ->
  (1 <= i <= 5)%Z /\ ((1 <= j < i)%Z -> In j pre).
Proof.
  change (fromTo 1 5) with [1; 2; 3; 4; 5]%Z.
  destruct pre as [|p1 [|p2 [|p3 [|p4 [|p5 pre]]]]]; cbn; intros H;
    inversion H; subst; clear H.
  1-5: split; [lia|]; intros Hj; cbn;
    assert (j = 1 \/ j = 2 \/ j = 3 \/ j = 4)%Z by lia; intuition lia.
  destruct pre; discriminate.
Qed.

Lemma fromTo_1_5_in (j : Z) : In j (fromTo 1 5) <-> (1 <= j <= 5)%Z.
Proof.
  change (fromTo 1 5) with [1; 2; 3; 4; 5]%Z. cbn. lia.
Qed.

(* ===================================================================== *)
(** ** Properties of the sheet operations *)
(* ===================================================================== *)

Lemma hasNAValues_false (r : row) :
  hasNAValues r = false <-> forall i, i < 5 -> isNA (nth_error (rcells r) i) = false.
Proof.
  unfold hasNAValues. change (seq 0 (List.length fundNames)) with [0; 1; 2; 3; 4].
  cbn [existsb navStartIdx Nat.add rowGet]. rewrite !orb_false_iff. split.
  - intros (H0 & H1 & H2 & H3 & H4 & _) i Hi.
    destruct i as [|[|[|[|[|i]]]]]; try assumption; lia.
  - intros H. repeat split; try apply H; lia.
Qed.

Lemma removeNth_app_last {A} (l : list A) (a : A) :
  removeNth (List.length l) (l ++ [a]) = l.
Proof.
  induction l as [|b l IH]; [reflexivity|]. cbn. rewrite IH. reflexivity.
Qed.

Lemma deleteRow_appendRow (r : row) (s : Sheet.sheet) :
  deleteRow (getLastRow (appendRow r s)) (appendRow r s) = s.
Proof.
  unfold getLastRow, appendRow, deleteRow. cbn [rows header].
  rewrite length_app. cbn [List.length]. rewrite Nat.add_1_r.
  rewrite removeNth_app_last. destruct s; reflexivity.
Qed.

Lemma removeNth_Forall {A} (P : A -> Prop) (k : nat) (l : list A) :
  Forall P l -> Forall P (removeNth k l).
Proof.
  revert k. induction l as [|a l IH]; intros k H; [destruct k; constructor|].
  inversion H; subst. destruct k; cbn; auto.
Qed.

Lemma updateNth_Forall {A} (P : A -> Prop) (f : A -> A) (k : nat) (l : list A) :
  (forall a, P a -> P (f a)) -> Forall P l -> Forall P (updateNth k f l).
Proof.
  intros Hf. revert k. induction l as [|a l IH]; intros k H; [destruct k; constructor|].
  inversion H; subst. destruct k; cbn; auto.
Qed.

Lemma updateNth_app_last {A} (f : A -> A) (l : list A) (a : A) :
  updateNth (List.length l) f (l ++ [a]) = l ++ [f a].
Proof.
  induction l as [|b l IH]; [reflexivity|]. cbn. rewrite IH. reflexivity.
Qed.

Lemma updateNth_length {A} (f : A -> A) (k : nat) (l : list A) :
  List.length (updateNth k f l) = List.length l.
Proof.
  revert k. induction l as [|a l IH]; intros [|k]; cbn; auto.
Qed.

(** Writing a cell leaves the cells before it as they were, up to the
    empty cells of the grid. *)
Lemma setCell_isNA_before (k : nat) (v : cell) (cells : list cell) (j : nat) :
  j < k -> isNA (nth_error (setCell k v cells) j) = isNA (nth_error cells j).
Proof.
  revert cells j. induction k as [|k IH]; intros cells j Hj; [lia|].
  destruct cells as [|c cells]; destruct j as [|j]; cbn; try reflexivity.
  - rewrite IH by lia. destruct j; reflexivity.
  - apply IH. lia.
Qed.

Lemma setCells_isNA_before (vs : list cell) (k : nat) (cells : list cell) (j : nat) :
  j < k -> isNA (nth_error (setCells k vs cells) j) = isNA (nth_error cells j).
Proof.
  revert k cells. induction vs as [|v vs IH]; intros k cells Hj; [reflexivity|].
  cbn [setCells]. rewrite IH by lia. apply setCell_isNA_before. exact Hj.
Qed.

Lemma setCells_complete (vs : list cell) (k : nat) (d : date) (cells : list cell) :
  5 <= k -> complete {| rdate := d; rcells := cells |} ->
  complete {| rdate := d; rcells := setCells k vs cells |}.
Proof.
  unfold complete. rewrite !hasNAValues_false. intros Hk H i Hi. cbn [rcells] in *.
  rewrite setCells_isNA_before by lia. auto.
Qed.

Lemma setValues_complete (n col : nat) (vs : list cell) (s : Sheet.sheet) :
  7 <= col -> Forall complete (rows s) -> Forall complete (rows (setValues n col vs s)).
Proof.
  intros Hcol H. unfold setValues. cbn [rows].
  apply updateNth_Forall; [|exact H].
  intros [d cells] Hr. cbn [rdate rcells]. apply setCells_complete; [lia | exact Hr].
Qed.

Lemma setValues_last (col : nat) (vs : list cell) (s : Sheet.sheet) (rs : list row) (r : row) :
  rows s = rs ++ [r] ->
  rows (setValues (getLastRow s) col vs s)
  = rs ++ [{| rdate := rdate r; rcells := setCells (col - 2) vs (rcells r) |}].
Proof.
  intros H. unfold setValues, getLastRow. cbn [rows]. rewrite H, length_app.
  cbn [List.length]. replace (S (List.length rs + 1) - 2) with (List.length rs) by lia.
  rewrite updateNth_app_last. reflexivity.
Qed.

Lemma setValues_header (n col : nat) (vs : list cell) (s : Sheet.sheet) :
  header (setValues n col vs s) = header s.
Proof. reflexivity. Qed.

Lemma setValues_getLastRow (n col : nat) (vs : list cell) (s : Sheet.sheet) :
  getLastRow (setValues n col vs s) = getLastRow s.
Proof.
  unfold getLastRow, setValues. cbn [rows]. rewrite updateNth_length. reflexivity.
Qed.

(* ===================================================================== *)
(** ** Properties of the daily pipeline *)
(* ===================================================================== *)

(** *** The analysis step *)

Lemma analysis_complete (newNavRow : row) (w : world) :
  Forall complete (rows (sheet w)) ->
  Forall complete (rows (sheet (fst (analysis newNavRow w)))).
Proof.
  intros H. unfold analysis. destruct (rows (sheet w)) eqn:E; [cbn; rewrite E; exact H|].
  rewrite <- E in H. clear E.
  match goal with
  | |- context [if ?b then _ else _] => destruct b
  end; cbn [fst sheet emit onSheet];
    (apply setValues_complete; [vm_compute; lia|]);
    (apply setValues_complete; [vm_compute; lia|]); exact H.
Qed.

Lemma analysis_last (newNavRow : row) (w : world) (rs : list row) (r : row) :
  rows (sheet w) = rs ++ [r] ->
  snd (analysis newNavRow w) = Returned
  /\ header (sheet (fst (analysis newNavRow w))) = header (sheet w)
  /\ exists cells,
      rows (sheet (fst (analysis newNavRow w))) = rs ++ [{| rdate := rdate r; rcells := cells |}]
      /\ (complete r -> complete {| rdate := rdate r; rcells := cells |}).
Proof.
  intros H. unfold analysis. destruct (rows (sheet w)) eqn:E.
  { destruct rs; discriminate. }
  rewrite <- E in *. clear E.
  set (results := map _ _).
  set (w1 := onSheet (setValues _ (maStartIdx + 1) _) w).
  assert (H1 : rows (sheet w1)
               = rs ++ [{| rdate := rdate r;
                           rcells := setCells (maStartIdx + 1 - 2) (flat_map fst results) (rcells r) |}]).
  { unfold w1. cbn [sheet onSheet]. apply setValues_last. exact H. }
  set (w2 := onSheet (setValues _ (alertStartIdx + 1) _) w1).
  assert (Hlast : getLastRow (sheet w) = getLastRow (sheet w1)).
  { unfold w1. cbn [sheet onSheet]. rewrite setValues_getLastRow. reflexivity. }
  assert (H2 : exists cells,
             rows (sheet w2) = rs ++ [{| rdate := rdate r; rcells := cells |}]
             /\ (complete r -> complete {| rdate := rdate r; rcells := cells |})).
  { eexists. split.
    - unfold w2. cbn [sheet onSheet]. rewrite Hlast.
      rewrite (setValues_last _ _ _ _ _ H1). cbn [rdate rcells]. reflexivity.
    - intros Hr. destruct r as [d cells]. cbn [rdate rcells] in *.
      apply setCells_complete; [vm_compute; lia|].
      apply setCells_complete; [vm_compute; lia | exact Hr]. }
  destruct (existsb _ results); cbn [fst snd sheet emit]; repeat split; auto.
Qed.

Lemma analysis_log (newNavRow : row) (w : world) (e : event) :
  In e (log (fst (analysis newNavRow w))) -> In e (log w) \/ e = SendEmail.
Proof.
  unfold analysis. destruct (rows (sheet w)); [cbn; auto|].
  match goal with
  | |- context [if ?b then _ else _] => destruct b
  end; cbn [fst log emit onSheet]; [|auto].
  rewrite in_app_iff. cbn. intuition auto.
Qed.

Section DailyProps.

Variable fetch : date -> response.
Variable today : date.

Lemma getNAVAndAnalyzeIn_cases (outer_i : option Z) (w : world) :
  getNAVAndAnalyzeIn fetch today outer_i w
  = match firstAccepted fetch today with
    | None => (emit (UiAlert failedToFetch) (afterWalk fetch today w), Returned)
    | Some (d, raw) =>
        if duplicateDate d w then (afterWalk fetch today w, Returned)
        else if hasNAValues (buildRow d raw) then
          match outer_i with
          | None => (afterDelete fetch today (buildRow d raw) w, Thrown (ReferenceError "i"))
          | Some i =>
              analysis (buildRow d raw)
                (retryLoop fetch today (fromTo (i + 1) 10) (afterDelete fetch today (buildRow d raw) w))
          end
        else analysis (buildRow d raw) (afterAppend fetch today (buildRow d raw) w)
    end.
Proof.
  unfold getNAVAndAnalyzeIn, firstAccepted.
  rewrite (surjective_pairing (firstPass fetch today (fromTo 1 5) (onSheet setHeader w))).
  rewrite firstPass_world.
  rewrite (firstPass_found_indep fetch today (fromTo 1 5) (onSheet setHeader w)
             {| sheet := {| header := []; rows := [] |}; log := [] |}).
  destruct (fst (firstPass _ _ _ _)) as [[d raw]|]; reflexivity.
Qed.

Lemma afterDelete_eq (newNavRow : row) (w : world) :
  afterDelete fetch today newNavRow w
  = {| sheet := setHeader (sheet w);
       log := log (afterWalk fetch today w)
              ++ [AppendRow newNavRow; DeleteRow (S (S (List.length (rows (sheet w)))))] |}.
Proof.
  unfold afterDelete, afterAppend, emit, onSheet. cbn [sheet log].
  rewrite deleteRow_appendRow. rewrite <- app_assoc. cbn [app].
  unfold getLastRow, appendRow. cbn [rows afterWalk sheet setHeader].
  rewrite length_app. cbn [List.length]. rewrite Nat.add_1_r. reflexivity.
Qed.

End DailyProps.

Section DailyClaims.

Variable fetch : date -> response.
Variable today : date.

(** The events of a run: those of the walk, then at most a dialog, an
    append, a deletion and a mail. *)
Lemma getNAVAndAnalyze_log (w : world) (e : event) :
  In e (log (fst (getNAVAndAnalyze fetch today w))) ->
  In e (log w)
  \/ (exists d, e = Fetch d /\ In d (queried fetch today (fromTo 1 5)))
  \/ e = UiAlert failedToFetch
  \/ (exists r, e = AppendRow r /\ firstAccepted fetch today <> None)
  \/ (exists n, e = DeleteRow n)
  \/ e = SendEmail.
Proof.
  assert (Hwalk : In e (log (afterWalk fetch today w)) ->
                  In e (log w)
                  \/ (exists d, e = Fetch d /\ In d (queried fetch today (fromTo 1 5)))).
  { cbn [afterWalk log]. rewrite in_app_iff, in_map_iff.
    intros [H | (d & <- & H)]; eauto. }
  unfold getNAVAndAnalyze. rewrite getNAVAndAnalyzeIn_cases.
  destruct (firstAccepted fetch today) as [[d raw]|] eqn:Ef.
  - destruct (duplicateDate d w); [cbn [fst]; tauto|].
    destruct (hasNAValues (buildRow d raw)).
    + cbn [fst]. rewrite afterDelete_eq. cbn [log]. rewrite in_app_iff. cbn [In].
      intros [H | [<- | [<- | []]]]; [tauto | | eauto 8].
      right; right; right; left. eexists; split; [reflexivity | discriminate].
    + intros H. apply analysis_log in H. destruct H as [H | ->]; [|tauto].
      cbn [afterAppend emit log onSheet] in H. rewrite in_app_iff in H. cbn [In] in H.
      destruct H as [H | [<- | []]]; [tauto|].
      right; right; right; left. eexists; split; [reflexivity | discriminate].
  - cbn [fst emit log]. rewrite in_app_iff. cbn [In]. intros [H | [<- | []]]; tauto.
Qed.

Lemma firstAccepted_spec :
  match firstAccepted fetch today with
  | Some (d, raw) =>
      exists i content,
        (1 <= i <= 5)%Z /\ d = (today - i)%Z
        /\ isWeekendOrHoliday d = false
        /\ validResponse (fetch d) = Some content
        /\ raw = split newline content
        /\ forall j, (1 <= j < i)%Z -> rejected fetch (today - j)%Z
  | None => forall j, (1 <= j <= 5)%Z -> rejected fetch (today - j)%Z
  end.
Proof.
  unfold firstAccepted.
  pose proof (firstPass_found fetch today (fromTo 1 5)
                {| sheet := {| header := []; rows := [] |}; log := [] |}) as H.
  destruct (fst (firstPass _ _ _ _)) as [[d raw]|].
  - destruct H as (pre & i & post & content & Hsplit & Hd & Ht & Hv & Hraw & Hpre).
    exists i, content.
    split; [exact (proj1 (fromTo_1_5_split pre post i 0 Hsplit))|].
    repeat split; auto.
    intros j Hj. apply Hpre. exact (proj2 (fromTo_1_5_split pre post i j Hsplit) Hj).
  - intros j Hj. apply H. apply fromTo_1_5_in. exact Hj.
Qed.

Lemma firstAccepted_none :
  (forall j, (1 <= j <= 5)%Z -> rejected fetch (today - j)%Z) ->
  firstAccepted fetch today = None.
Proof.
  intros H. pose proof firstAccepted_spec as Hs.
  destruct (firstAccepted fetch today) as [[d raw]|]; [|reflexivity].
  destruct Hs as (i & content & Hi & -> & Ht & Hv & _).
  destruct (H i Hi) as [H' | H']; congruence.
Qed.

(** C8.  The first pass queries only dates 1 to 5 days before the day of the
    run (never that day itself) and none that the calendar reports as a
    weekend or a holiday; it accepts the response of the first offset, going
    back a day at a time, whose date is a trading day and whose response is
    valid (status 200, non-empty, no "No data found"); and when every
    candidate is rejected the run shows the failure dialog and returns with
    the series as it was, nothing being appended. *)
Theorem first_pass_walk (w : world) :
  (forall d, In (Fetch d) (log (fst (getNAVAndAnalyze fetch today w))) ->
             In (Fetch d) (log w)
             \/ exists i, (1 <= i <= 5)%Z /\ d = (today - i)%Z
                          /\ d <> today /\ isWeekendOrHoliday d = false)
  /\ match firstAccepted fetch today with
     | Some (d, raw) =>
         exists i content,
           (1 <= i <= 5)%Z /\ d = (today - i)%Z
           /\ isWeekendOrHoliday d = false
           /\ validResponse (fetch d) = Some content
           /\ raw = split newline content
           /\ forall j, (1 <= j < i)%Z -> rejected fetch (today - j)%Z
     | None => forall j, (1 <= j <= 5)%Z -> rejected fetch (today - j)%Z
     end
  /\ ((forall j, (1 <= j <= 5)%Z -> rejected fetch (today - j)%Z) ->
      getNAVAndAnalyze fetch today w
      = (emit (UiAlert failedToFetch) (afterWalk fetch today w), Returned)
      /\ rows (sheet (fst (getNAVAndAnalyze fetch today w))) = rows (sheet w)
      /\ In (UiAlert failedToFetch) (log (fst (getNAVAndAnalyze fetch today w)))
      /\ forall r, In (AppendRow r) (log (fst (getNAVAndAnalyze fetch today w))) ->
                   In (AppendRow r) (log w)).
Proof.
  split; [|split].
  - intros d H. apply getNAVAndAnalyze_log in H.
    destruct H as [H | [(d' & Hd & H) | [H | [(r & H & _) | [(n & H) | H]]]]];
      try discriminate; [tauto|].
    injection Hd as <-. right.
    destruct (queried_trading fetch today _ _ H) as (i & Hi & Hd & Ht).
    apply fromTo_1_5_in in Hi. exists i. repeat split; auto; lia.
  - exact firstAccepted_spec.
  - intros Hall. pose proof (firstAccepted_none Hall) as Hnone.
    assert (Hrun : getNAVAndAnalyze fetch today w
                   = (emit (UiAlert failedToFetch) (afterWalk fetch today w), Returned)).
    { unfold getNAVAndAnalyze. rewrite getNAVAndAnalyzeIn_cases, Hnone. reflexivity. }
    split; [exact Hrun|]. split; [rewrite Hrun; reflexivity|]. split.
    + rewrite Hrun. cbn [fst emit log]. rewrite in_app_iff. right. left. reflexivity.
    + intros r H. apply getNAVAndAnalyze_log in H.
      destruct H as [H | [(d' & Hd & H) | [H | [(r' & _ & H) | [(n & H) | H]]]]];
        try discriminate; [exact H | congruence].
Qed.

End DailyClaims.

Lemma setHeader_idempotent (s : Sheet.sheet) : setHeader (setHeader s) = setHeader s.
Proof.
  unfold setHeader. cbn [header rows]. reflexivity.
Qed.

Lemma arrayIncludes_In (arr : list string) (s : string) :
  In s arr -> arrayIncludes arr s = true.
Proof.
  intros H. unfold arrayIncludes. apply existsb_exists. exists s.
  split; [exact H | apply String.eqb_refl].
Qed.

Lemma isNA_nth_error (cells : list cell) (i : nat) :
  Forall (fun c => isNA (Some c) = false) cells -> isNA (nth_error cells i) = false.
Proof.
  intros H. destruct (nth_error cells i) as [c|] eqn:E; [|reflexivity].
  rewrite Forall_forall in H. apply H. eapply nth_error_In. exact E.
Qed.

Lemma placeholders_not_NA : Forall (fun c => isNA (Some c) = false) placeholders.
Proof.
  apply Forall_forall. intros c H. apply repeat_spec in H. subst. reflexivity.
Qed.

Lemma navCells_not_NA (navs : list num) :
  forallb (fun nav => negb (isNaN nav)) navs = true ->
  Forall (fun c => isNA (Some c) = false) (map navCell navs).
Proof.
  induction navs as [|nav navs IH]; cbn; [constructor|].
  rewrite andb_true_iff. intros [H1 H2]. constructor; [|auto].
  destruct nav; [discriminate | reflexivity].
Qed.

Section RetryProps.

Variable fetch : date -> response.
Variable today : date.

(** The retry walk appends complete rows only. *)
Lemma retryLoop_complete (offsets : list Z) (w : world) :
  Forall complete (rows (sheet w)) ->
  Forall complete (rows (sheet (retryLoop fetch today offsets w))).
Proof.
  revert w. induction offsets as [|retryI rest IH]; intros w H; [exact H|].
  cbn [retryLoop].
  destruct (isWeekendOrHoliday (today - retryI)%Z); [auto|].
  destruct (validResponse (fetch (today - retryI)%Z)) as [content|]; [|apply IH; exact H].
  destruct (forallb _ _) eqn:Hc; [|apply IH; exact H].
  destruct (negb _); [|apply IH; exact H].
  apply IH. cbn [sheet emit onSheet appendRow rows].
  apply Forall_app. split; [exact H|]. constructor; [|constructor].
  unfold complete. apply hasNAValues_false. intros i _. cbn [rcells].
  apply isNA_nth_error. apply Forall_app. split.
  - apply navCells_not_NA. exact Hc.
  - exact placeholders_not_NA.
Qed.

(** A retry date with a complete row that is not yet stored: the row is
    appended (line 266), the assignment to the constant [newNavRow]
    (line 267) throws, the [catch] of line 277 takes it, and the walk goes
    on with the next offset. *)
Lemma retryLoop_append_then_TypeError
  (retryI : Z) (rest : list Z) (w : world) (content : string) :
  let d := (today - retryI)%Z in
  let navs := map (fun f => retryNav (split newline content) (snd f)) fundsToTrack in
  let retryNavRow := {| rdate := d; rcells := map navCell navs ++ placeholders |} in
  isWeekendOrHoliday d = false ->
  validResponse (fetch d) = Some content ->
  forallb (fun nav => negb (isNaN nav)) navs = true ->
  arrayIncludes (map (fun r => formatDate (rdate r)) (rows (sheet w))) (formatDate d) = false ->
  retryLoop fetch today (retryI :: rest) w
  = retryLoop fetch today rest
      (emit (Caught (TypeError "Assignment to constant variable."))
         (emit (AppendRow retryNavRow)
            (onSheet (appendRow retryNavRow) (emit (Fetch d) w)))).
Proof.
  intros d navs retryNavRow Ht Hv Hc Hnew. cbn [retryLoop].
  fold d. rewrite Ht, Hv. fold navs. rewrite Hc.
  cbn [sheet emit]. rewrite Hnew. reflexivity.
Qed.

(** Whatever [i] resolves to at line 209, a run leaves no row with a
    missing value in a series that had none. *)
Lemma getNAVAndAnalyzeIn_complete (outer_i : option Z) (w : world) :
  Forall complete (rows (sheet w)) ->
  Forall complete (rows (sheet (fst (getNAVAndAnalyzeIn fetch today outer_i w)))).
Proof.
  intros H. rewrite getNAVAndAnalyzeIn_cases.
  destruct (firstAccepted fetch today) as [[d raw]|]; [|exact H].
  destruct (duplicateDate d w); [exact H|].
  destruct (hasNAValues (buildRow d raw)) eqn:Hna.
  - assert (H' : Forall complete (rows (sheet (afterDelete fetch today (buildRow d raw) w)))).
    { rewrite afterDelete_eq. exact H. }
    destruct outer_i as [i|]; [|exact H'].
    apply analysis_complete. apply retryLoop_complete. exact H'.
  - apply analysis_complete. cbn [afterAppend sheet emit onSheet appendRow rows afterWalk setHeader].
    apply Forall_app. split; [exact H|]. constructor; [exact Hna | constructor].
Qed.

(** The analysis step is reached with a row that has no "N/A": the latest
    value of every fund is then a number. *)
Lemma latest_value_is_numeric (d : date) (raw : list string) (i : nat) :
  hasNAValues (buildRow d raw) = false -> i < List.length fundNames ->
  exists nav, parseFloatCell (rowGet (buildRow d raw) (navStartIdx + i)) = Num nav.
Proof.
  intros H Hi.
  pose proof (proj1 (hasNAValues_false (buildRow d raw)) H i Hi) as Hna.
  cbn [navStartIdx Nat.add rowGet]. unfold buildRow in *. cbn [rcells] in *.
  assert (Hlen : i < List.length fundsToTrack) by exact Hi.
  rewrite nth_error_app1 in * by (rewrite length_map; exact Hlen).
  rewrite nth_error_map in *.
  destruct (nth_error fundsToTrack i) as [f|] eqn:E; cbn [option_map] in *.
  - destruct (firstNav raw (snd f)) as [|q]; cbn in *; [discriminate | eauto].
  - apply nth_error_None in E. lia.
Qed.

(** C3.  A run of the daily pipeline leaves the series as it was, or with
    one more row in which no tracked fund is marked "N/A"; so a series
    without a missing value has none after the run. *)
Theorem daily_cycle_leaves_no_missing_value (w : world) :
  (rows (sheet (fst (getNAVAndAnalyze fetch today w))) = rows (sheet w)
   \/ exists r,
       rows (sheet (fst (getNAVAndAnalyze fetch today w))) = rows (sheet w) ++ [r]
       /\ complete r)
  /\ (Forall complete (rows (sheet w)) ->
      Forall complete (rows (sheet (fst (getNAVAndAnalyze fetch today w))))).
Proof.
  split; [|apply getNAVAndAnalyzeIn_complete].
  unfold getNAVAndAnalyze. rewrite getNAVAndAnalyzeIn_cases.
  destruct (firstAccepted fetch today) as [[d raw]|]; [|left; reflexivity].
  destruct (duplicateDate d w); [left; reflexivity|].
  destruct (hasNAValues (buildRow d raw)) eqn:Hna.
  - left. cbn [fst]. rewrite afterDelete_eq. reflexivity.
  - right.
    destruct (analysis_last (buildRow d raw) (afterAppend fetch today (buildRow d raw) w)
                (rows (sheet w)) (buildRow d raw) eq_refl)
      as (_ & _ & cells & Hrows & Hc).
    eexists. split; [exact Hrows|]. apply Hc. exact Hna.
Qed.

(** C7.  When the date the walk resolves is already in the series, the run
    returns before anything is appended: the rows are those it found, its
    only events are the queries of the walk, and a second run leaves the
    sheet as the first one did. *)
Theorem duplicate_date_is_noop (w : world) (d : date) (raw : list string) :
  firstAccepted fetch today = Some (d, raw) ->
  In d (map rdate (rows (sheet w))) ->
  getNAVAndAnalyze fetch today w = (afterWalk fetch today w, Returned)
  /\ rows (sheet (fst (getNAVAndAnalyze fetch today w))) = rows (sheet w)
  /\ (forall e, In e (log (fst (getNAVAndAnalyze fetch today w))) ->
                In e (log w) \/ exists d', e = Fetch d')
  /\ sheet (fst (getNAVAndAnalyze fetch today (fst (getNAVAndAnalyze fetch today w))))
     = sheet (fst (getNAVAndAnalyze fetch today w)).
Proof.
  intros Hf Hin.
  assert (Hdup : forall w', rows (sheet w') = rows (sheet w) -> duplicateDate d w' = true).
  { intros w' Hw'. unfold duplicateDate. rewrite Hw'. apply arrayIncludes_In.
    rewrite <- map_map. apply in_map. exact Hin. }
  assert (Hrun : forall w', rows (sheet w') = rows (sheet w) ->
                 getNAVAndAnalyze fetch today w' = (afterWalk fetch today w', Returned)).
  { intros w' Hw'. unfold getNAVAndAnalyze.
    rewrite getNAVAndAnalyzeIn_cases, Hf, (Hdup w' Hw'). reflexivity. }
  rewrite (Hrun w eq_refl). cbn [fst].
  split; [reflexivity|]. split; [reflexivity|]. split.
  - cbn [afterWalk log]. intros e. rewrite in_app_iff, in_map_iff.
    intros [H | (d' & <- & _)]; eauto.
  - rewrite (Hrun (afterWalk fetch today w) eq_refl). cbn [fst afterWalk sheet].
    apply setHeader_idempotent.
Qed.

(** C10.  When the row built from the first accepted report marks a fund
    "N/A", the run appends it, deletes it, and stops with a ReferenceError
    on the identifier [i]: the series is as it was, no date beyond those of
    the first pass is queried, and no other row is appended.  Were the retry
    walk to run, a complete new row would be appended and the assignment to
    the constant [newNavRow] would throw on the spot. *)
Theorem incomplete_row_aborts (w : world) (d : date) (raw : list string) :
  firstAccepted fetch today = Some (d, raw) ->
  duplicateDate d w = false ->
  hasNAValues (buildRow d raw) = true ->
  getNAVAndAnalyze fetch today w
  = ({| sheet := setHeader (sheet w);
        log := (log w ++ map Fetch (queried fetch today (fromTo 1 5)))
               ++ [AppendRow (buildRow d raw);
                   DeleteRow (S (S (List.length (rows (sheet w)))))] |},
     Thrown (ReferenceError "i"))
  /\ rows (sheet (fst (getNAVAndAnalyze fetch today w))) = rows (sheet w)
  /\ (forall d', In (Fetch d') (log (fst (getNAVAndAnalyze fetch today w))) ->
                 In (Fetch d') (log w) \/ In d' (queried fetch today (fromTo 1 5)))
  /\ (forall r, In (AppendRow r) (log (fst (getNAVAndAnalyze fetch today w))) ->
                In (AppendRow r) (log w) \/ r = buildRow d raw)
  /\ (forall retryI rest w' content,
         let d' := (today - retryI)%Z in
         let navs := map (fun f => retryNav (split newline content) (snd f)) fundsToTrack in
         let retryNavRow := {| rdate := d'; rcells := map navCell navs ++ placeholders |} in
         isWeekendOrHoliday d' = false ->
         validResponse (fetch d') = Some content ->
         forallb (fun nav => negb (isNaN nav)) navs = true ->
         duplicateDate d' w' = false ->
         retryLoop fetch today (retryI :: rest) w'
         = retryLoop fetch today rest
             (emit (Caught (TypeError "Assignment to constant variable."))
                (emit (AppendRow retryNavRow)
                   (onSheet (appendRow retryNavRow) (emit (Fetch d') w'))))).
Proof.
  intros Hf Hdup Hna.
  assert (Hrun : getNAVAndAnalyze fetch today w
                 = (afterDelete fetch today (buildRow d raw) w, Thrown (ReferenceError "i"))).
  { unfold getNAVAndAnalyze. rewrite getNAVAndAnalyzeIn_cases, Hf, Hdup, Hna. reflexivity. }
  rewrite Hrun, afterDelete_eq. cbn [fst sheet log afterWalk setHeader rows].
  split; [reflexivity|]. split; [reflexivity|]. split; [|split].
  - intros d'. rewrite !in_app_iff, in_map_iff. cbn [In].
    intros [[H | (x & Hx & H)] | [H | [H | []]]]; try discriminate; [tauto|].
    injection Hx as ->. tauto.
  - intros r. rewrite !in_app_iff, in_map_iff. cbn [In].
    intros [[H | (x & Hx & H)] | [H | [H | []]]]; try discriminate; [tauto|].
    injection H as ->. tauto.
  - intros retryI rest w' content. apply retryLoop_append_then_TypeError.
Qed.

End RetryProps.

(* ===================================================================== *)
(** ** Concrete runs *)
(* ===================================================================== *)

Lemma duplicate_date_is_noop_witness :
  rows (sheet (fst (getNAVAndAnalyze alwaysComplete thursday worldWithWednesday)))
  = rows (sheet worldWithWednesday).
Proof.
  refine (proj1 (proj2 (duplicate_date_is_noop alwaysComplete thursday worldWithWednesday
                          (thursday - 1)%Z (split newline completeReport) _ _))).
  - vm_compute. reflexivity.
  - vm_compute. left. reflexivity.
Defined.

Lemma incomplete_row_aborts_witness :
  snd (getNAVAndAnalyze partialThenComplete thursday emptyWorld)
  = Thrown (ReferenceError "i").
Proof.
  refine (f_equal snd
            (proj1 (incomplete_row_aborts partialThenComplete thursday emptyWorld
                      (thursday - 1)%Z (split newline partialReport) _ _ _)));
    vm_compute; reflexivity.
Defined.

(** C4.  The report of the day before the run lacks three funds and the
    report of the day before that one, a trading day, is complete: the run
    appends the incomplete row, deletes it, and stops with a ReferenceError
    without querying that older date, so the series stays empty. *)
Theorem incomplete_row_is_not_retried :
  isWeekendOrHoliday (thursday - 2)%Z = false
  /\ forallb (fun nav => negb (isNaN nav))
       (map (fun f => retryNav (split newline completeReport) (snd f)) fundsToTrack) = true
  /\ hasNAValues (buildRow (thursday - 1)%Z (split newline partialReport)) = true
  /\ snd (getNAVAndAnalyze partialThenComplete thursday emptyWorld)
     = Thrown (ReferenceError "i")
  /\ rows (sheet (fst (getNAVAndAnalyze partialThenComplete thursday emptyWorld))) = []
  /\ log (fst (getNAVAndAnalyze partialThenComplete thursday emptyWorld))
     = [Fetch (thursday - 1)%Z;
        AppendRow (buildRow (thursday - 1)%Z (split newline partialReport));
        DeleteRow 2].
Proof.
  repeat match goal with |- _ /\ _ => split end; vm_compute; reflexivity.
Qed.

(* ===================================================================== *)
(** ** Properties of gap repair *)
(* ===================================================================== *)

Lemma nth_error_updateNth {A} (f : A -> A) (k : nat) (l : list A) (j : nat) :
  nth_error (updateNth k f l) j
  = if j =? k then option_map f (nth_error l j) else nth_error l j.
Proof.
  revert k j. induction l as [|a l IH]; intros k j.
  - destruct k, j; cbn; try reflexivity; destruct (j =? k); reflexivity.
  - destruct k, j; cbn; try reflexivity. apply IH.
Qed.

Lemma nth_error_setCell (k : nat) (v : cell) (cells : list cell) (j : nat) :
  k < List.length cells ->
  nth_error (setCell k v cells) j = if j =? k then Some v else nth_error cells j.
Proof.
  revert cells j. induction k as [|k IH]; intros cells j Hk;
    destruct cells as [|c cells]; cbn in Hk; try lia.
  - destruct j; reflexivity.
  - destruct j; cbn; [reflexivity|]. apply IH. lia.
Qed.

Lemma setCell_length (k : nat) (v : cell) (cells : list cell) :
  k < List.length cells -> List.length (setCell k v cells) = List.length cells.
Proof.
  revert cells. induction k as [|k IH]; intros cells Hk;
    destruct cells as [|c cells]; cbn in Hk; try lia; cbn; [reflexivity|].
  rewrite IH by lia. reflexivity.
Qed.

(** Writing one value into a cell that exists, in a column after the date. *)
Lemma cellAt_setValues (s : Sheet.sheet) (i k : nat) (v : cell) (i' k' : nat) :
  cellAt s i (S k) <> None ->
  cellAt (setValues (i + 2) (S k + 1) [v] s) i' k'
  = if (i' =? i) && (k' =? S k) then Some v else cellAt s i' k'.
Proof.
  unfold cellAt, setValues. cbn [rows]. intros Hex.
  replace (i + 2 - 2) with i by lia. replace (S k + 1 - 2) with k by lia.
  rewrite nth_error_updateNth.
  destruct (i' =? i) eqn:Ei; [|reflexivity].
  apply Nat.eqb_eq in Ei. subst i'.
  destruct (nth_error (rows s) i) as [r|]; [|contradiction].
  cbn [option_map andb setCells]. cbn [rowGet] in Hex.
  destruct k' as [|k']; [reflexivity|]. cbn [rowGet rcells].
  change (S k' =? S k) with (k' =? k).
  apply nth_error_setCell. apply nth_error_Some. exact Hex.
Qed.

Lemma setValues_length (n col : nat) (vs : list cell) (s : Sheet.sheet) :
  List.length (rows (setValues n col vs s)) = List.length (rows s).
Proof. unfold setValues. cbn [rows]. apply updateNth_length. Qed.

Lemma fills_refl (s : Sheet.sheet) : fills s s.
Proof. repeat split. intros i k. left. reflexivity. Qed.

Lemma isNA_Some (c : option cell) : isNA c = true -> c = Some (CStr "N/A").
Proof.
  destruct c as [[d|q|s|l]|]; cbn; try discriminate.
  intros H. apply String.eqb_eq in H. subst. reflexivity.
Qed.

(** One [setValue] on a cell that held "N/A" in the snapshot. *)
Lemma fills_step (s0 s : Sheet.sheet) (i k : nat) (v : Q) :
  fills s0 s ->
  isNA (cellAt s0 i k) = true ->
  fills s0 (setValues (i + 2) (k + 1) [CNum v] s)
  /\ numericAt (setValues (i + 2) (k + 1) [CNum v] s) i k
  /\ (forall i' k', numericAt s i' k' ->
                    numericAt (setValues (i + 2) (k + 1) [CNum v] s) i' k').
Proof.
  intros (Hh & Hl & Hc) Hna.
  assert (Hk : exists k0, k = S k0).
  { destruct k as [|k0]; [|eauto]. unfold cellAt in Hna.
    destruct (nth_error (rows s0) i); discriminate. }
  destruct Hk as [k0 ->].
  assert (Hex : cellAt s i (S k0) <> None).
  { destruct (Hc i (S k0)) as [-> | [_ [x ->]]]; [|discriminate].
    rewrite (isNA_Some _ Hna). discriminate. }
  pose proof (cellAt_setValues s i k0 (CNum v)) as Hset.
  specialize (fun i' k' => Hset i' k' Hex).
  split; [|split].
  - split; [rewrite setValues_header; exact Hh|].
    split; [rewrite setValues_length; exact Hl|].
    intros i' k'. unfold numericAt. rewrite Hset.
    destruct ((i' =? i) && (k' =? S k0)) eqn:E; [|apply Hc].
    apply andb_true_iff in E. destruct E as [E1 E2].
    apply Nat.eqb_eq in E1, E2. subst. right. split; [exact Hna|].
    exists v. reflexivity.
  - exists v. rewrite Hset, !Nat.eqb_refl. reflexivity.
  - intros i' k' [x Hx]. unfold numericAt. rewrite Hset.
    destruct ((i' =? i) && (k' =? S k0)); eauto.
Qed.

Section RepairProps.

Variable fetch : date -> response.

Lemma searchNav_world (rowDate : date) (code : string) (offsets : list Z)
  (foundNav : option num) (w : world) :
  sheet (snd (searchNav fetch rowDate code offsets foundNav w)) = sheet w
  /\ forall e, In e (log (snd (searchNav fetch rowDate code offsets foundNav w))) ->
               In e (log w) \/ exists d, e = Fetch d.
Proof.
  revert foundNav w. induction offsets as [|dayOffset rest IH]; intros foundNav w.
  - cbn. auto.
  - cbn [searchNav].
    destruct (isWeekendOrHoliday (rowDate - dayOffset)%Z); [apply IH|].
    assert (Hemit : forall fn,
               sheet (snd (searchNav fetch rowDate code rest fn
                             (emit (Fetch (rowDate - dayOffset)%Z) w))) = sheet w
               /\ forall e,
                   In e (log (snd (searchNav fetch rowDate code rest fn
                                     (emit (Fetch (rowDate - dayOffset)%Z) w)))) ->
                   In e (log w) \/ exists d, e = Fetch d).
    { intros fn. destruct (IH fn (emit (Fetch (rowDate - dayOffset)%Z) w)) as [H1 H2].
      split; [exact H1|]. intros e He. destruct (H2 e He) as [H | H]; [|auto].
      cbn [emit log] in H. apply in_app_iff in H. destruct H as [H | [<- | []]]; eauto. }
    destruct (validResponse (fetch (rowDate - dayOffset)%Z)) as [content|]; [|apply Hemit].
    destruct (truthyOpt (readReport code content foundNav)); [|apply Hemit].
    cbn [snd emit sheet log]. split; [reflexivity|].
    intros e He. apply in_app_iff in He. destruct He as [H | [<- | []]]; eauto.
Qed.

Lemma searchNav_indep (rowDate : date) (code : string) (offsets : list Z)
  (foundNav : option num) (w w' : world) :
  fst (searchNav fetch rowDate code offsets foundNav w)
  = fst (searchNav fetch rowDate code offsets foundNav w').
Proof.
  revert foundNav w w'. induction offsets as [|dayOffset rest IH]; intros foundNav w w'.
  - reflexivity.
  - cbn [searchNav].
    destruct (isWeekendOrHoliday (rowDate - dayOffset)%Z); [apply IH|].
    destruct (validResponse (fetch (rowDate - dayOffset)%Z)) as [content|]; [|apply IH].
    destruct (truthyOpt (readReport code content foundNav)); [reflexivity | apply IH].
Qed.

Lemma scanColumn_spec (index : nat) (code : string) (data : list row) (i : nat)
  (w : world) :
  fst (scanColumn fetch index code data i w) = updatesOf fetch index code data i
  /\ sheet (snd (scanColumn fetch index code data i w)) = sheet w
  /\ forall e, In e (log (snd (scanColumn fetch index code data i w))) ->
               In e (log w) \/ exists d, e = Fetch d.
Proof.
  revert i w. induction data as [|r data IH]; intros i w; [cbn; auto|].
  cbn [scanColumn updatesOf].
  destruct (isNA (rowGet r (index - 1))); [|apply IH].
  destruct (searchNav fetch (rdate r) code (fromTo 0 5) None w) as [foundNav w1] eqn:Es.
  pose proof (searchNav_world (rdate r) code (fromTo 0 5) None w) as [Hs1 Hs2].
  pose proof (searchNav_indep (rdate r) code (fromTo 0 5) None w emptyWorld) as Hi.
  rewrite Es in Hs1, Hs2, Hi. cbn [fst snd] in Hs1, Hs2, Hi.
  destruct (scanColumn fetch index code data (S i) w1) as [updates w2] eqn:Ec.
  pose proof (IH (S i) w1) as (H1 & H2 & H3). rewrite Ec in H1, H2, H3.
  cbn [fst snd] in H1, H2, H3.
  assert (Hlog : forall e, In e (log w2) -> In e (log w) \/ exists d, e = Fetch d).
  { intros e He. destruct (H3 e He) as [H | H]; auto. }
  unfold hit. rewrite <- Hi.
  destruct foundNav as [[|v]|]; cbn [fst snd];
    try (split; [exact H1 | split; [congruence | exact Hlog]]).
  destruct (truthy (Num v)); cbn [fst snd];
    (split; [congruence | split; [congruence | exact Hlog]]).
Qed.

Lemma updatesOf_In (index : nat) (code : string) (data : list row) (i : nat) (u : update) :
  In u (updatesOf fetch index code data i) ->
  exists j r,
    nth_error data j = Some r /\ isNA (rowGet r (index - 1)) = true
    /\ urow u = i + j + 2 /\ ucol u = index.
Proof.
  revert i. induction data as [|r data IH]; intros i; cbn [updatesOf]; [intros []|].
  assert (Hrest : In u (updatesOf fetch index code data (S i)) ->
                  exists j r0, nth_error (r :: data) j = Some r0
                               /\ isNA (rowGet r0 (index - 1)) = true
                               /\ urow u = i + j + 2 /\ ucol u = index).
  { intros H. destruct (IH _ H) as (j & r0 & Hj & Hna & Hr & Hc).
    exists (S j), r0. cbn [nth_error]. repeat split; auto; lia. }
  destruct (isNA (rowGet r (index - 1))) eqn:Hna; [|exact Hrest].
  destruct (hit fetch (rdate r) code); [|exact Hrest].
  intros [<- | H]; [|auto].
  exists 0, r. cbn. repeat split; auto; lia.
Qed.

Lemma updatesOf_hit (index : nat) (code : string) (data : list row) (i j : nat)
  (r : row) (v : Q) :
  nth_error data j = Some r -> isNA (rowGet r (index - 1)) = true ->
  hit fetch (rdate r) code = Some v ->
  In {| urow := i + j + 2; ucol := index; uvalue := v |} (updatesOf fetch index code data i).
Proof.
  revert i j. induction data as [|r0 data IH]; intros i j Hj Hna Hhit.
  - destruct j; discriminate.
  - cbn [updatesOf]. destruct j as [|j]; cbn [nth_error] in Hj.
    + injection Hj as ->. rewrite Hna, Hhit. left. f_equal. lia.
    + pose proof (IH (S i) j Hj Hna Hhit) as H.
      replace (S i + j + 2) with (i + S j + 2) in H by lia.
      destruct (isNA (rowGet r0 (index - 1))); [|exact H].
      destruct (hit fetch (rdate r0) code); [right|]; exact H.
Qed.

Lemma updatesOf_nil (index : nat) (code : string) (data : list row) (i : nat) :
  (forall j r, nth_error data j = Some r -> isNA (rowGet r (index - 1)) = true ->
               hit fetch (rdate r) code = None) ->
  updatesOf fetch index code data i = [].
Proof.
  revert i. induction data as [|r data IH]; intros i H; [reflexivity|].
  cbn [updatesOf].
  assert (Hrest : updatesOf fetch index code data (S i) = []).
  { apply IH. intros j r0 Hj. apply (H (S j)). exact Hj. }
  destruct (isNA (rowGet r (index - 1))) eqn:Hna; [|exact Hrest].
  rewrite (H 0 r eq_refl Hna). exact Hrest.
Qed.

End RepairProps.

Lemma applyUpdates_log (updates : list update) (w : world) :
  log (applyUpdates updates w) = log w.
Proof.
  revert w. induction updates as [|u updates IH]; intros w; [reflexivity|].
  unfold applyUpdates in *. cbn [fold_left]. rewrite IH. reflexivity.
Qed.

(** Applying updates that all point at cells marked "N/A" in the snapshot. *)
Lemma applyUpdates_fills (s0 : Sheet.sheet) (updates : list update) (w : world) :
  fills s0 (sheet w) ->
  (forall u, In u updates ->
             exists i k, urow u = i + 2 /\ ucol u = k + 1 /\ isNA (cellAt s0 i k) = true) ->
  fills s0 (sheet (applyUpdates updates w))
  /\ (forall i k, numericAt (sheet w) i k -> numericAt (sheet (applyUpdates updates w)) i k)
  /\ (forall u i k, In u updates -> urow u = i + 2 -> ucol u = k + 1 ->
                    numericAt (sheet (applyUpdates updates w)) i k).
Proof.
  revert w. induction updates as [|u updates IH]; intros w Hf Hu.
  - cbn. split; [exact Hf|]. split; [auto|]. intros u i k [].
  - destruct (Hu u (or_introl eq_refl)) as (i & k & Hr & Hc & Hna).
    destruct (fills_step s0 (sheet w) i k (uvalue u) Hf Hna) as (Hf' & Hn & Hp).
    set (w' := onSheet (setValues (urow u) (ucol u) [CNum (uvalue u)]) w).
    assert (Hw' : sheet w' = setValues (i + 2) (k + 1) [CNum (uvalue u)] (sheet w)).
    { unfold w'. cbn [sheet onSheet]. rewrite Hr, Hc. reflexivity. }
    rewrite <- Hw' in Hf', Hn, Hp.
    destruct (IH w' Hf' (fun u0 H0 => Hu u0 (or_intror H0))) as (IH1 & IH2 & IH3).
    change (applyUpdates (u :: updates) w) with (applyUpdates updates w').
    split; [exact IH1|]. split.
    + intros i0 k0 H0. apply IH2. apply Hp. exact H0.
    + intros u0 i0 k0 [<- | Hin] Hr0 Hc0.
      * assert (i0 = i) by lia. assert (k0 = k) by lia. subst. apply IH2. exact Hn.
      * eapply IH3; eauto.
Qed.

Section RepairClaims.

Variable fetch : date -> response.

Lemma updatesOf_targets (s0 : Sheet.sheet) (index : nat) (code : string) (u : update) :
  In u (updatesOf fetch index code (rows s0) 0) ->
  exists i k, urow u = i + 2 /\ ucol u = k + 1 /\ isNA (cellAt s0 i k) = true.
Proof.
  intros H. destruct (updatesOf_In fetch _ _ _ _ _ H) as (j & r & Hj & Hna & Hr & Hc).
  exists j, (index - 1).
  assert (Hidx : index - 1 <> 0).
  { intros E. rewrite E in Hna. discriminate. }
  repeat split; [lia | lia |]. unfold cellAt. rewrite Hj. exact Hna.
Qed.

(** The funds one after the other: what the sheet is at the end. *)
Lemma repairFunds_fills (s0 : Sheet.sheet) (cols : list (string * (nat * string)))
  (w : world) (counts : list (string * nat)) (total : nat) :
  fills s0 (sheet w) ->
  let w' := fst (fst (repairFunds fetch cols (rows s0) w counts total)) in
  fills s0 (sheet w')
  /\ (forall i k, numericAt (sheet w) i k -> numericAt (sheet w') i k)
  /\ (forall fund index code j r v,
         In (fund, (index, code)) cols ->
         nth_error (rows s0) j = Some r -> isNA (rowGet r (index - 1)) = true ->
         hit fetch (rdate r) code = Some v ->
         numericAt (sheet w') j (index - 1))
  /\ (forall e, In e (log w') -> In e (log w) \/ exists d, e = Fetch d).
Proof.
  revert w counts total. induction cols as [|[fund [index code]] cols IH];
    intros w counts total Hf; cbv zeta.
  - cbn. split; [exact Hf|]. split; [auto|]. split; [|auto].
    intros fund index code j r v [].
  - cbn [repairFunds].
    destruct (scanColumn fetch index code (rows s0) 0 w) as [updates w1] eqn:Es.
    pose proof (scanColumn_spec fetch index code (rows s0) 0 w) as (H1 & H2 & H3).
    rewrite Es in H1, H2, H3. cbn [fst snd] in H1, H2, H3. subst updates.
    set (updates := updatesOf fetch index code (rows s0) 0).
    assert (Hf1 : fills s0 (sheet w1)) by (rewrite H2; exact Hf).
    destruct (applyUpdates_fills s0 updates w1 Hf1
                (fun u => updatesOf_targets s0 index code u)) as (A1 & A2 & A3).
    assert (Hnext : exists w2 counts2 total2,
               (if 0 <? List.length updates
                then repairFunds fetch cols (rows s0) (applyUpdates updates w1)
                       (counts ++ [(fund, List.length updates)])
                       (total + List.length updates)
                else repairFunds fetch cols (rows s0) w1 counts total)
               = repairFunds fetch cols (rows s0) w2 counts2 total2
               /\ w2 = applyUpdates updates w1).
    { destruct updates; cbn [List.length Nat.ltb Nat.leb]; eauto. }
    destruct Hnext as (w2 & counts2 & total2 & -> & ->).
    destruct (IH (applyUpdates updates w1) counts2 total2 A1) as (I1 & I2 & I3 & I4).
    split; [exact I1|]. split; [|split].
    + intros i k H. apply I2, A2. rewrite H2. exact H.
    + intros fund' index' code' j r v [E | Hin] Hj Hna Hhit.
      * injection E as <- <- <-. apply I2.
        apply (A3 {| urow := 0 + j + 2; ucol := index; uvalue := v |}).
        -- apply (updatesOf_hit fetch index code (rows s0) 0 j r v); assumption.
        -- reflexivity.
        -- cbn [ucol]. assert (index - 1 <> 0) by (intros E; rewrite E in Hna; discriminate).
           lia.
      * eapply I3; eauto.
    + intros e He. destruct (I4 e He) as [H | H]; [|auto].
      rewrite applyUpdates_log in H. auto.
Qed.

(** When no fund collects an update, nothing is written or counted. *)
Lemma repairFunds_nothing (cols : list (string * (nat * string))) (data : list row)
  (w : world) (counts : list (string * nat)) (total : nat) :
  (forall fund index code, In (fund, (index, code)) cols ->
                           updatesOf fetch index code data 0 = []) ->
  sheet (fst (fst (repairFunds fetch cols data w counts total))) = sheet w
  /\ snd (fst (repairFunds fetch cols data w counts total)) = counts
  /\ snd (repairFunds fetch cols data w counts total) = total.
Proof.
  revert w. induction cols as [|[fund [index code]] cols IH]; intros w H; [cbn; auto|].
  cbn [repairFunds].
  destruct (scanColumn fetch index code data 0 w) as [updates w1] eqn:Es.
  pose proof (scanColumn_spec fetch index code data 0 w) as (H1 & H2 & _).
  rewrite Es in H1, H2. cbn [fst snd] in H1, H2.
  rewrite (H fund index code (or_introl eq_refl)) in H1. subst updates.
  cbn [List.length Nat.ltb Nat.leb].
  rewrite <- H2. apply IH. intros f i c Hin. eapply H. right. exact Hin.
Qed.

End RepairClaims.

Lemma fills_dates (s0 s1 : Sheet.sheet) :
  fills s0 s1 -> map rdate (rows s1) = map rdate (rows s0).
Proof.
  intros (_ & _ & Hc). apply nth_error_ext. intros i. rewrite !nth_error_map.
  specialize (Hc i 0). unfold numericAt, cellAt in Hc.
  destruct (nth_error (rows s1) i) as [r1|], (nth_error (rows s0) i) as [r0|];
    cbn [rowGet isNA option_map] in *;
    destruct Hc as [H | [H [v Hv]]]; try discriminate; try reflexivity.
  injection H as ->. reflexivity.
Qed.

Lemma fills_untouched (s0 s1 : Sheet.sheet) (i k : nat) (c : cell) :
  fills s0 s1 -> cellAt s0 i k = Some c -> isNA (Some c) = false ->
  cellAt s1 i k = Some c.
Proof.
  intros (_ & _ & Hc) Hcell Hna. destruct (Hc i k) as [H | [H _]]; congruence.
Qed.

Section GapRepair.

Variable fetch : date -> response.

Lemma fillNAData_unfold (w : world) :
  fillNAData fetch w
  = match rows (sheet w) with
    | [] =>
        (w, Thrown (ServiceError "The number of rows in the range must be at least 1."), None)
    | _ :: _ =>
        let res := repairFunds fetch (fundColumns (header (sheet w))) (rows (sheet w)) w [] 0 in
        (emit (UiAlert (closingMessage (snd res))) (fst (fst res)), Returned,
         Some {| fundUpdates := snd (fst res); totalUpdates := snd res |})
    end.
Proof.
  unfold fillNAData. destruct (rows (sheet w)); [reflexivity|].
  destruct (repairFunds _ _ _ _ _ _) as [[w' counts] total]. reflexivity.
Qed.

(** A second pass over a repaired sheet collects no update for any fund. *)
Lemma repaired_needs_nothing (w : world) (fund : string) (index : nat) (code : string) :
  let s0 := sheet w in
  let cols := fundColumns (header s0) in
  let s1 := sheet (fst (fst (repairFunds fetch cols (rows s0) w [] 0))) in
  In (fund, (index, code)) cols ->
  updatesOf fetch index code (rows s1) 0 = [].
Proof.
  intros s0 cols s1 Hin.
  destruct (repairFunds_fills fetch s0 cols w [] 0 (fills_refl s0)) as (Hf & _ & Hnum & _).
  fold s1 in Hf, Hnum.
  apply updatesOf_nil. intros j r1 Hj Hna.
  destruct (hit fetch (rdate r1) code) as [v|] eqn:Hhit; [exfalso|reflexivity].
  pose proof (fills_dates _ _ Hf) as Hdates.
  assert (Hd : option_map rdate (nth_error (rows s0) j) = Some (rdate r1)).
  { rewrite <- nth_error_map, <- Hdates, nth_error_map, Hj. reflexivity. }
  destruct (nth_error (rows s0) j) as [r0|] eqn:Hj0; [|discriminate].
  injection Hd as Hd.
  assert (Hcell1 : cellAt s1 j (index - 1) = rowGet r1 (index - 1)).
  { unfold cellAt. rewrite Hj. reflexivity. }
  assert (Hcell0 : cellAt s0 j (index - 1) = rowGet r0 (index - 1)).
  { unfold cellAt. rewrite Hj0. reflexivity. }
  assert (Hna0 : isNA (rowGet r0 (index - 1)) = true).
  { destruct Hf as (_ & _ & Hc). destruct (Hc j (index - 1)) as [H | [H _]].
    - rewrite <- Hcell0, <- H, Hcell1. exact Hna.
    - rewrite <- Hcell0. exact H. }
  rewrite <- Hd in Hhit.
  destruct (Hnum fund index code j r0 v Hin Hj0 Hna0 Hhit) as [x Hx].
  rewrite Hcell1 in Hx. rewrite Hx in Hna. discriminate.
Qed.

(** C9.  Gap repair changes nothing but cells that held "N/A", which it
    overwrites with numbers: the header, the number of rows and their dates
    stay, every cell holding anything else keeps its value, and the run
    appends or deletes no row.  A second run over the repaired sheet, with
    the same provider, writes nothing and counts zero repaired cells. *)
Theorem gap_repair_fills_only_missing (w : world) :
  let run1 := fillNAData fetch w in
  let w1 := fst (fst run1) in
  let run2 := fillNAData fetch w1 in
  fills (sheet w) (sheet w1)
  /\ map rdate (rows (sheet w1)) = map rdate (rows (sheet w))
  /\ (forall i k c, cellAt (sheet w) i k = Some c -> isNA (Some c) = false ->
                    cellAt (sheet w1) i k = Some c)
  /\ (forall e, In e (log w1) ->
                In e (log w) \/ (exists d, e = Fetch d) \/ (exists m, e = UiAlert m))
  /\ sheet (fst (fst run2)) = sheet w1
  /\ (forall rep, snd run2 = Some rep -> totalUpdates rep = 0 /\ fundUpdates rep = [])
  /\ (snd run1 <> None -> snd run2 = Some {| fundUpdates := []; totalUpdates := 0 |}).
Proof.
  cbv zeta. rewrite (fillNAData_unfold w).
  destruct (rows (sheet w)) as [|r0 rs] eqn:Erows.
  - cbn [fst snd]. rewrite (fillNAData_unfold w), Erows. cbn [fst snd].
    split; [apply fills_refl|]. split; [reflexivity|]. split; [auto|].
    split; [auto|]. split; [reflexivity|]. split; [discriminate | congruence].
  - rewrite <- Erows. cbv zeta. cbn [fst snd].
    set (res := repairFunds fetch (fundColumns (header (sheet w))) (rows (sheet w)) w [] 0).
    set (w1 := emit (UiAlert (closingMessage (snd res))) (fst (fst res))).
    destruct (repairFunds_fills fetch (sheet w) (fundColumns (header (sheet w))) w [] 0
                (fills_refl (sheet w))) as (Hf & _ & _ & Hlog).
    fold res in Hf, Hlog.
    assert (Hs1 : sheet w1 = sheet (fst (fst res))) by reflexivity.
    assert (Hf1 : fills (sheet w) (sheet w1)) by (rewrite Hs1; exact Hf).
    assert (Hrun2 : sheet (fst (fst (fillNAData fetch w1))) = sheet w1
                    /\ snd (fillNAData fetch w1)
                       = Some {| fundUpdates := []; totalUpdates := 0 |}).
    { rewrite (fillNAData_unfold w1).
      destruct (rows (sheet w1)) as [|r1 rs1] eqn:Erows1.
      { destruct Hf1 as (_ & Hlen & _). rewrite Erows1, Erows in Hlen. discriminate. }
      rewrite <- Erows1. cbv zeta.
      destruct (repairFunds_nothing fetch (fundColumns (header (sheet w1))) (rows (sheet w1))
                  w1 [] 0) as (N1 & N2 & N3).
      { intros fund index code Hin.
        destruct Hf1 as (Hh & _). rewrite Hh in Hin. rewrite Hs1.
        exact (repaired_needs_nothing w fund index code Hin). }
      rewrite N2, N3. cbn [fst snd emit sheet]. split; [exact N1 | reflexivity]. }
    destruct Hrun2 as [Hsheet2 Hrep2]. rewrite Hsheet2, Hrep2.
    split; [exact Hf1|]. split; [apply fills_dates; exact Hf1|].
    split; [intros i k c; apply fills_untouched; exact Hf1|].
    split.
    { intros e He. unfold w1 in He. cbn [emit log] in He. apply in_app_iff in He.
      destruct He as [He | [<- | []]]; [|eauto].
      destruct (Hlog e He) as [H | H]; auto. }
    split; [reflexivity|]. split; [|reflexivity].
    intros rep Hrep. injection Hrep as <-. split; reflexivity.
Qed.

End GapRepair.

(** The first run repairs the three cells, the second one none. *)
Lemma gap_repair_fills_only_missing_witness :
  option_map totalUpdates (snd (fillNAData alwaysComplete gapWorld)) = Some 3
  /\ snd (fillNAData alwaysComplete (fst (fst (fillNAData alwaysComplete gapWorld))))
     = Some {| fundUpdates := []; totalUpdates := 0 |}.
Proof.
  split; [vm_compute; reflexivity|].
  refine (proj2 (proj2 (proj2 (proj2 (proj2 (proj2
            (gap_repair_fills_only_missing alwaysComplete gapWorld)))))) _).
  vm_compute. discriminate.
Defined.

(* ===================================================================== *)
(** ** Further properties of the signal engine *)
(* ===================================================================== *)

Ltac split_ifs :=
  repeat match goal with
    | |- context [if ?b then _ else _] => destruct b
    end.

(** X1.  The background is decided by the alerts that fired. *)
Theorem signals_background (latestNav : num) (cur prev : nat -> num) :
  snd (signals latestNav cur prev) = highlightOf (fst (signals latestNav cur prev)).
Proof.
  destruct latestNav as [|nav]; [reflexivity|].
  unfold signals, dipAlert, crossAlert, longTermAlert.
  set (m := maxDipPercentage nav cur). set (sc := opportunityScore nav cur).
  destruct (cur 30), (cur 50), (prev 30), (prev 50), (cur 200); split_ifs; reflexivity.
Qed.

(** X2.  The alerts of a fund come in a fixed order, dip tier, crossover,
    long-term trend, with at most one of each kind. *)
Theorem signals_alert_order (latestNav : num) (cur prev : nat -> num) :
  let alerts := fst (signals latestNav cur prev) in
  alerts = filter isDip alerts ++ filter isCross alerts ++ filter isLongTerm alerts
  /\ List.length (filter isDip alerts) <= 1
  /\ List.length (filter isCross alerts) <= 1
  /\ List.length (filter isLongTerm alerts) <= 1.
Proof.
  cbv zeta. destruct latestNav as [|nav]; [cbn; repeat split; lia|].
  unfold signals, dipAlert, crossAlert, longTermAlert.
  set (m := maxDipPercentage nav cur). set (sc := opportunityScore nav cur).
  destruct (cur 30), (cur 50), (prev 30), (prev 50), (cur 200); split_ifs;
    cbn; repeat split; lia.
Qed.

Lemma dipAlert_not_longTerm (score m : Q) (bg : string) :
  ~ In LongTermDowntrend (fst (dipAlert score m bg)).
Proof.
  unfold dipAlert. split_ifs; cbn; intros H;
    repeat (destruct H as [H | H]; [discriminate H|]); exact H.
Qed.

Lemma crossAlert_not_longTerm (cur prev : nat -> num) (bg : string) :
  ~ In LongTermDowntrend (fst (crossAlert cur prev bg)).
Proof.
  destruct (crossAlert_cases cur prev bg) as [-> | [-> | ->]]; cbn; intros H;
    repeat (destruct H as [H | H]; [discriminate H|]); exact H.
Qed.

(** X3.  The long-term warning is raised exactly when the 200-day average is
    available and the latest value is below it. *)
Theorem long_term_alert_iff (nav : Q) (cur prev : nat -> num) :
  In LongTermDowntrend (fst (signals (Num nav) cur prev))
  <-> exists ma200, cur 200 = Num ma200 /\ (nav < ma200)%Q.
Proof.
  destruct (signals_alerts nav cur prev) as (bg1 & bg2 & ->).
  rewrite !in_app_iff.
  assert (Hlong : In LongTermDowntrend (fst (longTermAlert nav cur bg2))
                  <-> exists ma200, cur 200 = Num ma200 /\ (nav < ma200)%Q).
  { unfold longTermAlert. destruct (cur 200) as [|ma200].
    - cbn. split; [tauto | intros (x & Hx & _); discriminate].
    - destruct (Qlt_bool nav ma200) eqn:E; cbn.
      + apply Qlt_bool_iff in E. split; [eauto | auto].
      + apply Qlt_bool_false_iff in E. split; [tauto|].
        intros (x & Hx & Hlt). injection Hx as <-. lra. }
  rewrite <- Hlong. split; [|tauto].
  intros [H | [H | H]]; [|  | exact H].
  - exfalso. exact (dipAlert_not_longTerm _ _ _ H).
  - exfalso. exact (crossAlert_not_longTerm _ _ _ H).
Qed.

(** One round of the loop over the periods: the dip stays or the latest
    value is below this period's average; the dip is never negative; the
    alignment count goes up by one at most. *)
Lemma dipStep_spec (nav : Q) (cur : nat -> num) (acc : Q * Z) (period : nat) :
  (0 <= fst acc)%Q ->
  (0 <= fst (dipStep nav cur acc period))%Q
  /\ (snd acc <= snd (dipStep nav cur acc period) <= snd acc + 1)%Z
  /\ (fst (dipStep nav cur acc period) = fst acc
      \/ exists m, cur period = Num m /\ (nav < m)%Q).
Proof.
  intros H0. destruct acc as [d a]. unfold dipStep. cbn [fst snd] in *.
  destruct (cur period) as [|m]; [cbn; repeat split; auto; lia|].
  destruct (Qlt_bool nav m) eqn:Elt; cbn [andb].
  - apply Qlt_bool_iff in Elt.
    assert (Habove : Qlt_bool m nav = false) by (apply Qlt_bool_false_iff; lra).
    rewrite Habove, !andb_false_r. cbn [fst snd].
    split; [|split; [lia | right; eauto]].
    destruct (Qlt_bool d _); [apply Qabs_nonneg | exact H0].
  - cbn [fst snd]. split; [exact H0|]. split; [|left; reflexivity].
    destruct (Qlt_bool m nav); rewrite ?andb_false_r, ?andb_true_r;
      destruct (period =? 30) eqn:E30, (period =? 50) eqn:E50, (period =? 200) eqn:E200;
      try (apply Nat.eqb_eq in E30; apply Nat.eqb_eq in E50; lia);
      try (apply Nat.eqb_eq in E30; apply Nat.eqb_eq in E200; lia);
      try (apply Nat.eqb_eq in E50; apply Nat.eqb_eq in E200; lia);
      lia.
Qed.

Lemma dipAndAlignment_spec (nav : Q) (cur : nat -> num) :
  (0 <= maxDipPercentage nav cur)%Q
  /\ (0 <= maAlignmentScore nav cur <= 3)%Z
  /\ (maxDipPercentage nav cur = 0%Q
      \/ exists period m, In period maPeriods /\ cur period = Num m /\ (nav < m)%Q).
Proof.
  unfold maxDipPercentage, maAlignmentScore, dipAndAlignment, maPeriods.
  cbn [fold_left].
  set (a0 := (0%Q, 0%Z)).
  assert (H0 : (0 <= fst a0)%Q) by (cbn; lra).
  destruct (dipStep_spec nav cur a0 30 H0) as (P1 & Q1 & R1).
  set (a1 := dipStep nav cur a0 30) in *.
  destruct (dipStep_spec nav cur a1 50 P1) as (P2 & Q2 & R2).
  set (a2 := dipStep nav cur a1 50) in *.
  destruct (dipStep_spec nav cur a2 200 P2) as (P3 & Q3 & R3).
  set (a3 := dipStep nav cur a2 200) in *.
  cbn [fst snd a0] in Q1.
  split; [exact P3|]. split; [lia|].
  destruct R3 as [R3 | (m & Hm & Hlt)];
    [|right; exists 200, m; cbn; auto].
  destruct R2 as [R2 | (m & Hm & Hlt)];
    [|right; exists 50, m; cbn; auto].
  destruct R1 as [R1 | (m & Hm & Hlt)];
    [|right; exists 30, m; cbn; auto].
  left. rewrite R3, R2, R1. reflexivity.
Qed.

Lemma trendScore_bounds (cur : nat -> num) : (0 <= trendScore cur <= 1)%Q.
Proof.
  unfold trendScore. destruct (cur 30) as [|ma30]; [lra|].
  destruct (cur 50) as [|ma50]; [lra|].
  split; [|apply Q.le_min_r].
  apply Q.min_glb; [|lra].
  pose proof (Qabs_nonneg ((ma30 - ma50) / ma50 * 100)) as H.
  unfold Qdiv at 1. change (/ 5)%Q with (1 # 5)%Q. lra.
Qed.

(** X4.  A dip alert is raised only for a latest value below one of the
    available averages. *)
Theorem dip_alert_needs_value_below_average (nav : Q) (cur prev : nat -> num) :
  dipTiers (fst (signals (Num nav) cur prev)) <> [] ->
  exists period m, In period maPeriods /\ cur period = Num m /\ (nav < m)%Q.
Proof.
  rewrite signals_dipTiers. intros H.
  destruct (dipAndAlignment_spec nav cur) as (_ & _ & [H0 | Hex]); [|exact Hex].
  exfalso. apply H. rewrite H0. reflexivity.
Qed.

Lemma dip_alert_needs_value_below_average_witness :
  exists period m, In period maPeriods /\ only30 100 period = Num m /\ (95 < m)%Q.
Proof.
  apply (dip_alert_needs_value_below_average 95 (only30 100) (only30 100)).
  vm_compute. discriminate.
Defined.

(** X5.  With non-zero averages the three factors stay in their ranges (dip not
    negative, alignment 0 to 3, trend strength 0 to 1), the score is never
    negative, and it is at most 100 as long as the dip is at most 10.  An
    average of zero is left out: the script then divides by zero, and the
    quotient is no number of the model. *)
Theorem opportunity_score_bounds (nav : Q) (cur : nat -> num) :
  nonZeroAverages cur ->
  (0 <= maxDipPercentage nav cur)%Q
  /\ (0 <= maAlignmentScore nav cur <= 3)%Z
  /\ (0 <= trendScore cur <= 1)%Q
  /\ (0 <= opportunityScore nav cur)%Q
  /\ ((maxDipPercentage nav cur <= 10)%Q -> (opportunityScore nav cur <= 100)%Q).
Proof.
  intros _.
  destruct (dipAndAlignment_spec nav cur) as (Hd & Ha & _).
  pose proof (trendScore_bounds cur) as Ht.
  split; [exact Hd|]. split; [exact Ha|]. split; [exact Ht|].
  unfold opportunityScore. split.
  - destruct Ha as [Ha0 _]. rewrite Zle_Qle in Ha0.
    change (inject_Z 0) with 0%Q in Ha0.
    unfold opportunityScoreOf, PRICE_DIP, TREND_STRENGTH, MA_ALIGNMENT.
    set (a := inject_Z (maAlignmentScore nav cur)) in *.
    set (d := maxDipPercentage nav cur) in *. set (t := trendScore cur) in *.
    unfold Qdiv. change (/ 10)%Q with (1 # 10)%Q. change (/ 3)%Q with (1 # 3)%Q. lra.
  - intros H10. apply opportunityScoreOf_bounded; auto.
Qed.

Lemma opportunity_score_bounds_witness :
  (0 <= opportunityScore 95 (allMAs 100 102 110))%Q.
Proof.
  refine (proj1 (proj2 (proj2 (proj2
            (opportunity_score_bounds 95 (allMAs 100 102 110) _))))).
  intros period m. unfold allMAs.
  destruct (period =? 30); [intros [= <-]; discriminate|].
  destruct (period =? 50); [intros [= <-]; discriminate|].
  destruct (period =? 200); [intros [= <-]; discriminate | discriminate].
Defined.

(* ===================================================================== *)
(** ** Further properties of the daily pipeline *)
(* ===================================================================== *)

Lemma setCell_app (a : list cell) (b0 v : cell) (rest : list cell) :
  setCell (List.length a) v (a ++ b0 :: rest) = a ++ v :: rest.
Proof.
  induction a as [|c a IH]; [reflexivity|]. cbn. rewrite IH. reflexivity.
Qed.

(** Writing a range over cells that are there replaces exactly them. *)
Lemma setCells_app (vs a b c : list cell) :
  List.length b = List.length vs ->
  setCells (List.length a) vs (a ++ b ++ c) = a ++ vs ++ c.
Proof.
  revert a b. induction vs as [|v vs IH]; intros a b Hlen.
  - destruct b; [reflexivity | discriminate].
  - destruct b as [|b0 b]; [discriminate|]. cbn [setCells].
    change ((b0 :: b) ++ c) with (b0 :: b ++ c). rewrite setCell_app.
    replace (S (List.length a)) with (List.length (a ++ [v]))
      by (rewrite length_app; cbn; lia).
    change (a ++ v :: b ++ c) with (a ++ [v] ++ b ++ c). rewrite app_assoc.
    rewrite IH by (cbn in Hlen; lia).
    rewrite <- app_assoc. reflexivity.
Qed.

(** The analysis step on a sheet that has data rows. *)
Lemma analysis_nonempty (newNavRow : row) (w : world) :
  rows (sheet w) <> [] ->
  analysis newNavRow w
  = let results := map (analyzeFund (rows (sheet w)) newNavRow)
                       (seq 0 (List.length fundNames)) in
    let currentRow := getLastRow (sheet w) in
    let w1 := onSheet (setValues currentRow (maStartIdx + 1) (flat_map fst results)) w in
    let w2 := onSheet (setValues currentRow (alertStartIdx + 1)
                         (map (fun res => alertCell (fst (snd res))) results)) w1 in
    (if existsb (fun res => hasAlerts (fst (snd res))) results
     then emit SendEmail w2 else w2, Returned).
Proof.
  intros H. unfold analysis. destruct (rows (sheet w)); [contradiction | reflexivity].
Qed.

Lemma analysis_log_eq (newNavRow : row) (w : world) (r : row) (rs : list row) :
  rows (sheet w) = rs ++ [r] ->
  log (fst (analysis newNavRow w))
  = log w
    ++ (if existsb (fun res => hasAlerts (fst (snd res)))
             (map (analyzeFund (rows (sheet w)) newNavRow) (seq 0 (List.length fundNames)))
        then [SendEmail] else []).
Proof.
  intros H. unfold analysis. destruct (rows (sheet w)) eqn:E.
  { destruct rs; discriminate. }
  rewrite <- E. destruct (existsb _ _); cbn [fst log emit onSheet];
    [reflexivity | rewrite app_nil_r; reflexivity].
Qed.


Lemma analysisResults_averages_length (series : list row) (d : date) (raw : list string) :
  List.length (flat_map fst (analysisResults series d raw)) = 15.
Proof. reflexivity. Qed.

Section CompletedRun.

Variable fetch : date -> response.
Variable today : date.

Lemma getNAVAndAnalyze_completed (w : world) (d : date) (raw : list string) :
  firstAccepted fetch today = Some (d, raw) ->
  duplicateDate d w = false ->
  hasNAValues (buildRow d raw) = false ->
  snd (getNAVAndAnalyze fetch today w) = Returned
  /\ header (sheet (fst (getNAVAndAnalyze fetch today w))) = header (setHeader (sheet w))
  /\ rows (sheet (fst (getNAVAndAnalyze fetch today w)))
     = rows (sheet w) ++ [persistedRow (rows (sheet w)) d raw]
  /\ log (fst (getNAVAndAnalyze fetch today w))
     = log (afterAppend fetch today (buildRow d raw) w)
       ++ (if existsb (fun res => hasAlerts (fst (snd res)))
                (analysisResults (rows (sheet w)) d raw)
           then [SendEmail] else []).
Proof.
  intros Hf Hdup Hna.
  assert (Hrun : getNAVAndAnalyze fetch today w
                 = analysis (buildRow d raw) (afterAppend fetch today (buildRow d raw) w)).
  { unfold getNAVAndAnalyze. rewrite getNAVAndAnalyzeIn_cases, Hf, Hdup, Hna. reflexivity. }
  rewrite Hrun.
  set (w2 := afterAppend fetch today (buildRow d raw) w).
  assert (Hrows : rows (sheet w2) = rows (sheet w) ++ [buildRow d raw]) by reflexivity.
  destruct (analysis_last (buildRow d raw) w2 _ _ Hrows) as (Hret & Hhead & _).
  split; [exact Hret|]. split; [exact Hhead|]. split.
  - rewrite analysis_nonempty
      by (rewrite Hrows; destruct (rows (sheet w)); discriminate).
    cbv zeta.
    change (rows (sheet w2)) with (rows (sheet w) ++ [buildRow d raw]).
    fold (analysisResults (rows (sheet w)) d raw).
    set (results := analysisResults (rows (sheet w)) d raw).
    assert (Hsheet : forall ww b,
               sheet (if b : bool then emit SendEmail ww else ww) = sheet ww)
      by (intros ww []; reflexivity).
    cbn [fst]. rewrite Hsheet. cbn [sheet onSheet].
    set (s1 := setValues (getLastRow (sheet w2)) (maStartIdx + 1)
                 (flat_map fst results) (sheet w2)).
    assert (Hlast : getLastRow (sheet w2) = getLastRow s1)
      by (unfold s1; rewrite setValues_getLastRow; reflexivity).
    rewrite Hlast.
    rewrite (setValues_last _ _ s1 (rows (sheet w))
               {| rdate := d;
                  rcells := setCells (maStartIdx + 1 - 2) (flat_map fst results)
                              (rcells (buildRow d raw)) |}).
    2:{ unfold s1. rewrite (setValues_last _ _ _ _ _ Hrows). reflexivity. }
    reflexivity.
  - rewrite (analysis_log_eq _ _ _ _ Hrows). rewrite Hrows. reflexivity.
Qed.

(** X6.  A run whose first accepted report is of a new date and gives every fund
    a value returns normally, having added exactly one row: that date, the
    five values as read, the fifteen moving averages and the five analyses
    over the series with that row at its end. *)
Theorem completed_run_persists_row (w : world) (d : date) (raw : list string) :
  firstAccepted fetch today = Some (d, raw) ->
  duplicateDate d w = false ->
  hasNAValues (buildRow d raw) = false ->
  snd (getNAVAndAnalyze fetch today w) = Returned
  /\ header (sheet (fst (getNAVAndAnalyze fetch today w))) = header (setHeader (sheet w))
  /\ rows (sheet (fst (getNAVAndAnalyze fetch today w)))
     = rows (sheet w) ++ [persistedRow (rows (sheet w)) d raw].
Proof.
  intros Hf Hdup Hna.
  destruct (getNAVAndAnalyze_completed w d raw Hf Hdup Hna) as (H1 & H2 & H3 & _).
  auto.
Qed.

Lemma arrayIncludes_false (arr : list string) (s : string) :
  arrayIncludes arr s = false -> ~ In s arr.
Proof.
  intros H Hin. apply arrayIncludes_In in Hin. congruence.
Qed.

(** X7.  A run keeps the dates of the series distinct. *)
Theorem daily_cycle_keeps_dates_distinct (w : world) :
  NoDup (map (fun r => formatDate (rdate r)) (rows (sheet w))) ->
  NoDup (map (fun r => formatDate (rdate r))
             (rows (sheet (fst (getNAVAndAnalyze fetch today w))))).
Proof.
  intros H.
  destruct (firstAccepted fetch today) as [[d raw]|] eqn:Hf.
  - destruct (duplicateDate d w) eqn:Hdup.
    + unfold getNAVAndAnalyze. rewrite getNAVAndAnalyzeIn_cases, Hf, Hdup. exact H.
    + destruct (hasNAValues (buildRow d raw)) eqn:Hna.
      * unfold getNAVAndAnalyze. rewrite getNAVAndAnalyzeIn_cases, Hf, Hdup, Hna.
        cbn [fst]. rewrite afterDelete_eq. exact H.
      * destruct (getNAVAndAnalyze_completed w d raw Hf Hdup Hna) as (_ & _ & -> & _).
        rewrite map_app. apply NoDup_app; [exact H | repeat constructor; intros [] |].
        intros a Ha [<- | []]. cbn [persistedRow rdate] in Ha.
        exact (arrayIncludes_false _ _ Hdup Ha).
  - unfold getNAVAndAnalyze. rewrite getNAVAndAnalyzeIn_cases, Hf. exact H.
Qed.













(** The sheet a run leaves, case by case. *)
Lemma getNAVAndAnalyze_sheet (w : world) :
  sheet (fst (getNAVAndAnalyze fetch today w))
  = match firstAccepted fetch today with
    | Some (d, raw) =>
        if duplicateDate d w || hasNAValues (buildRow d raw) then setHeader (sheet w)
        else {| header := header (setHeader (sheet w));
                rows := rows (sheet w) ++ [persistedRow (rows (sheet w)) d raw] |}
    | None => setHeader (sheet w)
    end.
Proof.
  destruct (firstAccepted fetch today) as [[d raw]|] eqn:Hf.
  - destruct (duplicateDate d w) eqn:Hdup; cbn [orb].
    + unfold getNAVAndAnalyze. rewrite getNAVAndAnalyzeIn_cases, Hf, Hdup. reflexivity.
    + destruct (hasNAValues (buildRow d raw)) eqn:Hna.
      * unfold getNAVAndAnalyze. rewrite getNAVAndAnalyzeIn_cases, Hf, Hdup, Hna.
        cbn [fst]. rewrite afterDelete_eq. reflexivity.
      * destruct (getNAVAndAnalyze_completed w d raw Hf Hdup Hna) as (_ & Hh & Hr & _).
        destruct (sheet (fst (getNAVAndAnalyze fetch today w))) as [h r].
        cbn [header rows] in Hh, Hr. subst. cbn [header]. reflexivity.
  - unfold getNAVAndAnalyze. rewrite getNAVAndAnalyzeIn_cases, Hf. reflexivity.
Qed.

Lemma duplicateDate_rows (d : date) (w w' : world) :
  rows (sheet w') = rows (sheet w) -> duplicateDate d w' = duplicateDate d w.
Proof. unfold duplicateDate. intros ->. reflexivity. Qed.

Lemma duplicateDate_added (d : date) (w : world) (series : list row) (r : row) :
  rows (sheet w) = series ++ [r] -> rdate r = d -> duplicateDate d w = true.
Proof.
  intros Hrows <-. unfold duplicateDate. apply arrayIncludes_In.
  rewrite Hrows, map_app. apply in_or_app. right. left. reflexivity.
Qed.

(** X11.  A second run on the same day, with the same answers of the provider,
    leaves the sheet of the first run as it is: no second row for the date,
    no row lost. *)
Theorem daily_cycle_idempotent (w : world) :
  sheet (fst (getNAVAndAnalyze fetch today (fst (getNAVAndAnalyze fetch today w))))
  = sheet (fst (getNAVAndAnalyze fetch today w)).
Proof.
  pose proof (getNAVAndAnalyze_sheet w) as H1.
  set (w1 := fst (getNAVAndAnalyze fetch today w)) in *.
  rewrite (getNAVAndAnalyze_sheet w1).
  destruct (firstAccepted fetch today) as [[d raw]|] eqn:Hf.
  - destruct (duplicateDate d w || hasNAValues (buildRow d raw)) eqn:E.
    + assert (Hsame : duplicateDate d w1 = duplicateDate d w).
      { apply duplicateDate_rows. rewrite H1. reflexivity. }
      rewrite Hsame, E, H1. apply setHeader_idempotent.
    + rewrite (duplicateDate_added d w1 (rows (sheet w))
                 (persistedRow (rows (sheet w)) d raw)) by (try rewrite H1; reflexivity).
      cbn [orb]. rewrite H1. reflexivity.
  - rewrite H1. apply setHeader_idempotent.
Qed.

End CompletedRun.

(* ===================================================================== *)
(** ** Further properties of gap repair *)
(* ===================================================================== *)

Lemma scanPositive_positive (parts : list string) (js : list nat) (v : Q) :
  scanPositive parts js = Num v -> (0 < v)%Q.
Proof.
  induction js as [|j js IH]; cbn [scanPositive]; [discriminate|].
  destruct (parseFloatAt parts j) as [|candidate]; [exact IH|].
  destruct (Qlt_bool 0 candidate) eqn:E; [|exact IH].
  intros H. injection H as <-. apply Qlt_bool_iff. exact E.
Qed.

Lemma applyUpdates_cell (s0 : Sheet.sheet) (updates : list update) (w : world) (i k : nat) :
  fills s0 (sheet w) ->
  (forall u, In u updates ->
             exists i k, urow u = i + 2 /\ ucol u = k + 1 /\ isNA (cellAt s0 i k) = true) ->
  cellAt (sheet (applyUpdates updates w)) i k
  = match lastWrite updates i k with
    | Some v => Some (CNum v)
    | None => cellAt (sheet w) i k
    end.
Proof.
  revert w. induction updates as [|u updates IH]; intros w Hf Hu; [reflexivity|].
  destruct (Hu u (or_introl eq_refl)) as (iu & ku & Hr & Hc & Hna).
  destruct (fills_step s0 (sheet w) iu ku (uvalue u) Hf Hna) as (Hf' & _ & _).
  set (w' := onSheet (setValues (urow u) (ucol u) [CNum (uvalue u)]) w).
  assert (Hw' : sheet w' = setValues (iu + 2) (ku + 1) [CNum (uvalue u)] (sheet w)).
  { unfold w'. cbn [sheet onSheet]. rewrite Hr, Hc. reflexivity. }
  rewrite <- Hw' in Hf'.
  change (applyUpdates (u :: updates) w) with (applyUpdates updates w').
  rewrite (IH w' Hf' (fun u0 H0 => Hu u0 (or_intror H0))).
  cbn [lastWrite]. destruct (lastWrite updates i k); [reflexivity|].
  rewrite Hw'.
  assert (Hk : exists k0, ku = S k0).
  { destruct ku as [|k0]; [|eauto]. unfold cellAt in Hna.
    destruct (nth_error (rows s0) iu); discriminate. }
  destruct Hk as [k0 ->].
  assert (Hex : cellAt (sheet w) iu (S k0) <> None).
  { destruct Hf as (_ & _ & Hcells).
    destruct (Hcells iu (S k0)) as [-> | [_ [x ->]]]; [|discriminate].
    rewrite (isNA_Some _ Hna). discriminate. }
  rewrite (cellAt_setValues (sheet w) iu k0 (CNum (uvalue u)) i k Hex).
  rewrite Hr, Hc.
  replace (iu + 2 =? i + 2) with (i =? iu)
    by (destruct (Nat.eqb_spec i iu), (Nat.eqb_spec (iu + 2) (i + 2)); lia || reflexivity).
  replace (S k0 + 1 =? k + 1) with (k =? S k0)
    by (destruct (Nat.eqb_spec k (S k0)), (Nat.eqb_spec (S k0 + 1) (k + 1)); lia || reflexivity).
  destruct ((i =? iu) && (k =? S k0)); reflexivity.
Qed.

Section RepairCells.

Variable fetch : date -> response.

Lemma lastWrite_updatesOf (index : nat) (code : string) (data : list row) (i0 i k : nat) :
  lastWrite (updatesOf fetch index code data i0) i k
  = if (k + 1 =? index) && (i0 <=? i) then found fetch index code data (i - i0) else None.
Proof.
  revert i0. induction data as [|r data IH]; intros i0.
  - cbn [updatesOf lastWrite]. unfold found. rewrite nth_error_nil.
    destruct ((k + 1 =? index) && (i0 <=? i)); reflexivity.
  - cbn [updatesOf].
    pose proof (IH (S i0)) as Htail.
    destruct (Nat.eqb_spec (k + 1) index) as [Hk | Hk]; cbn [andb] in *.
    + destruct (Nat.leb_spec i0 i) as [Hle | Hlt].
      * destruct (Nat.eq_dec i i0) as [-> | Hne].
        -- replace (S i0 <=? i0) with false in Htail by (symmetry; apply Nat.leb_gt; lia).
           rewrite Nat.sub_diag. unfold found. cbn [nth_error].
           destruct (isNA (rowGet r (index - 1))); [|exact Htail].
           destruct (hit fetch (rdate r) code) as [v|]; [|exact Htail].
           cbn [lastWrite urow ucol uvalue]. rewrite Htail.
           rewrite Hk, !Nat.eqb_refl. reflexivity.
        -- replace (S i0 <=? i) with true in Htail by (symmetry; apply Nat.leb_le; lia).
           assert (Hf : found fetch index code (r :: data) (i - i0)
                        = found fetch index code data (i - S i0)).
           { unfold found. replace (i - i0) with (S (i - S i0)) by lia. reflexivity. }
           rewrite Hf.
           destruct (isNA (rowGet r (index - 1))); [|exact Htail].
           destruct (hit fetch (rdate r) code) as [v|]; [|exact Htail].
           cbn [lastWrite urow ucol uvalue]. rewrite Htail.
           destruct (found fetch index code data (i - S i0)); [reflexivity|].
           replace (i0 + 2 =? i + 2) with false by (symmetry; apply Nat.eqb_neq; lia).
           reflexivity.
      * replace (S i0 <=? i) with false in Htail by (symmetry; apply Nat.leb_gt; lia).
        destruct (isNA (rowGet r (index - 1))); [|exact Htail].
        destruct (hit fetch (rdate r) code) as [v|]; [|exact Htail].
        cbn [lastWrite urow ucol uvalue]. rewrite Htail.
        replace (i0 + 2 =? i + 2) with false by (symmetry; apply Nat.eqb_neq; lia).
        reflexivity.
    + destruct (isNA (rowGet r (index - 1))); [|exact Htail].
      destruct (hit fetch (rdate r) code) as [v|]; [|exact Htail].
      cbn [lastWrite urow ucol uvalue]. rewrite Htail.
      replace (index =? k + 1) with false by (symmetry; apply Nat.eqb_neq; lia).
      rewrite andb_false_r. reflexivity.
Qed.

(** One fund's pass over the snapshot: the cell of every row. *)
Lemma fund_pass_cell (s0 : Sheet.sheet) (index : nat) (code : string) (w : world)
      (i k : nat) :
  fills s0 (sheet w) ->
  let w1 := snd (scanColumn fetch index code (rows s0) 0 w) in
  let updates := fst (scanColumn fetch index code (rows s0) 0 w) in
  fills s0 (sheet (applyUpdates updates w1))
  /\ cellAt (sheet (applyUpdates updates w1)) i k
     = match (if k + 1 =? index then found fetch index code (rows s0) i else None) with
       | Some v => Some (CNum v)
       | None => cellAt (sheet w) i k
       end.
Proof.
  intros Hf. cbv zeta.
  pose proof (scanColumn_spec fetch index code (rows s0) 0 w) as (H1 & H2 & _).
  rewrite H1.
  assert (Hf1 : fills s0 (sheet (snd (scanColumn fetch index code (rows s0) 0 w))))
    by (rewrite H2; exact Hf).
  destruct (applyUpdates_fills s0 _ _ Hf1 (fun u => updatesOf_targets fetch s0 index code u))
    as (A1 & _).
  split; [exact A1|].
  rewrite (applyUpdates_cell s0 _ _ i k Hf1 (fun u => updatesOf_targets fetch s0 index code u)).
  rewrite lastWrite_updatesOf, H2. cbn [Nat.leb andb]. rewrite andb_true_r.
  rewrite Nat.sub_0_r. reflexivity.
Qed.

Lemma repairFunds_step (fund : string) (index : nat) (code : string)
      (cols : list (string * (nat * string))) (data : list row) (w : world)
      (counts : list (string * nat)) (total : nat) :
  exists counts2 total2,
    repairFunds fetch ((fund, (index, code)) :: cols) data w counts total
    = repairFunds fetch cols data
        (applyUpdates (fst (scanColumn fetch index code data 0 w))
                      (snd (scanColumn fetch index code data 0 w)))
        counts2 total2.
Proof.
  cbn [repairFunds].
  destruct (scanColumn fetch index code data 0 w) as [updates w1]. cbn [fst snd].
  destruct updates; cbn [List.length Nat.ltb Nat.leb]; eauto.
Qed.

(** A column no fund points at keeps every cell. *)
Lemma repairFunds_cell_other (s0 : Sheet.sheet) (cols : list (string * (nat * string)))
      (w : world) (counts : list (string * nat)) (total : nat) (i k : nat) :
  fills s0 (sheet w) ->
  (forall c, In c cols -> fst (snd c) <> k + 1) ->
  cellAt (sheet (fst (fst (repairFunds fetch cols (rows s0) w counts total)))) i k
  = cellAt (sheet w) i k.
Proof.
  revert w counts total. induction cols as [|[fund [index code]] cols IH];
    intros w counts total Hf Hcols; [reflexivity|].
  destruct (repairFunds_step fund index code cols (rows s0) w counts total)
    as (counts2 & total2 & ->).
  destruct (fund_pass_cell s0 index code w i k Hf) as (Hf2 & Hcell).
  rewrite (IH _ counts2 total2 Hf2 (fun c H => Hcols c (or_intror H))).
  rewrite Hcell.
  replace (k + 1 =? index) with false; [reflexivity|].
  symmetry. apply Nat.eqb_neq. intros E.
  apply (Hcols (fund, (index, code)) (or_introl eq_refl)). cbn. lia.
Qed.

(** A cell marked "N/A" in the column of a fund ends with what the search
    for it found. *)
Lemma repairFunds_cell_own (s0 : Sheet.sheet) (cols : list (string * (nat * string)))
      (w : world) (counts : list (string * nat)) (total : nat)
      (fund : string) (index : nat) (code : string) (j : nat) :
  fills s0 (sheet w) ->
  distinctColumns cols ->
  In (fund, (index, code)) cols ->
  isNA (cellAt s0 j (index - 1)) = true ->
  cellAt (sheet w) j (index - 1) = cellAt s0 j (index - 1) ->
  cellAt (sheet (fst (fst (repairFunds fetch cols (rows s0) w counts total)))) j (index - 1)
  = match found fetch index code (rows s0) j with
    | Some v => Some (CNum v)
    | None => Some (CStr "N/A")
    end.
Proof.
  revert w counts total. induction cols as [|[fund0 [index0 code0]] cols IH];
    intros w counts total Hf Hnd Hin Hna Hsame; [destruct Hin|].
  assert (Hidx : index - 1 + 1 = index).
  { destruct index as [|[|index]]; [| |lia];
      unfold cellAt in Hna; destruct (nth_error (rows s0) j); discriminate. }
  unfold distinctColumns in Hnd. cbn [map fst snd] in Hnd.
  inversion Hnd as [|? ? Hnotin Hnd']; subst.
  destruct (repairFunds_step fund0 index0 code0 cols (rows s0) w counts total)
    as (counts2 & total2 & ->).
  destruct (fund_pass_cell s0 index0 code0 w j (index - 1) Hf) as (Hf2 & Hcell).
  rewrite Hidx in Hcell.
  destruct Hin as [E | Hin].
  - injection E as -> -> ->.
    rewrite repairFunds_cell_other.
    + rewrite Hcell, Nat.eqb_refl, Hsame, (isNA_Some _ Hna). reflexivity.
    + exact Hf2.
    + intros c Hc E. apply Hnotin. rewrite Hidx in E. rewrite <- E.
      apply (in_map (fun c => fst (snd c))). exact Hc.
  - assert (Hne : index0 <> index).
    { intros ->. apply Hnotin.
      apply (in_map (fun c => fst (snd c)) cols (fund, (index, code))). exact Hin. }
    apply (IH _ counts2 total2 Hf2 Hnd' Hin Hna).
    rewrite Hcell.
    replace (index =? index0) with false by (symmetry; apply Nat.eqb_neq; lia).
    exact Hsame.
Qed.

End RepairCells.

Section RepairRequests.

Variable fetch : date -> response.







Lemma repairFunds_counts (cols : list (string * (nat * string))) (data : list row)
      (w : world) (counts : list (string * nat)) (total : nat) :
  snd (fst (repairFunds fetch cols data w counts total))
  = counts ++ flat_map
                (fun c =>
                   let n := List.length (updatesOf fetch (fst (snd c)) (snd (snd c)) data 0) in
                   if 0 <? n then [(fst c, n)] else [])
                cols
  /\ snd (repairFunds fetch cols data w counts total)
     = total + list_sum
                 (map (fun c => List.length (updatesOf fetch (fst (snd c)) (snd (snd c)) data 0))
                      cols).
Proof.
  revert w counts total. induction cols as [|[fund [index code]] cols IH];
    intros w counts total.
  - cbn. rewrite app_nil_r. split; [reflexivity | lia].
  - unfold list_sum in *. cbn [repairFunds flat_map map fold_right fst snd].
    destruct (scanColumn fetch index code data 0 w) as [updates w1] eqn:Es.
    pose proof (scanColumn_spec fetch index code data 0 w) as (H1 & _).
    rewrite Es in H1. cbn [fst] in H1. subst updates. cbv zeta.
    destruct (0 <? List.length (updatesOf fetch index code data 0)) eqn:E.
    + destruct (IH (applyUpdates (updatesOf fetch index code data 0) w1)
                  (counts ++ [(fund, List.length (updatesOf fetch index code data 0))])
                  (total + List.length (updatesOf fetch index code data 0))) as [I1 I2].
      rewrite I1, I2, <- app_assoc. split; [reflexivity | lia].
    + destruct (IH w1 counts total) as [I1 I2]. rewrite I1, I2.
      apply Nat.ltb_ge in E. split; [reflexivity | lia].
Qed.

Lemma updatesOf_length (index : nat) (code : string) (data : list row) (i0 : nat) :
  List.length (updatesOf fetch index code data i0)
  = List.length
      (filter (fun j => match found fetch index code data j with
                        | Some _ => true
                        | None => false
                        end)
              (seq 0 (List.length data))).
Proof.
  revert i0. induction data as [|r data IH]; intros i0; [reflexivity|].
  assert (Htail : List.length (updatesOf fetch index code data (S i0))
                  = List.length
                      (filter (fun j => match found fetch index code (r :: data) j with
                                        | Some _ => true
                                        | None => false
                                        end)
                              (seq 1 (List.length data)))).
  { rewrite <- seq_shift, filter_map_swap, length_map. apply IH. }
  cbn [updatesOf List.length seq filter]. unfold found at 1. cbn [nth_error].
  destruct (isNA (rowGet r (index - 1))); [|exact Htail].
  destruct (hit fetch (rdate r) code); cbn [List.length]; rewrite Htail; reflexivity.
Qed.

End RepairRequests.



Lemma navColumns_distinct : distinctColumns navColumns.
Proof.
  unfold distinctColumns, navColumns. cbn [map fst snd].
  repeat constructor; cbn [In]; lia.
Qed.

Lemma readReport_falsy (code content : string) (foundNav : option num) :
  truthyOpt foundNav = false ->
  truthyOpt (readReport code content foundNav) = truthyOpt (readReport code content None)
  /\ (truthyOpt (readReport code content foundNav) = true ->
      readReport code content foundNav = readReport code content None).
Proof.
  intros H. unfold readReport.
  destruct (find _ _) as [navLine|]; [|cbn [truthyOpt]; split; [exact H | congruence]].
  destruct (scanPositive _ _) as [|candidate]; [|split; reflexivity].
  rewrite H. cbn [truthyOpt negb]. split; reflexivity.
Qed.

Section Search.

Variable fetch : date -> response.

Lemma searchNav_first (rowDate : date) (code : string) (offsets : list Z)
      (foundNav : option num) (w : world) :
  truthyOpt foundNav = false ->
  match fst (searchNav fetch rowDate code offsets foundNav w) with
  | Some (Num v) => if truthy (Num v) then Some v else None
  | _ => None
  end
  = firstSome (map (fun k => dayValue fetch (rowDate - k)%Z code) offsets).
Proof.
  revert foundNav w. induction offsets as [|dayOffset rest IH]; intros foundNav w Hfn.
  - cbn [searchNav fst map firstSome].
    destruct foundNav as [[|v]|]; try reflexivity. cbn [truthyOpt] in Hfn.
    rewrite Hfn. reflexivity.
  - cbn [searchNav map firstSome]. unfold dayValue at 1.
    destruct (isWeekendOrHoliday (rowDate - dayOffset)%Z); [apply IH; exact Hfn|].
    destruct (validResponse (fetch (rowDate - dayOffset)%Z)) as [content|];
      [|apply IH; exact Hfn].
    destruct (readReport_falsy code content foundNav Hfn) as [Ht Heq].
    destruct (truthyOpt (readReport code content foundNav)) eqn:E.
    + rewrite <- (Heq eq_refl). cbn [fst].
      destruct (readReport code content foundNav) as [[|v]|]; try discriminate.
      cbn [truthyOpt] in E. rewrite E. reflexivity.
    + rewrite (IH _ _ E).
      destruct (readReport code content None) as [[|v]|]; try reflexivity.
      cbn [truthyOpt] in Ht. rewrite <- Ht. reflexivity.
Qed.

(** X12.  The search for a missing value takes the report of the row's own date,
    then of the five days before it, and stops at the first one that gives
    the fund a value; what earlier days left behind plays no part. *)
Theorem search_takes_latest_usable_report (rowDate : date) (code : string) :
  hit fetch rowDate code
  = firstSome (map (fun k => dayValue fetch (rowDate - k)%Z code) [0; 1; 2; 3; 4; 5]%Z).
Proof.
  unfold hit. apply (searchNav_first rowDate code (fromTo 0 5) None emptyWorld). reflexivity.
Qed.

(** A positive number in one of the fields three to ten of the fund's line
    is what a day's report gives. *)
Lemma dayValue_positive_field (d : date) (code content line : string) (v : Q) :
  isWeekendOrHoliday d = false ->
  validResponse (fetch d) = Some content ->
  find (includes (code ++ ";")%string) (split newline content) = Some line ->
  scanPositive (split ";" line) (scanRange (split ";" line)) = Num v ->
  dayValue fetch d code = Some v.
Proof.
  intros Hday Hresp Hline Hscan. unfold dayValue, readReport.
  rewrite Hday, Hresp, Hline, Hscan.
  pose proof (scanPositive_positive _ _ _ Hscan) as Hpos.
  assert (Ht : truthy (Num v) = true).
  { cbn [truthy]. destruct (Qeq_bool v 0) eqn:E; [|reflexivity].
    apply Qeq_bool_iff in E. rewrite E in Hpos. discriminate. }
  cbn [truthyOpt]. rewrite Ht. cbn [negb]. rewrite Ht. reflexivity.
Qed.

End Search.

Lemma counts_sum {C} (f : C -> nat) (name : C -> string) (cols : list C) :
  list_sum (map f cols)
  = list_sum (map snd (flat_map (fun c => if 0 <? f c then [(name c, f c)] else []) cols)).
Proof.
  induction cols as [|c cols IH]; [reflexivity|].
  cbn [map flat_map]. rewrite map_app, list_sum_app.
  change (list_sum (f c :: map f cols)) with (f c + list_sum (map f cols)).
  rewrite IH. destruct (f c); cbn; lia.
Qed.

Section GapRepairResults.

Variable fetch : date -> response.

Lemma fillNAData_sheet (w : world) :
  sheet (fst (fst (fillNAData fetch w)))
  = sheet (fst (fst (repairFunds fetch (fundColumns (header (sheet w)))
                                  (rows (sheet w)) w [] 0))).
Proof.
  rewrite fillNAData_unfold.
  destruct (rows (sheet w)) as [|r rs] eqn:E; [|reflexivity].
  cbn [fst]. pose proof (repairFunds_fills fetch (sheet w) (fundColumns (header (sheet w)))
                           w [] 0 (fills_refl _)) as (Hf & _).
  cbv zeta in Hf. rewrite E in Hf.
  destruct Hf as (Hh & Hl & _).
  destruct (sheet (fst (fst (repairFunds fetch _ [] w [] 0)))) as [h1 rows1].
  destruct (sheet w) as [h0 rows0]. cbn [header rows] in *. subst.
  destruct rows1; [reflexivity | discriminate].
Qed.

(** X13.  A cell marked "N/A" in the column of a fund holds after the repair what
    the search for its date found, and is left as it was when the search
    found nothing. *)
Theorem gap_repair_writes_what_it_found (w : world) (fund : string) (index : nat)
        (code : string) (j : nat) (r : row) :
  distinctColumns (fundColumns (header (sheet w))) ->
  In (fund, (index, code)) (fundColumns (header (sheet w))) ->
  nth_error (rows (sheet w)) j = Some r ->
  rowGet r (index - 1) = Some (CStr "N/A") ->
  cellAt (sheet (fst (fst (fillNAData fetch w)))) j (index - 1)
  = match hit fetch (rdate r) code with
    | Some v => Some (CNum v)
    | None => Some (CStr "N/A")
    end.
Proof.
  intros Hnd Hin Hj Hcell. rewrite fillNAData_sheet.
  assert (Hna : isNA (cellAt (sheet w) j (index - 1)) = true).
  { unfold cellAt. rewrite Hj, Hcell. reflexivity. }
  rewrite (repairFunds_cell_own fetch (sheet w) _ w [] 0 fund index code j
             (fills_refl _) Hnd Hin Hna eq_refl).
  unfold found. rewrite Hj, Hcell. reflexivity.
Qed.



Lemma fillNAData_report (w : world) (rep : report) :
  snd (fillNAData fetch w) = Some rep ->
  let res := repairFunds fetch (fundColumns (header (sheet w))) (rows (sheet w)) w [] 0 in
  rep = {| fundUpdates := snd (fst res); totalUpdates := snd res |}.
Proof.
  rewrite fillNAData_unfold. destruct (rows (sheet w)); [discriminate|].
  cbv zeta. cbn [snd]. congruence.
Qed.

(** X16.  The report of a repair adds up: the total is the sum of the counts of
    the funds, a fund is listed only with a positive count, and only
    tracked funds are listed. *)
Theorem gap_repair_report_adds_up (w : world) (rep : report) :
  snd (fillNAData fetch w) = Some rep ->
  totalUpdates rep = list_sum (map snd (fundUpdates rep))
  /\ Forall (fun c => 0 < snd c /\ In (fst c) (map fst fundsToTrack)) (fundUpdates rep).
Proof.
  intros Hrep. rewrite (fillNAData_report w rep Hrep). cbv zeta. cbn [totalUpdates fundUpdates].
  destruct (repairFunds_counts fetch (fundColumns (header (sheet w))) (rows (sheet w)) w [] 0)
    as [-> ->].
  cbn [app]. set (cols := fundColumns (header (sheet w))).
  assert (Hcols : forall c, In c cols -> In (fst c) (map fst fundsToTrack)).
  { intros c Hc. unfold cols, fundColumns in Hc. apply in_flat_map in Hc.
    destruct Hc as (f & Hf & Hc).
    destruct (findIndex _ _); [|destruct Hc]. destruct Hc as [<- | []].
    cbn [fst]. apply (in_map fst). exact Hf. }
  clearbody cols. split.
  - cbn [Nat.add]. cbv zeta. apply counts_sum.
  - apply Forall_flat_map. apply Forall_forall. intros c Hc. cbv zeta.
    destruct (0 <? _) eqn:E; [|constructor].
    constructor; [|constructor]. cbn [fst snd]. split; [|exact (Hcols c Hc)].
    apply Nat.ltb_lt. exact E.
Qed.

(** X17.  The total of the report is the number of cells repaired: the cells of
    the funds that were marked "N/A" and now hold a number. *)
Theorem gap_repair_counts_repaired_cells (w : world) (rep : report) :
  distinctColumns (fundColumns (header (sheet w))) ->
  snd (fillNAData fetch w) = Some rep ->
  totalUpdates rep
  = repairedCells (fundColumns (header (sheet w))) (sheet w)
                  (sheet (fst (fst (fillNAData fetch w)))).
Proof.
  intros Hnd Hrep. rewrite (fillNAData_report w rep Hrep). cbv zeta. cbn [totalUpdates].
  destruct (repairFunds_counts fetch (fundColumns (header (sheet w))) (rows (sheet w)) w [] 0)
    as [_ ->].
  rewrite fillNAData_sheet. cbn [Nat.add]. unfold repairedCells. f_equal.
  apply map_ext_in. intros [fund [index code]] Hc. cbn [fst snd].
  rewrite updatesOf_length. f_equal. apply filter_ext_in. intros j _.
  unfold found.
  destruct (isNA (cellAt (sheet w) j (index - 1))) eqn:Hna.
  - rewrite (repairFunds_cell_own fetch (sheet w) _ w [] 0 fund index code j
               (fills_refl _) Hnd Hc Hna eq_refl).
    unfold found. unfold cellAt in Hna.
    destruct (nth_error (rows (sheet w)) j) as [r|]; [|discriminate].
    rewrite Hna. destruct (hit fetch (rdate r) code); reflexivity.
  - unfold cellAt in Hna. destruct (nth_error (rows (sheet w)) j) as [r|]; [|reflexivity].
    rewrite Hna. reflexivity.
Qed.

End GapRepairResults.

Section ProviderDown.

Variable fetch : date -> response.
Hypothesis nothing : forall d, validResponse (fetch d) = None.



End ProviderDown.

(* ===================================================================== *)
(** ** Properties of the notification *)
(* ===================================================================== *)

Lemma chars_app (s1 s2 : string) :
  list_ascii_of_string (s1 ++ s2)
  = list_ascii_of_string s1 ++ list_ascii_of_string s2.
Proof.
  induction s1 as [|c s1 IH]; [reflexivity|]. cbn. rewrite IH. reflexivity.
Qed.

Lemma hasChar_app (c : ascii) (s1 s2 : string) :
  hasChar c (s1 ++ s2) = hasChar c s1 || hasChar c s2.
Proof. unfold hasChar. rewrite chars_app. apply existsb_app. Qed.

Lemma startsWithL_hasChar (p s : list ascii) (c : ascii) :
  startsWithL p s = true -> existsb (Ascii.eqb c) p = true -> existsb (Ascii.eqb c) s = true.
Proof.
  revert s. induction p as [|a p IH]; intros s Hs Hc; [discriminate|].
  destruct s as [|b s]; [discriminate|]. cbn in Hs, Hc |- *.
  apply andb_true_iff in Hs. destruct Hs as [Hab Hs]. apply Ascii.eqb_eq in Hab. subst b.
  destruct (Ascii.eqb c a); [reflexivity|]. cbn in Hc |- *. exact (IH s Hs Hc).
Qed.

Lemma includes_hasChar (p s : string) (c : ascii) :
  includes p s = true -> hasChar c p = true -> hasChar c s = true.
Proof.
  unfold includes, hasChar.
  generalize (list_ascii_of_string p) as lp. generalize (list_ascii_of_string s) as ls.
  induction ls as [|b ls IH]; intros lp Hi Hc.
  - cbn in Hi. rewrite orb_false_r in Hi. exact (startsWithL_hasChar lp [] c Hi Hc).
  - cbn [includesL] in Hi. apply orb_true_iff in Hi. destruct Hi as [Hi | Hi].
    + exact (startsWithL_hasChar lp (b :: ls) c Hi Hc).
    + cbn. rewrite (IH lp Hi Hc). apply orb_true_r.
Qed.

Lemma startsWithL_app (p s t : list ascii) :
  startsWithL p s = true -> startsWithL p (s ++ t) = true.
Proof.
  revert s. induction p as [|a p IH]; intros s H; [reflexivity|].
  destruct s as [|b s]; [discriminate|]. cbn in H |- *.
  apply andb_true_iff in H. destruct H as [H1 H2]. rewrite H1, (IH s H2). reflexivity.
Qed.

Lemma includesL_app_r (p s t : list ascii) :
  includesL p s = true -> includesL p (s ++ t) = true.
Proof.
  induction s as [|b s IH]; intros H.
  - cbn in H. rewrite orb_false_r in H.
    destruct p as [|a p]; [|discriminate]. destruct t; reflexivity.
  - cbn [includesL app] in H |- *. apply orb_true_iff in H. destruct H as [H | H].
    + pose proof (startsWithL_app p (b :: s) t H) as H'. cbn [app] in H'.
      rewrite H'. reflexivity.
    + rewrite (IH H). apply orb_true_r.
Qed.

Lemma includesL_app_l (p s t : list ascii) :
  includesL p s = true -> includesL p (t ++ s) = true.
Proof.
  induction t as [|b t IH]; intros H; [exact H|].
  cbn [includesL app]. rewrite (IH H). apply orb_true_r.
Qed.

Lemma includes_app_r (p s t : string) :
  includes p s = true -> includes p (s ++ t) = true.
Proof. unfold includes. rewrite chars_app. apply includesL_app_r. Qed.

Lemma includes_app_l (p s t : string) :
  includes p s = true -> includes p (t ++ s) = true.
Proof. unfold includes. rewrite chars_app. apply includesL_app_l. Qed.

Lemma concat_cons (sep x : string) (l : list string) :
  String.concat sep (x :: l)
  = match l with
    | [] => x
    | _ :: _ => (x ++ sep ++ String.concat sep l)%string
    end.
Proof. destruct l; reflexivity. Qed.

Lemma includes_concat (p sep : string) (l : list string) (x : string) :
  In x l -> includes p x = true -> includes p (String.concat sep l) = true.
Proof.
  induction l as [|y l IH]; intros Hin Hp; [destruct Hin|].
  rewrite concat_cons. destruct Hin as [-> | Hin].
  - destruct l; [exact Hp | apply includes_app_r; exact Hp].
  - destruct l as [|z l]; [destruct Hin|].
    apply includes_app_l, includes_app_l. exact (IH Hin Hp).
Qed.

Lemma hasChar_concat (c : ascii) (sep : string) (l : list string) :
  hasChar c sep = false ->
  (forall x, In x l -> hasChar c x = false) ->
  hasChar c (String.concat sep l) = false.
Proof.
  intros Hsep. induction l as [|y l IH]; intros H; [reflexivity|].
  rewrite concat_cons. destruct l as [|z l]; [apply H; left; reflexivity|].
  rewrite !hasChar_app, Hsep, (H y (or_introl eq_refl)).
  rewrite IH; [reflexivity|]. intros x Hx. apply H. right. exact Hx.
Qed.

(** The characters numbers print with. *)
Lemma digitChar_plain (c : ascii) (n : Z) :
  hasChar c "-.0123456789" = false -> Ascii.eqb c (digitChar n) = false.
Proof.
  intros H. unfold digitChar.
  assert (Hn : Z.to_nat (n mod 10) < 10).
  { pose proof (Z.mod_pos_bound n 10). lia. }
  unfold hasChar in H. cbn [list_ascii_of_string existsb] in H.
  repeat (apply orb_false_iff in H; destruct H as [? H]).
  set (k := Z.to_nat (n mod 10)) in *. clearbody k.
  do 10 (destruct k as [|k];
         [match goal with
          | Hk : Ascii.eqb c ?a = false |- Ascii.eqb c ?b = false =>
              change b with a; exact Hk
          end|]).
  lia.
Qed.

Lemma natToStringAux_plain (c : ascii) (fuel n : nat) (acc : string) :
  hasChar c "-.0123456789" = false -> hasChar c acc = false ->
  hasChar c (natToStringAux fuel n acc) = false.
Proof.
  intros Hc. revert n acc. induction fuel as [|fuel IH]; intros n acc Hacc; [exact Hacc|].
  cbn [natToStringAux].
  assert (Hacc' : hasChar c (String (digitChar (Z.of_nat n)) acc) = false).
  { unfold hasChar in *. cbn [list_ascii_of_string existsb].
    rewrite (digitChar_plain c _ Hc). exact Hacc. }
  destruct (n / 10 =? 0); [exact Hacc' | apply IH; exact Hacc'].
Qed.

Lemma lowDigits_plain (c : ascii) (k : nat) (n : Z) (acc : string) :
  hasChar c "-.0123456789" = false -> hasChar c acc = false ->
  hasChar c (lowDigits k n acc) = false.
Proof.
  intros Hc. revert n acc. induction k as [|k IH]; intros n acc Hacc; [exact Hacc|].
  cbn [lowDigits]. apply IH. unfold hasChar in *. cbn [list_ascii_of_string existsb].
  rewrite (digitChar_plain c _ Hc). exact Hacc.
Qed.

Lemma printFixed_plain (c : ascii) (digits : nat) (x : Q) :
  hasChar c "-.0123456789" = false -> hasChar c (printFixed digits x) = false.
Proof.
  intros Hc. unfold printFixed. cbv zeta. rewrite !hasChar_app.
  assert (Hminus : hasChar c "-" = false /\ hasChar c "." = false).
  { unfold hasChar in *. cbn [list_ascii_of_string existsb] in *.
    apply orb_false_iff in Hc. destruct Hc as [H1 Hc].
    apply orb_false_iff in Hc. destruct Hc as [H2 _]. rewrite H1, H2. split; reflexivity. }
  destruct Hminus as [Hminus Hdot].
  replace (hasChar c (if Qlt_bool x 0 then "-" else "")) with false
    by (destruct (Qlt_bool x 0); [symmetry; exact Hminus | reflexivity]).
  unfold natToString. rewrite (natToStringAux_plain c _ _ "" Hc eq_refl).
  destruct digits as [|digits]; [reflexivity|].
  rewrite hasChar_app, Hdot. rewrite (lowDigits_plain c _ _ "" Hc eq_refl). reflexivity.
Qed.

Ltac text_chars :=
  unfold alertText; rewrite ?hasChar_app;
  rewrite ?printFixed_plain by reflexivity; reflexivity.

(** No text of an alert holds the last byte of the critical mark. *)
Lemma alertText_no_siren (a : alert) :
  hasChar (ascii_of_nat 168) (alertText a) = false.
Proof. destruct a; text_chars. Qed.

(** Only the long-term alert holds the fourth byte of the warning mark. *)
Lemma alertText_no_warning (a : alert) :
  isLongTerm a = false -> hasChar (ascii_of_nat 239) (alertText a) = false.
Proof. destruct a; intros H; try discriminate; text_chars. Qed.

Lemma alertText_nonEmpty (a : alert) : nonEmpty (alertText a) = true.
Proof. destruct a; reflexivity. Qed.

Lemma nonEmpty_app (s t : string) : nonEmpty s = true -> nonEmpty (s ++ t) = true.
Proof. destruct s; [discriminate | reflexivity]. Qed.

Lemma alertMsg_nonEmpty (alerts : list alert) :
  nonEmpty (alertMsg alerts) = hasAlerts alerts.
Proof.
  destruct alerts as [|a l]; [reflexivity|].
  unfold alertMsg. cbn [map hasAlerts]. rewrite concat_cons.
  destruct (map alertText l); [apply alertText_nonEmpty|].
  apply nonEmpty_app, alertText_nonEmpty.
Qed.

Lemma severityOf_alertMsg (alerts : list alert) :
  severityOf (alertMsg alerts)
  = if hasAlerts alerts
    then Some (if inDowntrend alerts then Warning else Other)
    else None.
Proof.
  unfold severityOf. rewrite alertMsg_nonEmpty.
  destruct (hasAlerts alerts); [|reflexivity]. f_equal.
  assert (Hsiren : includes "🚨" (alertMsg alerts) = false).
  { destruct (includes "🚨" (alertMsg alerts)) eqn:E; [|reflexivity].
    pose proof (includes_hasChar _ _ (ascii_of_nat 168) E eq_refl) as H.
    unfold alertMsg in H. rewrite hasChar_concat in H; [discriminate | reflexivity |].
    intros x Hx. apply in_map_iff in Hx. destruct Hx as (a & <- & _).
    apply alertText_no_siren. }
  rewrite Hsiren. unfold inDowntrend.
  destruct (existsb isLongTerm alerts) eqn:Elt.
  - apply existsb_exists in Elt. destruct Elt as (a & Ha & Hlt).
    destruct a; try discriminate.
    unfold alertMsg.
    rewrite (includes_concat "⚠️" nl _ (alertText LongTermDowntrend));
      [reflexivity | apply in_map; exact Ha | reflexivity].
  - destruct (includes "⚠️" (alertMsg alerts)) eqn:E; [|reflexivity].
    pose proof (includes_hasChar _ _ (ascii_of_nat 239) E eq_refl) as H.
    unfold alertMsg in H. rewrite hasChar_concat in H; [discriminate | reflexivity |].
    intros x Hx. apply in_map_iff in Hx. destruct Hx as (a & <- & Ha).
    apply alertText_no_warning.
    destruct (isLongTerm a) eqn:Ea; [|reflexivity].
    assert (existsb isLongTerm alerts = true) by (apply existsb_exists; eauto).
    congruence.
Qed.

(** X19.  How the mail ranks the alerts of a fund: never as critical; as a
    warning exactly when the long-term downtrend is among them, whatever
    dip or crossover fired with it; as other else. *)
Theorem alert_severity (alerts : list alert) :
  severityOf (alertMsg alerts) <> Some Critical
  /\ (severityOf (alertMsg alerts) = Some Warning <-> In LongTermDowntrend alerts)
  /\ (severityOf (alertMsg alerts) = Some Other
      <-> alerts <> [] /\ ~ In LongTermDowntrend alerts)
  /\ (severityOf (alertMsg alerts) = None <-> alerts = []).
Proof.
  rewrite severityOf_alertMsg.
  assert (Hin : inDowntrend alerts = true <-> In LongTermDowntrend alerts).
  { unfold inDowntrend. rewrite existsb_exists. split.
    - intros (a & Ha & Hlt). destruct a; try discriminate. exact Ha.
    - intros H. exists LongTermDowntrend. split; [exact H | reflexivity]. }
  destruct alerts as [|a l]; cbn [hasAlerts].
  - split; [discriminate|]. split; [split; [discriminate | intros []]|].
    split; [split; [discriminate | intros [H _]; congruence] | split; reflexivity].
  - destruct (inDowntrend (a :: l)) eqn:E.
    + split; [discriminate|]. split; [split; [intros _; apply Hin; reflexivity | reflexivity]|].
      split; [split; [discriminate | intros [_ H]; exfalso; apply H, Hin; reflexivity]|].
      split; discriminate.
    + assert (Hno : ~ In LongTermDowntrend (a :: l)).
      { intros H. apply Hin in H. discriminate. }
      split; [discriminate|]. split; [split; [discriminate | intros H; contradiction]|].
      split; [split; [intros _; split; [discriminate | exact Hno] | reflexivity]|].
      split; discriminate.
Qed.

Lemma categorize_fold (als : list (list alert)) (funds : list string) (b0 : buckets) :
  List.length funds = List.length als ->
  let b := fold_left categorizeOne (combine funds (map alertMsg als)) b0 in
  criticalAlerts b = criticalAlerts b0
  /\ List.length (warningAlerts b)
     = List.length (warningAlerts b0) + List.length (filter inDowntrend als)
  /\ List.length (otherAlerts b)
     = List.length (otherAlerts b0)
       + List.length (filter (fun l => hasAlerts l && negb (inDowntrend l)) als).
Proof.
  revert funds b0. induction als as [|l als IH]; intros funds b0 Hlen; cbv zeta.
  - destruct funds; [|discriminate]. cbn. split; [reflexivity | split; lia].
  - destruct funds as [|fund funds]; [discriminate|]. cbn [map combine fold_left filter].
    injection Hlen as Hlen.
    destruct (IH funds (categorizeOne b0 (fund, alertMsg l)) Hlen) as (I1 & I2 & I3).
    rewrite I1, I2, I3. unfold categorizeOne. rewrite severityOf_alertMsg.
    assert (Hl : hasAlerts l = false -> inDowntrend l = false)
      by (destruct l; [reflexivity | discriminate]).
    destruct (hasAlerts l); [|rewrite (Hl eq_refl)]; destruct (inDowntrend l);
      cbn [criticalAlerts warningAlerts otherAlerts andb negb List.length];
      rewrite ?length_app; cbn [List.length];
      (split; [reflexivity | split; lia]).
Qed.

Lemma filter_nil_existsb {A} (f : A -> bool) (l : list A) :
  (0 <? List.length (filter f l)) = existsb f l.
Proof.
  induction l as [|a l IH]; [reflexivity|]. cbn [filter existsb].
  destruct (f a); [reflexivity | exact IH].
Qed.

Lemma some_alert (als : list (list alert)) :
  existsb inDowntrend als
  || existsb (fun l => hasAlerts l && negb (inDowntrend l)) als
  = existsb hasAlerts als.
Proof.
  induction als as [|l als IH]; [reflexivity|]. cbn [existsb]. rewrite <- IH.
  assert (Hl : hasAlerts l = false -> inDowntrend l = false)
    by (destruct l; [reflexivity | discriminate]).
  destruct (hasAlerts l); [|rewrite (Hl eq_refl); reflexivity].
  destruct (inDowntrend l); cbn [andb negb orb]; [reflexivity|].
  destruct (existsb inDowntrend als); reflexivity.
Qed.

(** X20.  What the mail of a run says about the alerts of the funds: its list of
    critical alerts is always empty; it is sent exactly when some fund has
    an alert; and its headline reads "No significant alerts" unless some
    fund is in a long-term downtrend, also when a buying opportunity or a
    crossover fired. *)
Theorem mail_never_critical (funds : list string) (als : list (list alert)) :
  List.length funds = List.length als ->
  let b := categorize funds (map alertMsg als) in
  criticalAlerts b = []
  /\ List.length (warningAlerts b) = List.length (filter inDowntrend als)
  /\ sendsMail b = existsb hasAlerts als
  /\ headline b
     = (if existsb inDowntrend als
        then ("Alerts: 0 Critical 🚨, "
              ++ natToString (List.length (filter inDowntrend als)) ++ " Warning ⚠️")%string
        else "No significant alerts")
  /\ subjectMark b = (if existsb inDowntrend als then " ⚠️" else "").
Proof.
  intros Hlen. cbv zeta. unfold categorize.
  destruct (categorize_fold als funds
              {| criticalAlerts := []; warningAlerts := []; otherAlerts := [] |} Hlen)
    as (H1 & H2 & H3).
  cbv zeta in H1, H2, H3. cbn [criticalAlerts warningAlerts otherAlerts List.length Nat.add]
    in H1, H2, H3.
  set (b := fold_left categorizeOne (combine funds (map alertMsg als)) _) in *.
  unfold sendsMail, headline, subjectMark. rewrite H1, H2, H3.
  cbn [List.length]. change (0 <? 0) with false. cbn [orb]. rewrite !filter_nil_existsb.
  split; [reflexivity|]. split; [reflexivity|]. split.
  - apply some_alert.
  - split; reflexivity.
Qed.

Lemma printFixed_zero (x : Q) : (x == 0)%Q -> printFixed 2 x = "0.00".
Proof.
  intros Hx. unfold printFixed. cbv zeta.
  assert (Hneg : Qlt_bool x 0 = false).
  { apply Qlt_bool_false_iff. rewrite Hx. apply Qle_refl. }
  assert (Hn : Qfloor (Qabs x * inject_Z (10 ^ Z.of_nat 2) + (1 # 2)) = 0%Z).
  { rewrite Hx. reflexivity. }
  rewrite Hneg, Hn. reflexivity.
Qed.

Lemma toFixed_zero (x : Q) : (x == 0)%Q -> Qlt_bool 0 (toFixed 2 x) = false.
Proof.
  intros Hx. unfold toFixed.
  assert (Hbig : Qle_bool (inject_Z (10 ^ 21)) (Qabs x) = false).
  { destruct (Qle_bool (inject_Z (10 ^ 21)) (Qabs x)) eqn:E; [|reflexivity].
    apply Qle_bool_iff in E. rewrite Hx in E. exfalso. apply E. reflexivity. }
  assert (Hneg : Qlt_bool x 0 = false).
  { apply Qlt_bool_false_iff. rewrite Hx. apply Qle_refl. }
  assert (Hn : Qfloor (Qabs x * inject_Z (10 ^ 2) + (1 # 2)) = 0%Z).
  { rewrite Hx. reflexivity. }
  rewrite Hbig, Hneg. cbv zeta. rewrite Hn. reflexivity.
Qed.

Lemma last_row (series : list row) (r : row) :
  nth_error (series ++ [r]) (List.length (series ++ [r]) - 1) = Some r.
Proof.
  rewrite length_app. cbn [List.length].
  rewrite nth_error_app2 by lia.
  replace (List.length series + 1 - 1 - List.length series) with 0 by lia. reflexivity.
Qed.

(** X21.  The day change the mail prints beside the value of a fund compares the
    value with the last row of the range read after the append, which is
    the new row itself: it always reads 0.00% with the falling arrow. *)
Theorem day_change_in_mail_is_zero (fetch : date -> response) (today : date) (w : world)
        (d : date) (raw : list string) (i : nat) (v : Q) :
  rowGet (buildRow d raw) (navStartIdx + i) = Some (CNum v) ->
  ~ (v == 0)%Q ->
  navChangeStr (navChange (rows (sheet (afterAppend fetch today (buildRow d raw) w)))
                          (buildRow d raw) i)
  = " (0.00% ↓ 1d)".
Proof.
  intros Hcell Hv.
  change (rows (sheet (afterAppend fetch today (buildRow d raw) w)))
    with (rows (sheet w) ++ [buildRow d raw]).
  unfold navChange, prevNav.
  destruct (rows (sheet w) ++ [buildRow d raw]) as [|r0 rs] eqn:E.
  { destruct (rows (sheet w)); discriminate. }
  rewrite <- E, last_row, Hcell. cbn [parseFloatCell navChangeStr].
  assert (Hz : ((v - v) / v * 100 == 0)%Q) by (field; exact Hv).
  rewrite (printFixed_zero _ Hz), (toFixed_zero _ Hz). reflexivity.
Qed.

(* ===================================================================== *)
(** ** Reading a line of the provider *)
(* ===================================================================== *)

Lemma parseFloat_day (dd : Z) (rest : string) :
  (1 <= dd <= 31)%Z ->
  parseFloat (pad2 dd ++ "-" ++ rest) = Num (inject_Z dd).
Proof.
  intros H. replace dd with (Z.of_nat (Z.to_nat dd)) by lia.
  set (n := Z.to_nat dd). assert (Hn : 1 <= n <= 31) by lia. clearbody n.
  do 32 (destruct n as [|n]; [try lia; reflexivity|]). lia.
Qed.

Lemma day_positive (dd : Z) : (1 <= dd)%Z -> Qlt_bool 0 (inject_Z dd) = true.
Proof.
  intros H. apply Qlt_bool_iff. unfold Qlt. cbn. lia.
Qed.

(** X22.  A line of the provider whose value fields hold no number is not read
    as missing: with the eight fields of the provider's layout, the date
    in the last one is parsed instead, and the day of the month is taken as
    the value of the fund, by the daily reading and by the scan of the
    repair alike. *)
Theorem unreadable_value_reads_day_of_month (line : string) (parts : list string)
        (dd : Z) (rest : string) :
  split ";" line = parts ->
  List.length parts = 8 ->
  (forall j f, 2 <= j < 7 -> nth_error parts j = Some f -> parseFloat f = NaN) ->
  (1 <= dd <= 31)%Z ->
  nth_error parts 7 = Some (pad2 dd ++ "-" ++ rest)%string ->
  navOfLine line = Num (inject_Z dd)
  /\ scanPositive parts (scanRange parts) = Num (inject_Z dd).
Proof.
  intros Hsplit Hlen Hnan Hdd Hdate.
  pose proof (parseFloat_day dd rest Hdd) as Hday.
  set (dateField := (pad2 dd ++ "-" ++ rest)%string) in *. clearbody dateField.
  destruct parts as [|p0 [|p1 [|p2 [|p3 [|p4 [|p5 [|p6 [|p7 [|p8 parts]]]]]]]]];
    try discriminate.
  cbn [nth_error] in Hdate. injection Hdate as ->.
  pose proof (Hnan 2 p2 ltac:(lia) eq_refl) as H2.
  pose proof (Hnan 3 p3 ltac:(lia) eq_refl) as H3.
  pose proof (Hnan 4 p4 ltac:(lia) eq_refl) as H4.
  pose proof (Hnan 5 p5 ltac:(lia) eq_refl) as H5.
  pose proof (Hnan 6 p6 ltac:(lia) eq_refl) as H6.
  split.
  - unfold navOfLine. rewrite Hsplit. cbv zeta. unfold parseFloatAt.
    cbn [nth_error last]. rewrite H4, H5. cbn [jor truthy]. exact Hday.
  - unfold scanRange. cbn [List.length Nat.min Nat.sub seq scanPositive].
    unfold parseFloatAt. cbn [nth_error]. rewrite H2, H3, H4, H5, H6.
    rewrite Hday, day_positive by lia. reflexivity.
Qed.

(* ===================================================================== *)
(** ** Instances *)
(* ===================================================================== *)

(** On an empty sheet, with a provider that always has a complete report,
    the run of [thursday] adds the row of the day before. *)
Lemma completed_run_persists_row_witness :
  rows (sheet (fst (getNAVAndAnalyze alwaysComplete thursday emptyWorld)))
  = [persistedRow [] (thursday - 1)%Z (split newline completeReport)].
Proof.
  refine (proj2 (proj2 (completed_run_persists_row alwaysComplete thursday emptyWorld
                          (thursday - 1)%Z (split newline completeReport) _ _ _)));
    vm_compute; reflexivity.
Defined.

Lemma daily_cycle_keeps_dates_distinct_witness :
  NoDup (map (fun r => formatDate (rdate r))
             (rows (sheet (fst (getNAVAndAnalyze alwaysComplete thursday worldWithWednesday))))).
Proof.
  apply (daily_cycle_keeps_dates_distinct alwaysComplete thursday worldWithWednesday).
  repeat constructor. intros [].
Defined.



(** The second fund of the first row of [gapWorld] is repaired with the
    value of the report. *)
Lemma gap_repair_writes_what_it_found_witness :
  cellAt (sheet (fst (fst (fillNAData alwaysComplete gapWorld)))) 0 (3 - 1)
  = match hit alwaysComplete (thursday - 2)%Z "118989" with
    | Some v => Some (CNum v)
    | None => Some (CStr "N/A")
    end.
Proof.
  apply (gap_repair_writes_what_it_found alwaysComplete gapWorld "HDFC Mid-Cap" 3 "118989" 0
           {| rdate := (thursday - 2)%Z;
              rcells := [CNum 65; CStr "N/A"; CNum 170; CNum 160; CNum 80] |}).
  - exact navColumns_distinct.
  - right. left. reflexivity.
  - reflexivity.
  - reflexivity.
Defined.



(** The report of the repair of [gapWorld]: three funds, one cell each. *)
Lemma gap_repair_report_adds_up_witness :
  let rep := {| fundUpdates := [("ICICI Pru BA", 1); ("HDFC Mid-Cap", 1);
                                ("PPFAS Flexi Cap", 1)];
                totalUpdates := 3 |} in
  snd (fillNAData alwaysComplete gapWorld) = Some rep
  /\ totalUpdates rep = list_sum (map snd (fundUpdates rep)).
Proof.
  intros rep.
  assert (Hrep : snd (fillNAData alwaysComplete gapWorld) = Some rep)
    by (vm_compute; reflexivity).
  split; [exact Hrep|].
  exact (proj1 (gap_repair_report_adds_up alwaysComplete gapWorld rep Hrep)).
Defined.

Lemma gap_repair_counts_repaired_cells_witness :
  let rep := {| fundUpdates := [("ICICI Pru BA", 1); ("HDFC Mid-Cap", 1);
                                ("PPFAS Flexi Cap", 1)];
                totalUpdates := 3 |} in
  snd (fillNAData alwaysComplete gapWorld) = Some rep
  /\ totalUpdates rep
     = repairedCells (fundColumns (header (sheet gapWorld))) (sheet gapWorld)
                     (sheet (fst (fst (fillNAData alwaysComplete gapWorld)))).
Proof.
  intros rep.
  assert (Hrep : snd (fillNAData alwaysComplete gapWorld) = Some rep)
    by (vm_compute; reflexivity).
  split; [exact Hrep|].
  exact (gap_repair_counts_repaired_cells alwaysComplete gapWorld rep
           navColumns_distinct Hrep).
Defined.


Lemma mail_never_critical_witness :
  criticalAlerts
    (categorize fundNames
       (map alertMsg [[LongTermDowntrend]; []; [GoldenCross]; []; [ExceptionalBuy 50 8]]))
  = [].
Proof.
  refine (proj1 (mail_never_critical fundNames
                   [[LongTermDowntrend]; []; [GoldenCross]; []; [ExceptionalBuy 50 8]] _)).
  reflexivity.
Defined.

Lemma day_change_in_mail_is_zero_witness :
  navChangeStr
    (navChange
       (rows (sheet (afterAppend alwaysComplete thursday
                       (buildRow (thursday - 1)%Z (split newline completeReport))
                       emptyWorld)))
       (buildRow (thursday - 1)%Z (split newline completeReport)) 0)
  = " (0.00% ↓ 1d)".
Proof.
  apply (day_change_in_mail_is_zero alwaysComplete thursday emptyWorld (thursday - 1)%Z
           (split newline completeReport) 0 65.43).
  - vm_compute. reflexivity.
  - intros H. discriminate H.
Defined.

(** A line of the provider with "N.A." for the value: 10 is read. *)
Lemma unreadable_value_reads_day_of_month_witness :
  navOfLine
    "120377;ICICI Prudential Balanced Advantage Fund;INF109K01Z48;;N.A.;;;10-Jun-2025"
  = Num 10.
Proof.
  refine (proj1 (unreadable_value_reads_day_of_month
                   "120377;ICICI Prudential Balanced Advantage Fund;INF109K01Z48;;N.A.;;;10-Jun-2025"
                   _ 10 "Jun-2025" eq_refl _ _ _ _)).
  - reflexivity.
  - intros j f Hj.
    do 7 (destruct j as [|j]; [try lia; intros [= <-]; reflexivity|]). lia.
  - lia.
  - reflexivity.
Defined.
